(** * token-safe-zone: the list-view pipeline of the dashboard pages

    A shallow embedding of the Certificates, SSH Keys and Audit Logs pages
    (React function components) and of the operations their list views are
    built from: load from the local cache, search / filter / sort, page-based
    slicing, incremental reveal, row expansion and the certificate name edit.

    Conventions.
    - A JavaScript string is a [string] holding its UTF-8 encoding (the
      strings of the pages are well formed).  Equality, emptiness and
      substring search are the same on the encoding as on the code units;
      what depends on the Unicode tables ([toLowerCase], [trim]) is taken
      from the engine.
    - A JavaScript number that the pages only ever use as an integer (array
      lengths, page numbers, time values) is a [Z]; [None] in an [option Z]
      stands for NaN.
    - A component is a record of its [useState] cells together with the
      browser's [localStorage]; an event handler is a function on that
      record, and the [useEffect] callbacks whose dependencies changed are
      run right after the handler. *)

From Stdlib Require Import ZArith Ascii String List Sorted Permutation Lia Bool.
From stdpp Require Import base option list strings gmap pretty.

Open Scope string_scope.
Open Scope Z_scope.

(** ** Strings *)

Module JsString.

(** A falsy string is the empty one ([if (debouncedSearch)],
    [editName.trim() && ...]). *)
Definition truthy (s : string) : bool :=
  match s with
  | EmptyString => false
  | String _ _ => true
  end.

(** The lower-case form of one ASCII character: the letters A-Z move up by
    32; any other byte stays. *)
Definition lower_unit (c : ascii) : ascii :=
  let n := N_of_ascii c in
  if ((65 <=? n) && (n <=? 90))%N then ascii_of_N (n + 32) else c.

(** The ASCII letters of a string put in lower case, every other byte in
    place.  This is what [String.prototype.toLowerCase] returns for a
    string of ASCII characters; it is not that function on other strings. *)
Fixpoint lower_ascii (s : string) : string :=
  match s with
  | EmptyString => EmptyString
  | String c s' => String (lower_unit c) (lower_ascii s')
  end.

(** A string of ASCII characters only. *)
Fixpoint is_ascii (s : string) : bool :=
  match s with
  | EmptyString => true
  | String c s' => (N_of_ascii c <? 128)%N && is_ascii s'
  end.

Fixpoint startsWith (s p : string) {struct p} : bool :=
  match p with
  | EmptyString => true
  | String c p' =>
      match s with
      | EmptyString => false
      | String d s' => Ascii.eqb c d && startsWith s' p'
      end
  end.

(** [s.includes(q)]: [q] occurs in [s] at some position. *)
Fixpoint includes (s q : string) : bool :=
  startsWith s q ||
  match s with
  | EmptyString => false
  | String _ s' => includes s' q
  end.

(** The word characters of a regular expression ([\w]): the ASCII letters
    and digits and the underscore. *)
Definition isWordChar (c : ascii) : bool :=
  let n := N_of_ascii c in
  ((48 <=? n) && (n <=? 57) || (65 <=? n) && (n <=? 90)
   || (97 <=? n) && (n <=? 122) || (n =? 95))%N.

(** [c.toUpperCase()] for a word character [c]: the letters a-z move down
    by 32, the other word characters stay. *)
Definition upper_word_unit (c : ascii) : ascii :=
  let n := N_of_ascii c in
  if ((97 <=? n) && (n <=? 122))%N then ascii_of_N (n - 32) else c.

End JsString.

(** ** Arrays *)

Module JsArray.

Section Ops.
Context {A : Type}.

(** [arr.slice(start, end)]: a negative bound counts from the end, and
    both bounds are clamped to the array. *)
Definition slice (l : list A) (start stop : Z) : list A :=
  let len := Z.of_nat (length l) in
  let k := if start <? 0 then Z.max (len + start) 0 else Z.min start len in
  let final := if stop <? 0 then Z.max (len + stop) 0 else Z.min stop len in
  take (Z.to_nat (Z.max (final - k) 0)) (drop (Z.to_nat k) l).

(** The comparison [Array.prototype.sort] makes with a comparator: a NaN
    result counts as +0. *)
Definition SortCompare (comparefn : A → A → option Z) (x y : A) : Z :=
  default 0 (comparefn x y).

(** [arr.sort(comparefn)] is stable.  The algorithm is the engine's; the
    embedding takes insertion sort, which every stable algorithm agrees
    with whenever the comparator orders the elements consistently. *)
Fixpoint insert (comparefn : A → A → option Z) (x : A) (l : list A) : list A :=
  match l with
  | [] => [x]
  | y :: l' =>
      if SortCompare comparefn x y <=? 0 then x :: y :: l'
      else y :: insert comparefn x l'
  end.

Definition sort (comparefn : A → A → option Z) (l : list A) : list A :=
  foldr (insert comparefn) [] l.

End Ops.

End JsArray.

(** [Math.ceil(n / p)] for integers; the quotient by zero is not finite. *)
Definition Math_ceil_div (n p : Z) : option Z :=
  if p =? 0 then None else Some (- ((- n) / p)).

(** [Math.min(a, b)] on integers. *)
Definition Math_min (a b : Z) : Z := Z.min a b.

(** ** The record kinds (the interfaces of the [types] module) *)

Inductive CertStatus := active | expired | expiring.

Module Certificate.
Record t := mk {
  id : string;
  name : string;
  domain : string;
  issuer : string;
  status : CertStatus;
  expiryDate : string;
  createdAt : string;
  algorithm : string;
  serialNumber : string
}.

(** The object spread [{ ...c, name: n }]. *)
Definition with_name (c : t) (n : string) : t :=
  mk (id c) n (domain c) (issuer c) (status c) (expiryDate c)
     (createdAt c) (algorithm c) (serialNumber c).
End Certificate.

#[global] Instance CertStatus_eq_dec : EqDecision CertStatus.
Proof. solve_decision. Defined.

#[global] Instance Certificate_eq_dec : EqDecision Certificate.t.
Proof. solve_decision. Defined.

Inductive TrustLevel := high | medium | low.

(** The string a trust level is at run time. *)
Definition TrustLevel_str (t : TrustLevel) : string :=
  match t with
  | high => "high"
  | medium => "medium"
  | low => "low"
  end.

Module SSHKey.
Record t := mk {
  id : string;
  owner : string;
  fingerprint : string;
  lastUsed : string;
  trustLevel : TrustLevel;
  keyType : string;
  servers : list string
}.
End SSHKey.

Module AuditLog.
Record t := mk {
  id : string;
  timestamp : string;
  actor : string;
  actionType : string;
  targetResource : string;
  metadata : list (string * string)
}.
End AuditLog.

Inductive SortDirection := asc | desc.

(** ** What the pages take from their host *)

(** The built-in functions of the JavaScript engine that the pages call
    and that rest on tables of the engine.

    [Date_getTime s] is [new Date(s).getTime()]: the time value in
    milliseconds, or NaN for a string that is not a date.  Time values are
    integers of magnitude at most 8.64e15, so the sign of a difference of
    two of them is the sign of the integer difference.

    [String_toLowerCase] is [String.prototype.toLowerCase], the lower-case
    mapping of the Unicode character database, which depends on the
    context of a character and may change the length of the string.

    [String_trim] is [String.prototype.trim], which removes the white space
    and line terminators of Unicode at both ends. *)
Class Engine := {
  Date_getTime : string → option Z;
  String_toLowerCase : string → string;
  String_trim : string → string
}.

(** What [JSON.parse] does with a text, seen from a cell that is to hold
    an array of records: it throws; or it returns an array, which is taken
    to hold records of the page's kind, as the type of the cell says and
    as every text is that the pages themselves store; or it returns
    another value ([null], a number, a string, a boolean, an object).  Of
    such a value the pages read at most whether its [length] is [0], as it
    is for the empty string and for an object with that property. *)
Inductive Parsed (A : Type) :=
| Throws
| NotArray (lengthIsZero : bool)
| Records (v : A).

Arguments Throws {A}.
Arguments NotArray {A} lengthIsZero.
Arguments Records {A} v.

(** [JSON.stringify] and [JSON.parse] at the type of one collection. *)
Class JSON (A : Type) := {
  JSON_stringify : A → string;
  JSON_parse : string → Parsed A
}.

(** The bundled datasets ([@/data/*.json]). *)
Class Assets := {
  certificatesData : list Certificate.t;
  sshKeysData : list SSHKey.t;
  auditLogsData : list AuditLog.t
}.

(** [localStorage]: string keys, string values, no quota. *)
Definition getItem (ls : gmap string string) (key : string) : option string :=
  ls !! key.

Definition setItem (ls : gmap string string) (key value : string)
  : gmap string string :=
  <[key := value]> ls.

(** [if (cached)]: [null] and the empty string are falsy. *)
Definition cached_truthy (cached : option string) : bool :=
  match cached with
  | Some s => JsString.truthy s
  | None => false
  end.

(** What a page shows: skeleton rows while [loading], the error panel
    once [error] is set, the table otherwise; and nothing any more once a
    render of the component has thrown ([Crashed]): the pages catch no
    render error, so React removes the component. *)
Inductive Surface := Loading | Error | Ready | Crashed.

Definition surface (loading : bool) (error : option string) : Surface :=
  if from_option JsString.truthy false error then Error
  else if loading then Loading else Ready.

(** ** Row expansion ([toggleRow], SSH keys and audit logs alike) *)

Definition toggleRow (id : string) (prev : gset string) : gset string :=
  if decide (id ∈ prev) then prev ∖ {[ id ]} else prev ∪ {[ id ]}.

(** ** Select options *)

(** [[...new Set(values)]]: the distinct values, in the order in which
    each first occurs. *)
Definition Set_values (values : list string) : list string :=
  foldl (λ (seen : list string) v,
           if decide (v ∈ seen) then seen else (seen ++ [v])%list)
    [] values.

Module SelectOption.
Record t := mk { value : string; label : string }.
End SelectOption.

(** ** The Certificates page *)

Module Certificates.

Definition CACHE_KEY : string := "certificates-cache".

(** The comparator of [result.sort]: [dateA - dateB] ascending,
    [dateB - dateA] descending; NaN as soon as one date is not valid. *)
Definition compareExpiry `{Engine} (sortDirection : SortDirection)
    (a b : Certificate.t) : option Z :=
  dateA ← Date_getTime (Certificate.expiryDate a);
  dateB ← Date_getTime (Certificate.expiryDate b);
  Some (match sortDirection with
        | asc => dateA - dateB
        | desc => dateB - dateA
        end).

(** The predicate of the search filter, [query] already in lower case. *)
Definition matchesQuery `{Engine} (query : string) (c : Certificate.t) : bool :=
  JsString.includes (String_toLowerCase (Certificate.name c)) query
  || JsString.includes (String_toLowerCase (Certificate.domain c)) query
  || JsString.includes (String_toLowerCase (Certificate.issuer c)) query.

(** The [filteredData] memo. *)
Definition filteredData `{Engine} (certificates : list Certificate.t)
    (debouncedSearch domainFilter : string) (sortDirection : SortDirection)
  : list Certificate.t :=
  let result := certificates in
  let result :=
    if JsString.truthy debouncedSearch then
      let query := String_toLowerCase debouncedSearch in
      List.filter (matchesQuery query) result
    else result in
  let result :=
    if negb (String.eqb domainFilter "all") then
      List.filter (λ c, String.eqb (Certificate.domain c) domainFilter) result
    else result in
  JsArray.sort (compareExpiry sortDirection) result.

(** The [useState] cells of the component, the value [loadData] holds
    across its [await] ([pending]: the [cached] string read before the
    delay, until the function resumes), the identity of the array in
    [certificates] ([certificatesRef]: every [setCertificates] stores a new
    array), the toasts raised so far, [localStorage], and whether a render
    has thrown ([crashed]). *)
Record State := mkState {
  certificates : list Certificate.t;
  certificatesRef : nat;
  loading : bool;
  error : option string;
  searchQuery : string;
  debouncedSearch : string;
  domainFilter : string;
  sortDirection : SortDirection;
  currentPage : Z;
  pageSize : Z;
  selectedCert : option Certificate.t;
  editingCert : option Certificate.t;
  editName : string;
  pending : option (option string);
  toasts : list (string * string);
  localStorage : gmap string string;
  crashed : bool
}.

Definition set_certificates (v : list Certificate.t) (s : State) : State :=
  mkState v (S (certificatesRef s)) (loading s) (error s) (searchQuery s)
    (debouncedSearch s) (domainFilter s) (sortDirection s) (currentPage s)
    (pageSize s) (selectedCert s) (editingCert s) (editName s) (pending s)
    (toasts s) (localStorage s) (crashed s).

Definition set_loading (v : bool) (s : State) : State :=
  mkState (certificates s) (certificatesRef s) v (error s) (searchQuery s)
    (debouncedSearch s) (domainFilter s) (sortDirection s) (currentPage s)
    (pageSize s) (selectedCert s) (editingCert s) (editName s) (pending s)
    (toasts s) (localStorage s) (crashed s).

Definition set_error (v : option string) (s : State) : State :=
  mkState (certificates s) (certificatesRef s) (loading s) v (searchQuery s)
    (debouncedSearch s) (domainFilter s) (sortDirection s) (currentPage s)
    (pageSize s) (selectedCert s) (editingCert s) (editName s) (pending s)
    (toasts s) (localStorage s) (crashed s).

Definition set_searchQuery (v : string) (s : State) : State :=
  mkState (certificates s) (certificatesRef s) (loading s) (error s) v
    (debouncedSearch s) (domainFilter s) (sortDirection s) (currentPage s)
    (pageSize s) (selectedCert s) (editingCert s) (editName s) (pending s)
    (toasts s) (localStorage s) (crashed s).

Definition set_debouncedSearch (v : string) (s : State) : State :=
  mkState (certificates s) (certificatesRef s) (loading s) (error s)
    (searchQuery s) v (domainFilter s) (sortDirection s) (currentPage s)
    (pageSize s) (selectedCert s) (editingCert s) (editName s) (pending s)
    (toasts s) (localStorage s) (crashed s).

Definition set_domainFilter (v : string) (s : State) : State :=
  mkState (certificates s) (certificatesRef s) (loading s) (error s)
    (searchQuery s) (debouncedSearch s) v (sortDirection s) (currentPage s)
    (pageSize s) (selectedCert s) (editingCert s) (editName s) (pending s)
    (toasts s) (localStorage s) (crashed s).

Definition set_sortDirection (v : SortDirection) (s : State) : State :=
  mkState (certificates s) (certificatesRef s) (loading s) (error s)
    (searchQuery s) (debouncedSearch s) (domainFilter s) v (currentPage s)
    (pageSize s) (selectedCert s) (editingCert s) (editName s) (pending s)
    (toasts s) (localStorage s) (crashed s).

Definition set_currentPage (v : Z) (s : State) : State :=
  mkState (certificates s) (certificatesRef s) (loading s) (error s)
    (searchQuery s) (debouncedSearch s) (domainFilter s) (sortDirection s) v
    (pageSize s) (selectedCert s) (editingCert s) (editName s) (pending s)
    (toasts s) (localStorage s) (crashed s).

Definition set_pageSize (v : Z) (s : State) : State :=
  mkState (certificates s) (certificatesRef s) (loading s) (error s)
    (searchQuery s) (debouncedSearch s) (domainFilter s) (sortDirection s)
    (currentPage s) v (selectedCert s) (editingCert s) (editName s) (pending s)
    (toasts s) (localStorage s) (crashed s).

Definition set_selectedCert (v : option Certificate.t) (s : State) : State :=
  mkState (certificates s) (certificatesRef s) (loading s) (error s)
    (searchQuery s) (debouncedSearch s) (domainFilter s) (sortDirection s)
    (currentPage s) (pageSize s) v (editingCert s) (editName s) (pending s)
    (toasts s) (localStorage s) (crashed s).

Definition set_editingCert (v : option Certificate.t) (s : State) : State :=
  mkState (certificates s) (certificatesRef s) (loading s) (error s)
    (searchQuery s) (debouncedSearch s) (domainFilter s) (sortDirection s)
    (currentPage s) (pageSize s) (selectedCert s) v (editName s) (pending s)
    (toasts s) (localStorage s) (crashed s).

Definition set_editName (v : string) (s : State) : State :=
  mkState (certificates s) (certificatesRef s) (loading s) (error s)
    (searchQuery s) (debouncedSearch s) (domainFilter s) (sortDirection s)
    (currentPage s) (pageSize s) (selectedCert s) (editingCert s) v (pending s)
    (toasts s) (localStorage s) (crashed s).

Definition set_pending (v : option (option string)) (s : State) : State :=
  mkState (certificates s) (certificatesRef s) (loading s) (error s)
    (searchQuery s) (debouncedSearch s) (domainFilter s) (sortDirection s)
    (currentPage s) (pageSize s) (selectedCert s) (editingCert s) (editName s) v
    (toasts s) (localStorage s) (crashed s).

Definition toast (title description : string) (s : State) : State :=
  mkState (certificates s) (certificatesRef s) (loading s) (error s)
    (searchQuery s) (debouncedSearch s) (domainFilter s) (sortDirection s)
    (currentPage s) (pageSize s) (selectedCert s) (editingCert s) (editName s)
    (pending s) (toasts s ++ [(title, description)]) (localStorage s)
    (crashed s).

Definition set_localStorage (v : gmap string string) (s : State) : State :=
  mkState (certificates s) (certificatesRef s) (loading s) (error s)
    (searchQuery s) (debouncedSearch s) (domainFilter s) (sortDirection s)
    (currentPage s) (pageSize s) (selectedCert s) (editingCert s) (editName s)
    (pending s) (toasts s) v (crashed s).

Definition set_crashed (v : bool) (s : State) : State :=
  mkState (certificates s) (certificatesRef s) (loading s) (error s)
    (searchQuery s) (debouncedSearch s) (domainFilter s) (sortDirection s)
    (currentPage s) (pageSize s) (selectedCert s) (editingCert s) (editName s)
    (pending s) (toasts s) (localStorage s) v.

(** *** What a render derives from the state *)

Definition filtered `{Engine} (s : State) : list Certificate.t :=
  filteredData (certificates s) (debouncedSearch s) (domainFilter s)
    (sortDirection s).

Definition totalPages `{Engine} (s : State) : option Z :=
  Math_ceil_div (Z.of_nat (length (filtered s))) (pageSize s).

Definition paginatedData `{Engine} (s : State) : list Certificate.t :=
  JsArray.slice (filtered s) ((currentPage s - 1) * pageSize s)
    (currentPage s * pageSize s).

Definition shown (s : State) : Surface :=
  if crashed s then Crashed else surface (loading s) (error s).

(** *** Mount *)

(** The first render: the initial values of the cells, and [loadData] run
    up to its [await] (it has set [loading] and read the cache slot).  The
    other two effects find an empty collection and page 1. *)
Definition mount (ls : gmap string string) : State :=
  mkState [] 0 true None "" "" "all" asc 1 5 None None ""
    (Some (getItem ls CACHE_KEY)) [] ls false.

(** *** [loadData] after its [await]

    A text that parses to a value that is no array is stored in the cell
    like any other, without an error; the render that follows throws at
    [certificates.map] in the [domains] memo, before any effect of that
    render runs. *)

Definition loadData_resume `{JSON (list Certificate.t)} `{Assets}
    (cached : option string) (s : State) : State :=
  let s :=
    match cached with
    | Some text =>
        if JsString.truthy text then
          match JSON_parse text with
          | Records parsed => set_error None (set_certificates parsed s)
          | NotArray _ => set_error None (set_crashed true s)
          | Throws => set_error (Some "Failed to load certificates") s
          end
        else
          let data := certificatesData in
          set_error None
            (set_localStorage
               (setItem (localStorage s) CACHE_KEY (JSON_stringify data))
               (set_certificates data s))
    | None =>
        let data := certificatesData in
        set_error None
          (set_localStorage
             (setItem (localStorage s) CACHE_KEY (JSON_stringify data))
             (set_certificates data s))
    end in
  set_loading false s.

(** *** Handlers *)

Definition handleEdit (cert : Certificate.t) (s : State) : State :=
  set_editName (Certificate.name cert) (set_editingCert (Some cert) s).

Definition dquote : string := String (ascii_of_N 34) EmptyString.

Definition handleSaveEdit `{Engine} (s : State) : State :=
  match editingCert s with
  | Some editing =>
      if JsString.truthy (String_trim (editName s)) then
        let updated :=
          map (λ c, if String.eqb (Certificate.id c) (Certificate.id editing)
                    then Certificate.with_name c (String_trim (editName s))
                    else c)
              (certificates s) in
        toast "Certificate Updated"
          (dquote +:+ String_trim (editName s) +:+ dquote
             +:+ " has been updated successfully.")
          (set_editingCert None (set_certificates updated s))
      else s
  | None => s
  end.

Definition toggleSort (d : SortDirection) : SortDirection :=
  match d with
  | asc => desc
  | desc => asc
  end.

(** *** Effects *)

(** [useEffect(..., [certificates])]. *)
Definition persistEffect `{JSON (list Certificate.t)} (s : State) : State :=
  if 0 <? Z.of_nat (length (certificates s)) then
    set_localStorage
      (setItem (localStorage s) CACHE_KEY (JSON_stringify (certificates s))) s
  else s.

(** [useEffect(..., [debouncedSearch, domainFilter, pageSize])]. *)
Definition resetPageEffect (s : State) : State := set_currentPage 1 s.

Definition pageDepsChanged (prev next : State) : bool :=
  negb (String.eqb (debouncedSearch prev) (debouncedSearch next))
  || negb (String.eqb (domainFilter prev) (domainFilter next))
  || negb (pageSize prev =? pageSize next).

(** The effects that follow the render after a handler: each runs when
    one of its dependencies differs from the previous render's. *)
Definition runEffects `{JSON (list Certificate.t)} (prev next : State) : State :=
  let next :=
    if negb (Nat.eqb (certificatesRef prev) (certificatesRef next))
    then persistEffect next else next in
  if pageDepsChanged prev next then resetPageEffect next else next.

(** *** Events

    [RetryClicked] is the Try Again button of the error panel, the only
    control that panel shows. *)

Inductive Event :=
| LoadResumes
| SearchInput (value : string)
| DebounceSettles
| DomainSelected (value : string)
| SortToggled
| PageChanged (page : Z)
| PageSizeChanged (size : Z)
| ViewClicked (cert : Certificate.t)
| ViewClosed
| EditClicked (cert : Certificate.t)
| EditNameInput (value : string)
| DrawerClosed
| SaveClicked
| RetryClicked.

(** Modelled from the spec: the [useDebounce] hook, which is not among the
    sources; after the quiet period the debounced search text takes the
    value of the search text. *)
Definition useDebounce_settle (s : State) : State :=
  set_debouncedSearch (searchQuery s) s.

(** [RetryClicked] is the Try Again button of the error panel:
    [window.location.reload()] loads the document again, and the component
    mounts anew over the [localStorage] the page has left. *)
Definition handler `{Engine} `{JSON (list Certificate.t)} `{Assets}
    (e : Event) (s : State) : State :=
  match e with
  | LoadResumes =>
      match pending s with
      | Some cached => loadData_resume cached (set_pending None s)
      | None => s
      end
  | SearchInput v => set_searchQuery v s
  | DebounceSettles => useDebounce_settle s
  | DomainSelected v => set_domainFilter v s
  | SortToggled => set_sortDirection (toggleSort (sortDirection s)) s
  | PageChanged k => set_currentPage k s
  | PageSizeChanged n => set_pageSize n s
  | ViewClicked c => set_selectedCert (Some c) s
  | ViewClosed => set_selectedCert None s
  | EditClicked c => handleEdit c s
  | EditNameInput v => set_editName v s
  | DrawerClosed => set_editingCert None s
  | SaveClicked => handleSaveEdit s
  | RetryClicked => mount (localStorage s)
  end.

(** *** Which events the rendered page can raise *)

(** The error panel replaces the whole page. *)
Definition pageShown (s : State) : bool :=
  match shown s with
  | Error | Crashed => false
  | Loading | Ready => true
  end.

(** Rows and the pagination bar replace the skeleton once loading ends. *)
Definition rowsShown (s : State) : bool :=
  match shown s with
  | Ready => true
  | _ => false
  end.

Definition enabled `{Engine} (e : Event) (s : State) : bool :=
  match e with
  | LoadResumes => match pending s with Some _ => true | None => false end
  | DebounceSettles => negb (crashed s)
  | SearchInput _ | DomainSelected _ | SortToggled => pageShown s
  | PageChanged _ | PageSizeChanged _ =>
      rowsShown s && (0 <? Z.of_nat (length (filtered s)))
  | ViewClicked c | EditClicked c =>
      rowsShown s && bool_decide (c ∈ paginatedData s)
  | ViewClosed =>
      pageShown s && match selectedCert s with Some _ => true | None => false end
  | EditNameInput _ | DrawerClosed | SaveClicked =>
      pageShown s && match editingCert s with Some _ => true | None => false end
  | RetryClicked => match shown s with Error => true | _ => false end
  end.

(** One event: its handler, then the effects of the render that follows. *)
Definition step `{Engine} `{JSON (list Certificate.t)} `{Assets}
    (e : Event) (s : State) : State :=
  if enabled e s then runEffects s (handler e s) else s.

Definition run `{Engine} `{JSON (list Certificate.t)} `{Assets}
    (es : list Event) (s : State) : State :=
  foldl (λ s e, step e s) s es.

Inductive reachable `{Engine} `{JSON (list Certificate.t)} `{Assets}
  : State → Prop :=
| reachable_mount ls : reachable (mount ls)
| reachable_step e s : reachable s → reachable (step e s).

(** The [domains] memo: the options of the domain filter. *)
Definition domains (certificates : list Certificate.t) : list SelectOption.t :=
  let uniqueDomains := Set_values (map Certificate.domain certificates) in
  SelectOption.mk "all" "All Domains"
  :: map (λ d, SelectOption.mk d d) uniqueDomains.

End Certificates.

(** ** The SSH Keys page (its query pipeline) *)

Module SSHKeys.

Definition trustOrder (t : TrustLevel) : Z :=
  match t with
  | high => 3
  | medium => 2
  | low => 1
  end.

Definition compareTrust (sortDirection : SortDirection) (a b : SSHKey.t)
  : option Z :=
  let orderA := trustOrder (SSHKey.trustLevel a) in
  let orderB := trustOrder (SSHKey.trustLevel b) in
  Some (match sortDirection with
        | desc => orderB - orderA
        | asc => orderA - orderB
        end).

Definition matchesQuery `{Engine} (query : string) (k : SSHKey.t) : bool :=
  JsString.includes (String_toLowerCase (SSHKey.owner k)) query
  || JsString.includes (String_toLowerCase (SSHKey.fingerprint k)) query.

Definition filteredData `{Engine} (sshKeys : list SSHKey.t)
    (debouncedSearch trustFilter : string) (sortDirection : SortDirection)
  : list SSHKey.t :=
  let result := sshKeys in
  let result :=
    if JsString.truthy debouncedSearch then
      let query := String_toLowerCase debouncedSearch in
      List.filter (matchesQuery query) result
    else result in
  let result :=
    if negb (String.eqb trustFilter "all") then
      List.filter
        (λ k, String.eqb (TrustLevel_str (SSHKey.trustLevel k)) trustFilter)
        result
    else result in
  JsArray.sort (compareTrust sortDirection) result.

End SSHKeys.

(** ** The Audit Logs page *)

Module AuditLogs.

Definition CACHE_KEY : string := "audit-logs-cache".
Definition PAGE_SIZE : Z := 8.

(** [{ from?: Date; to?: Date }]; a [Date] is its time value, NaN for an
    invalid one. *)
Record DateRange := mkRange {
  from : option (option Z);
  to : option (option Z)
}.

(** [a >= b] and [a <= b] on dates compare the time values, and are false
    as soon as one is NaN. *)
Definition date_ge (a b : option Z) : bool :=
  match a, b with
  | Some x, Some y => y <=? x
  | _, _ => false
  end.

Definition date_le (a b : option Z) : bool :=
  match a, b with
  | Some x, Some y => x <=? y
  | _, _ => false
  end.

(** The comparator of [result.sort]: newest first. *)
Definition compareRecency `{Engine} (a b : AuditLog.t) : option Z :=
  timeB ← Date_getTime (AuditLog.timestamp b);
  timeA ← Date_getTime (AuditLog.timestamp a);
  Some (timeB - timeA).

Definition filteredData `{Engine} (logs : list AuditLog.t)
    (actionTypeFilter : string) (dateRange : DateRange) : list AuditLog.t :=
  let result := logs in
  let result :=
    if negb (String.eqb actionTypeFilter "all") then
      List.filter (λ l, String.eqb (AuditLog.actionType l) actionTypeFilter)
        result
    else result in
  let result :=
    match from dateRange with
    | Some d =>
        List.filter (λ l, date_ge (Date_getTime (AuditLog.timestamp l)) d)
          result
    | None => result
    end in
  let result :=
    match to dateRange with
    | Some d =>
        List.filter (λ l, date_le (Date_getTime (AuditLog.timestamp l)) d)
          result
    | None => result
    end in
  JsArray.sort compareRecency result.

(** The cells of the component, the cached string [loadData] holds across
    its [await], the identity of the object in [dateRange] (every
    [setDateRange] stores a new object), [localStorage], and whether a
    render has thrown ([crashed]). *)
Record State := mkState {
  logs : list AuditLog.t;
  loading : bool;
  error : option string;
  actionTypeFilter : string;
  dateRange : DateRange;
  dateRangeRef : nat;
  displayCount : Z;
  expandedRows : gset string;
  pending : option (option string);
  localStorage : gmap string string;
  crashed : bool
}.

Definition set_logs (v : list AuditLog.t) (s : State) : State :=
  mkState v (loading s) (error s) (actionTypeFilter s) (dateRange s)
    (dateRangeRef s) (displayCount s) (expandedRows s) (pending s)
    (localStorage s) (crashed s).

Definition set_loading (v : bool) (s : State) : State :=
  mkState (logs s) v (error s) (actionTypeFilter s) (dateRange s)
    (dateRangeRef s) (displayCount s) (expandedRows s) (pending s)
    (localStorage s) (crashed s).

Definition set_error (v : option string) (s : State) : State :=
  mkState (logs s) (loading s) v (actionTypeFilter s) (dateRange s)
    (dateRangeRef s) (displayCount s) (expandedRows s) (pending s)
    (localStorage s) (crashed s).

Definition set_actionTypeFilter (v : string) (s : State) : State :=
  mkState (logs s) (loading s) (error s) v (dateRange s)
    (dateRangeRef s) (displayCount s) (expandedRows s) (pending s)
    (localStorage s) (crashed s).

Definition set_dateRange (v : DateRange) (s : State) : State :=
  mkState (logs s) (loading s) (error s) (actionTypeFilter s) v
    (S (dateRangeRef s)) (displayCount s) (expandedRows s) (pending s)
    (localStorage s) (crashed s).

Definition set_displayCount (v : Z) (s : State) : State :=
  mkState (logs s) (loading s) (error s) (actionTypeFilter s) (dateRange s)
    (dateRangeRef s) v (expandedRows s) (pending s) (localStorage s)
    (crashed s).

Definition set_expandedRows (v : gset string) (s : State) : State :=
  mkState (logs s) (loading s) (error s) (actionTypeFilter s) (dateRange s)
    (dateRangeRef s) (displayCount s) v (pending s) (localStorage s)
    (crashed s).

Definition set_pending (v : option (option string)) (s : State) : State :=
  mkState (logs s) (loading s) (error s) (actionTypeFilter s) (dateRange s)
    (dateRangeRef s) (displayCount s) (expandedRows s) v (localStorage s)
    (crashed s).

Definition set_localStorage (v : gmap string string) (s : State) : State :=
  mkState (logs s) (loading s) (error s) (actionTypeFilter s) (dateRange s)
    (dateRangeRef s) (displayCount s) (expandedRows s) (pending s) v
    (crashed s).

Definition set_crashed (v : bool) (s : State) : State :=
  mkState (logs s) (loading s) (error s) (actionTypeFilter s) (dateRange s)
    (dateRangeRef s) (displayCount s) (expandedRows s) (pending s)
    (localStorage s) v.

(** *** What a render derives from the state *)

Definition filtered `{Engine} (s : State) : list AuditLog.t :=
  filteredData (logs s) (actionTypeFilter s) (dateRange s).

Definition displayedData `{Engine} (s : State) : list AuditLog.t :=
  JsArray.slice (filtered s) 0 (displayCount s).

Definition hasMore `{Engine} (s : State) : bool :=
  displayCount s <? Z.of_nat (length (filtered s)).

Definition shown (s : State) : Surface :=
  if crashed s then Crashed else surface (loading s) (error s).

(** *** Mount and [loadData]

    A text that parses to a value that is no array is stored in the cell
    without an error; the render that follows throws at [logs.map] in the
    [actionTypes] memo. *)

Definition mount (ls : gmap string string) : State :=
  mkState [] true None "all" (mkRange None None) 0 PAGE_SIZE ∅
    (Some (getItem ls CACHE_KEY)) ls false.

Definition loadData_resume `{JSON (list AuditLog.t)} `{Assets}
    (cached : option string) (s : State) : State :=
  let s :=
    match cached with
    | Some text =>
        if JsString.truthy text then
          match JSON_parse text with
          | Records parsed => set_error None (set_logs parsed s)
          | NotArray _ => set_error None (set_crashed true s)
          | Throws => set_error (Some "Failed to load audit logs") s
          end
        else
          let data := auditLogsData in
          set_error None
            (set_localStorage
               (setItem (localStorage s) CACHE_KEY (JSON_stringify data))
               (set_logs data s))
    | None =>
        let data := auditLogsData in
        set_error None
          (set_localStorage
             (setItem (localStorage s) CACHE_KEY (JSON_stringify data))
             (set_logs data s))
    end in
  set_loading false s.

(** *** Handlers and effects *)

(** The callback of the [IntersectionObserver] on the sentinel. *)
Definition handleObserver `{Engine} (isIntersecting : bool) (s : State) : State :=
  if isIntersecting && hasMore s && negb (loading s) then
    set_displayCount
      (Math_min (displayCount s + PAGE_SIZE) (Z.of_nat (length (filtered s)))) s
  else s.

(** [useEffect(..., [actionTypeFilter, dateRange])]. *)
Definition resetCountEffect (s : State) : State := set_displayCount PAGE_SIZE s.

Definition filterDepsChanged (prev next : State) : bool :=
  negb (String.eqb (actionTypeFilter prev) (actionTypeFilter next))
  || negb (Nat.eqb (dateRangeRef prev) (dateRangeRef next)).

Definition runEffects (prev next : State) : State :=
  if filterDepsChanged prev next then resetCountEffect next else next.

(** The events of a session of the component.  The Try Again button of
    the error panel reloads the document: the session ends there, and the
    next one begins at [mount] over the storage left. *)
Inductive Event :=
| LoadResumes
| ActionSelected (value : string)
| RangeSelected (range : DateRange)
| DatesCleared
| SentinelObserved (isIntersecting : bool)
| RowClicked (id : string).

Definition handler `{Engine} `{JSON (list AuditLog.t)} `{Assets}
    (e : Event) (s : State) : State :=
  match e with
  | LoadResumes =>
      match pending s with
      | Some cached => loadData_resume cached (set_pending None s)
      | None => s
      end
  | ActionSelected v => set_actionTypeFilter v s
  | RangeSelected r => set_dateRange (mkRange (from r) (to r)) s
  | DatesCleared => set_dateRange (mkRange None None) s
  | SentinelObserved b => handleObserver b s
  | RowClicked id => set_expandedRows (toggleRow id (expandedRows s)) s
  end.

Definition pageShown (s : State) : bool :=
  match shown s with
  | Error | Crashed => false
  | Loading | Ready => true
  end.

Definition rowsShown (s : State) : bool :=
  match shown s with
  | Ready => true
  | _ => false
  end.

Definition enabled `{Engine} (e : Event) (s : State) : bool :=
  match e with
  | LoadResumes => match pending s with Some _ => true | None => false end
  | ActionSelected _ | RangeSelected _ | SentinelObserved _ => pageShown s
  | DatesCleared =>
      pageShown s &&
      match from (dateRange s), to (dateRange s) with
      | None, None => false
      | _, _ => true
      end
  | RowClicked id =>
      rowsShown s && bool_decide (id ∈ map AuditLog.id (displayedData s))
  end.

Definition step `{Engine} `{JSON (list AuditLog.t)} `{Assets}
    (e : Event) (s : State) : State :=
  if enabled e s then runEffects s (handler e s) else s.

(** The events that change a filter. *)
Definition isFilterChange (e : Event) : bool :=
  match e with
  | ActionSelected _ | RangeSelected _ | DatesCleared => true
  | _ => false
  end.

Inductive reachable `{Engine} `{JSON (list AuditLog.t)} `{Assets}
  : State → Prop :=
| reachable_mount ls : reachable (mount ls)
| reachable_step e s : reachable s → reachable (step e s).

Definition run `{Engine} `{JSON (list AuditLog.t)} `{Assets}
    (es : list Event) (s : State) : State :=
  foldl (λ s e, step e s) s es.

(** [t.replace(/[._]/g, ' ')]. *)
Fixpoint separators_to_spaces (t : string) : string :=
  match t with
  | EmptyString => EmptyString
  | String c t' =>
      String (if Ascii.eqb c "." || Ascii.eqb c "_" then " "%char else c)
        (separators_to_spaces t')
  end.

(** [s.replace(/\b\w/g, (c) => c.toUpperCase())]: a word character that
    follows no word character is put in upper case; [afterWord] tells
    whether the character before is a word character. *)
Fixpoint capitalize_words (afterWord : bool) (s : string) : string :=
  match s with
  | EmptyString => EmptyString
  | String c s' =>
      String (if JsString.isWordChar c && negb afterWord
              then JsString.upper_word_unit c else c)
        (capitalize_words (JsString.isWordChar c) s')
  end.

Definition actionLabel (t : string) : string :=
  capitalize_words false (separators_to_spaces t).

(** The [actionTypes] memo: the options of the action filter. *)
Definition actionTypes (logs : list AuditLog.t) : list SelectOption.t :=
  let types := Set_values (map AuditLog.actionType logs) in
  SelectOption.mk "all" "All Actions"
  :: map (λ t, SelectOption.mk t (actionLabel t)) types.

End AuditLogs.

(** ** The Code Signing page *)

Inductive ProtectionLevel := hsm | software.

Module CodeSigningKey.
Record t := mk {
  id : string;
  alias : string;
  algorithm : string;
  protectionLevel : ProtectionLevel;
  createdAt : string;
  lastUsed : string;
  usageCount : Z
}.
End CodeSigningKey.

Inductive ViewMode := table | grid.

Definition ViewMode_str (m : ViewMode) : string :=
  match m with
  | table => "table"
  | grid => "grid"
  end.

(** The bundled dataset of the page ([@/data/code-signing.json]). *)
Class CodeSigningAssets := { codeSigningData : list CodeSigningKey.t }.

Module CodeSigning.

Definition CACHE_KEY : string := "code-signing-cache".
Definition VIEW_MODE_KEY : string := "code-signing-view-mode".

Definition matchesQuery `{Engine} (query : string) (k : CodeSigningKey.t)
  : bool :=
  JsString.includes (String_toLowerCase (CodeSigningKey.alias k)) query
  || JsString.includes (String_toLowerCase (CodeSigningKey.algorithm k)) query.

(** The [filteredData] memo: no sort on this page. *)
Definition filteredData `{Engine} (keys : list CodeSigningKey.t)
    (debouncedSearch : string) : list CodeSigningKey.t :=
  if negb (JsString.truthy debouncedSearch) then keys
  else
    let query := String_toLowerCase debouncedSearch in
    List.filter (matchesQuery query) keys.

(** The cells of the component; [viewMode] holds whatever string the
    preference slot held, the cast to [ViewMode] checking nothing.
    [notArray] is [Some z] when the [keys] cell holds a parsed value that
    is no array, [z] telling whether the [length] of that value is [0]
    (the list in [keys] then counts for nothing, and stays empty);
    [crashed] tells whether a render has thrown. *)
Record State := mkState {
  keys : list CodeSigningKey.t;
  viewMode : string;
  loading : bool;
  error : option string;
  searchQuery : string;
  debouncedSearch : string;
  pending : option (option string);
  localStorage : gmap string string;
  notArray : option bool;
  crashed : bool
}.

Definition set_keys (v : list CodeSigningKey.t) (s : State) : State :=
  mkState v (viewMode s) (loading s) (error s) (searchQuery s)
    (debouncedSearch s) (pending s) (localStorage s)
    (notArray s) (crashed s).

Definition set_viewMode (v : string) (s : State) : State :=
  mkState (keys s) v (loading s) (error s) (searchQuery s)
    (debouncedSearch s) (pending s) (localStorage s)
    (notArray s) (crashed s).

Definition set_loading (v : bool) (s : State) : State :=
  mkState (keys s) (viewMode s) v (error s) (searchQuery s)
    (debouncedSearch s) (pending s) (localStorage s)
    (notArray s) (crashed s).

Definition set_error (v : option string) (s : State) : State :=
  mkState (keys s) (viewMode s) (loading s) v (searchQuery s)
    (debouncedSearch s) (pending s) (localStorage s)
    (notArray s) (crashed s).

Definition set_searchQuery (v : string) (s : State) : State :=
  mkState (keys s) (viewMode s) (loading s) (error s) v
    (debouncedSearch s) (pending s) (localStorage s)
    (notArray s) (crashed s).

Definition set_debouncedSearch (v : string) (s : State) : State :=
  mkState (keys s) (viewMode s) (loading s) (error s) (searchQuery s)
    v (pending s) (localStorage s)
    (notArray s) (crashed s).

Definition set_pending (v : option (option string)) (s : State) : State :=
  mkState (keys s) (viewMode s) (loading s) (error s) (searchQuery s)
    (debouncedSearch s) v (localStorage s) (notArray s) (crashed s).

Definition set_localStorage (v : gmap string string) (s : State) : State :=
  mkState (keys s) (viewMode s) (loading s) (error s) (searchQuery s)
    (debouncedSearch s) (pending s) v (notArray s) (crashed s).

Definition set_notArray (v : option bool) (s : State) : State :=
  mkState (keys s) (viewMode s) (loading s) (error s) (searchQuery s)
    (debouncedSearch s) (pending s) (localStorage s) v (crashed s).

Definition set_crashed (v : bool) (s : State) : State :=
  mkState (keys s) (viewMode s) (loading s) (error s) (searchQuery s)
    (debouncedSearch s) (pending s) (localStorage s) (notArray s) v.

(** The initialiser of the [viewMode] cell: [saved || 'table']. *)
Definition initialViewMode (ls : gmap string string) : string :=
  match getItem ls VIEW_MODE_KEY with
  | Some saved => if JsString.truthy saved then saved else "table"
  | None => "table"
  end.

Definition mount (ls : gmap string string) : State :=
  mkState [] (initialViewMode ls) true None "" ""
    (Some (getItem ls CACHE_KEY)) ls None false.

Definition loadData_resume `{JSON (list CodeSigningKey.t)} `{CodeSigningAssets}
    (cached : option string) (s : State) : State :=
  let s :=
    match cached with
    | Some text =>
        if JsString.truthy text then
          match JSON_parse text with
          | Records parsed => set_error None (set_keys parsed s)
          | NotArray z => set_error None (set_notArray (Some z) s)
          | Throws => set_error (Some "Failed to load code signing keys") s
          end
        else
          let data := codeSigningData in
          set_error None
            (set_localStorage
               (setItem (localStorage s) CACHE_KEY (JSON_stringify data))
               (set_keys data s))
    | None =>
        let data := codeSigningData in
        set_error None
          (set_localStorage
             (setItem (localStorage s) CACHE_KEY (JSON_stringify data))
             (set_keys data s))
    end in
  set_loading false s.

Definition handleViewModeChange (mode : ViewMode) (s : State) : State :=
  set_localStorage
    (setItem (localStorage s) VIEW_MODE_KEY (ViewMode_str mode))
    (set_viewMode (ViewMode_str mode) s).

(** Which of the two layouts a render shows: the table for ["table"], the
    grid for any other string. *)
Definition showsTable (s : State) : bool := String.eqb (viewMode s) "table".

(** With a value in [keys] that is no array, a render throws at
    [keys.filter] in the [filteredData] memo as soon as a search text is
    set; with no search text the memo returns the value itself, and the
    render throws below the header, at [filteredData.length] or at
    [filteredData.map], once the page neither loads nor shows an error,
    unless the [length] of the value is [0] (the empty state shows). *)
Definition renderThrows (s : State) : bool :=
  match notArray s with
  | Some lengthIsZero =>
      JsString.truthy (debouncedSearch s)
      || negb (from_option JsString.truthy false (error s))
         && negb (loading s) && negb lengthIsZero
  | None => false
  end.

Definition render (s : State) : State :=
  if renderThrows s then set_crashed true s else s.

Definition shown (s : State) : Surface :=
  if crashed s then Crashed else surface (loading s) (error s).

(** The events of a session of the component; a reload (Try Again in the
    error panel) ends the session, and the next one begins at [mount]. *)
Inductive Event :=
| LoadResumes
| SearchInput (text : string)
| DebounceSettles
| ViewModeClicked (mode : ViewMode).

Definition handler `{JSON (list CodeSigningKey.t)} `{CodeSigningAssets}
    (e : Event) (s : State) : State :=
  match e with
  | LoadResumes =>
      match pending s with
      | Some cached => loadData_resume cached (set_pending None s)
      | None => s
      end
  | SearchInput v => set_searchQuery v s
  | DebounceSettles => set_debouncedSearch (searchQuery s) s
  | ViewModeClicked m => handleViewModeChange m s
  end.

(** The error panel replaces the page, header included. *)
Definition enabled (e : Event) (s : State) : bool :=
  match e with
  | LoadResumes => match pending s with Some _ => true | None => false end
  | DebounceSettles => negb (crashed s)
  | SearchInput _ | ViewModeClicked _ =>
      match shown s with
      | Error | Crashed => false
      | Loading | Ready => true
      end
  end.

(** One event: its handler, then the render that follows.  The page has
    no effect other than the load. *)
Definition step `{JSON (list CodeSigningKey.t)} `{CodeSigningAssets}
    (e : Event) (s : State) : State :=
  if enabled e s then render (handler e s) else s.

Definition run `{JSON (list CodeSigningKey.t)} `{CodeSigningAssets}
    (es : list Event) (s : State) : State :=
  foldl (λ s e, step e s) s es.

End CodeSigning.

(** ** What holds in every state of the Certificates page

    Until [loadData] resumes the collection is empty, the page is loading
    and there is no error; an error is the load error, and leaves the
    collection empty; the drawer is open only over a collection that is
    not empty and without an error; once [loadData] has resumed, a
    collection that is not empty is the one the cache slot holds; a page
    whose render has thrown has no collection, no pending load and no
    error; the text a pending load holds is the one in the cache slot; and
    behind an error there is a text in the cache slot on which
    [JSON.parse] throws. *)
Definition cert_inv `{JSON (list Certificate.t)} (s : Certificates.State)
  : Prop :=
  (is_Some (Certificates.pending s) →
     Certificates.certificates s = [] ∧ Certificates.loading s = true
     ∧ Certificates.error s = None)
  ∧ (Certificates.error s = None
     ∨ Certificates.error s = Some "Failed to load certificates"
       ∧ Certificates.certificates s = [])
  ∧ (is_Some (Certificates.editingCert s) →
     Certificates.certificates s ≠ [] ∧ Certificates.error s = None)
  ∧ (Certificates.pending s = None → Certificates.certificates s ≠ [] →
     Certificates.localStorage s !! Certificates.CACHE_KEY
     = Some (JSON_stringify (Certificates.certificates s)))
  ∧ (Certificates.crashed s = true →
     Certificates.certificates s = [] ∧ Certificates.pending s = None
     ∧ Certificates.error s = None)
  ∧ (∀ cached, Certificates.pending s = Some cached →
     cached = getItem (Certificates.localStorage s) Certificates.CACHE_KEY
     ∧ Certificates.crashed s = false)
  ∧ (Certificates.error s ≠ None →
     Certificates.pending s = None ∧ Certificates.crashed s = false
     ∧ ∃ text,
         Certificates.localStorage s !! Certificates.CACHE_KEY = Some text
         ∧ JsString.truthy text = true ∧ JSON_parse text = Throws).

(** The states of a page whose load fails: the cache slot holds a text on
    which [JSON.parse] throws, there is no collection, and either the load
    has ended in the error, or a reload holds that text across its
    [await]. *)
Definition cert_failed `{JSON (list Certificate.t)} (s : Certificates.State)
  : Prop :=
  Certificates.certificates s = []
  ∧ Certificates.crashed s = false
  ∧ Certificates.editingCert s = None
  ∧ (∃ text,
       Certificates.localStorage s !! Certificates.CACHE_KEY = Some text
       ∧ JsString.truthy text = true ∧ JSON_parse text = Throws)
  ∧ (Certificates.pending s = None
     ∧ Certificates.error s = Some "Failed to load certificates"
     ∨ Certificates.pending s
       = Some (getItem (Certificates.localStorage s) Certificates.CACHE_KEY)
       ∧ Certificates.error s = None ∧ Certificates.loading s = true).

(** The name edit on one record. *)
Definition rename (editing : Certificate.t) (name : string) (c : Certificate.t)
  : Certificate.t :=
  if String.eqb (Certificate.id c) (Certificate.id editing)
  then Certificate.with_name c name else c.

(** ** What holds in every state of the Audit Logs page

    Until [loadData] resumes there are no logs; the display count is at
    least one page, and is either exactly one page or at most the size of
    the filtered collection. *)
Definition logs_inv `{Engine} (s : AuditLogs.State) : Prop :=
  (is_Some (AuditLogs.pending s) → AuditLogs.logs s = [])
  ∧ AuditLogs.PAGE_SIZE <= AuditLogs.displayCount s
  ∧ (AuditLogs.displayCount s = AuditLogs.PAGE_SIZE
     ∨ AuditLogs.displayCount s
       <= Z.of_nat (length (AuditLogs.filtered s))).

(** ** The search condition of the pages *)

(** What the filter callbacks test: the lower-case form of [needle] occurs
    in the lower-case form of [hay], both as the engine's [toLowerCase]
    returns them. *)
Definition lowered_occurs `{Engine} (needle hay : string) : Prop :=
  ∃ pre post,
    String_toLowerCase hay = pre +:+ String_toLowerCase needle +:+ post.

(** A certificate is searched by name, domain and issuer. *)
Definition cert_search_ok `{Engine} (search : string) (c : Certificate.t)
  : Prop :=
  search = ""
  ∨ lowered_occurs search (Certificate.name c)
  ∨ lowered_occurs search (Certificate.domain c)
  ∨ lowered_occurs search (Certificate.issuer c).

Definition cert_filter_ok (filter : string) (c : Certificate.t) : Prop :=
  filter = "all" ∨ Certificate.domain c = filter.

(** An SSH key is searched by owner and fingerprint. *)
Definition key_search_ok `{Engine} (search : string) (k : SSHKey.t) : Prop :=
  search = ""
  ∨ lowered_occurs search (SSHKey.owner k)
  ∨ lowered_occurs search (SSHKey.fingerprint k).

Definition key_filter_ok (filter : string) (k : SSHKey.t) : Prop :=
  filter = "all" ∨ TrustLevel_str (SSHKey.trustLevel k) = filter.

(** The same conditions as the callbacks of [Array.prototype.filter]. *)
Definition cert_keep `{Engine} (search filter : string) (c : Certificate.t)
  : bool :=
  (negb (JsString.truthy search)
   || Certificates.matchesQuery (String_toLowerCase search) c)
  && (String.eqb filter "all" || String.eqb (Certificate.domain c) filter).

Definition key_keep `{Engine} (search filter : string) (k : SSHKey.t) : bool :=
  (negb (JsString.truthy search)
   || SSHKeys.matchesQuery (String_toLowerCase search) k)
  && (String.eqb filter "all"
      || String.eqb (TrustLevel_str (SSHKey.trustLevel k)) filter).

(** The callbacks of the audit-log filters, taken together. *)
Definition log_keep `{Engine} (filter : string) (range : AuditLogs.DateRange)
    (l : AuditLog.t) : bool :=
  (String.eqb filter "all" || String.eqb (AuditLog.actionType l) filter)
  && match AuditLogs.from range with
     | Some d => AuditLogs.date_ge (Date_getTime (AuditLog.timestamp l)) d
     | None => true
     end
  && match AuditLogs.to range with
     | Some d => AuditLogs.date_le (Date_getTime (AuditLog.timestamp l)) d
     | None => true
     end.

(** ** Sort keys *)

(** The order of two keys in a direction. *)
Definition in_order (d : SortDirection) (ka kb : Z) : Prop :=
  match d with
  | asc => ka <= kb
  | desc => ka >= kb
  end.

(** Adjacent elements are in order of [key]: weakly increasing when
    ascending, weakly decreasing when descending.  A key may be NaN
    ([None]), and a comparison with NaN does not hold. *)
Definition ordered {A : Type} (key : A → option Z) (d : SortDirection)
    (l : list A) : Prop :=
  ∀ (i : nat) a b, l !! i = Some a → l !! S i = Some b →
    ∃ ka kb, key a = Some ka ∧ key b = Some kb ∧ in_order d ka kb.

(** The elements of key [k], in the order of the list. *)
Definition with_key {A : Type} (key : A → option Z) (k : Z) (l : list A)
  : list A :=
  List.filter (λ x, bool_decide (key x = Some k)) l.

(** Elements of equal key stand in [l'] in the order they have in [l]. *)
Definition stable {A : Type} (key : A → option Z) (l l' : list A) : Prop :=
  ∀ k, with_key key k l' = with_key key k l.

(** A comparator orders the elements of [l] as their keys do. *)
Definition consistent {A : Type} (comparefn : A → A → option Z)
    (key : A → option Z) (d : SortDirection) (l : list A) : Prop :=
  ∀ x y, x ∈ l → y ∈ l →
    ∃ kx ky, key x = Some kx ∧ key y = Some ky
      ∧ (JsArray.SortCompare comparefn x y <= 0 ↔ in_order d kx ky).

(** The keys of the three pages. *)
Definition expiry_key `{Engine} (c : Certificate.t) : option Z :=
  Date_getTime (Certificate.expiryDate c).

Definition trust_key (k : SSHKey.t) : option Z :=
  Some (SSHKeys.trustOrder (SSHKey.trustLevel k)).

Definition recency_key `{Engine} (l : AuditLog.t) : option Z :=
  Date_getTime (AuditLog.timestamp l).

(** ** Conditions of the other pipelines *)

#[global] Instance TrustLevel_eq_dec : EqDecision TrustLevel.
Proof. solve_decision. Defined.

(** An audit log passes the action filter. *)
Definition log_filter_ok (filter : string) (l : AuditLog.t) : Prop :=
  filter = "all" ∨ AuditLog.actionType l = filter.

(** An audit log is inside the date range: its timestamp is a valid date,
    not before a lower bound that is set and not after an upper bound that
    is set, both bounds being valid dates themselves. *)
Definition log_range_ok `{Engine} (range : AuditLogs.DateRange)
    (l : AuditLog.t) : Prop :=
  (∀ d, AuditLogs.from range = Some d →
     ∃ t b, Date_getTime (AuditLog.timestamp l) = Some t ∧ d = Some b ∧ b <= t)
  ∧ (∀ d, AuditLogs.to range = Some d →
     ∃ t b, Date_getTime (AuditLog.timestamp l) = Some t ∧ d = Some b ∧ t <= b).

(** A code-signing key is searched by alias and algorithm. *)
Definition cskey_search_ok `{Engine} (search : string) (k : CodeSigningKey.t)
  : Prop :=
  search = ""
  ∨ lowered_occurs search (CodeSigningKey.alias k)
  ∨ lowered_occurs search (CodeSigningKey.algorithm k).

Definition cskey_keep `{Engine} (search : string) (k : CodeSigningKey.t) : bool :=
  negb (JsString.truthy search)
  || CodeSigning.matchesQuery (String_toLowerCase search) k.

(** ** Case-insensitive search on ASCII text *)

(** Modelled from the spec: two characters are the same up to case when
    they are equal, or one is an ASCII capital letter and the other the
    small letter 32 places above it. *)
Definition same_letter (c d : ascii) : Prop :=
  let n := N_of_ascii c in
  let m := N_of_ascii d in
  c = d
  ∨ ((65 <= n)%N ∧ (n <= 90)%N ∧ m = (n + 32)%N)
  ∨ ((65 <= m)%N ∧ (m <= 90)%N ∧ n = (m + 32)%N).

(** Modelled from the spec: two texts of the same length whose characters
    are pairwise the same up to case. *)
Fixpoint same_text (a b : string) : Prop :=
  match a, b with
  | EmptyString, EmptyString => True
  | String c a', String d b' => same_letter c d ∧ same_text a' b'
  | _, _ => False
  end.

(** Modelled from the spec: the case-insensitive substring condition;
    some substring of [hay] is [needle] up to case. *)
Definition ci_occurs (needle hay : string) : Prop :=
  ∃ pre mid post, hay = pre +:+ mid +:+ post ∧ same_text mid needle.

(** Modelled from the spec: the search conditions of the three pages. *)
Definition cert_search_ci (search : string) (c : Certificate.t) : Prop :=
  search = ""
  ∨ ci_occurs search (Certificate.name c)
  ∨ ci_occurs search (Certificate.domain c)
  ∨ ci_occurs search (Certificate.issuer c).

Definition key_search_ci (search : string) (k : SSHKey.t) : Prop :=
  search = ""
  ∨ ci_occurs search (SSHKey.owner k)
  ∨ ci_occurs search (SSHKey.fingerprint k).

Definition cskey_search_ci (search : string) (k : CodeSigningKey.t) : Prop :=
  search = ""
  ∨ ci_occurs search (CodeSigningKey.alias k)
  ∨ ci_occurs search (CodeSigningKey.algorithm k).

(** The searched fields of a record are ASCII text. *)
Definition cert_ascii (c : Certificate.t) : bool :=
  JsString.is_ascii (Certificate.name c)
  && JsString.is_ascii (Certificate.domain c)
  && JsString.is_ascii (Certificate.issuer c).

Definition key_ascii (k : SSHKey.t) : bool :=
  JsString.is_ascii (SSHKey.owner k) && JsString.is_ascii (SSHKey.fingerprint k).

Definition cskey_ascii (k : CodeSigningKey.t) : bool :=
  JsString.is_ascii (CodeSigningKey.alias k)
  && JsString.is_ascii (CodeSigningKey.algorithm k).

(** What every engine does on ASCII text: [toLowerCase] moves the letters
    A-Z to a-z and leaves the rest. *)
Definition lowers_ascii `{Engine} : Prop :=
  ∀ s, JsString.is_ascii s = true →
    String_toLowerCase s = JsString.lower_ascii s.

(** The keys of one trust level, in the order of the list. *)
Definition trust_group (t : TrustLevel) (l : list SSHKey.t) : list SSHKey.t :=
  List.filter (λ k, bool_decide (SSHKey.trustLevel k = t)) l.

(** On the elements of [l], [up] compares as [k] increasing and [down] as
    [k] decreasing. *)
Definition two_way {A : Type} (up down : A → A → option Z) (k : A → Z)
    (l : list A) : Prop :=
  ∀ x y, x ∈ l → y ∈ l →
    (JsArray.SortCompare up x y <= 0 ↔ k x <= k y)
    ∧ (JsArray.SortCompare down x y <= 0 ↔ k y <= k x).

(** The page a state would show at page index [k]. *)
Definition page_at `{Engine} (s : Certificates.State) (k : Z)
  : list Certificate.t :=
  Certificates.paginatedData (Certificates.set_currentPage k s).

(** A certificate with its name blanked: what an edit cannot change. *)
Definition unnamed (c : Certificate.t) : Certificate.t :=
  Certificate.with_name c "".

(** ** A host for the examples

    An engine that reads the ISO date-only form [YYYY-MM-DD] as midnight
    UTC and takes any other string for an invalid date; that puts in
    lower case the ASCII letters and the unaccented Greek capitals, the
    capital sigma by the rule of its final form; and that trims ASCII white
    space.  JSON texts are written as [JSON.stringify] writes them, and
    read back by looking the text up among the serialisations of a given
    list of collections; the texts [null], [5] and [{}] and the text of
    the empty string are read as the values they are, and any other text
    is rejected.  And small bundled datasets. *)

Module Demo.

Definition digit (c : ascii) : option Z :=
  let n := Z.of_N (N_of_ascii c) in
  if (48 <=? n) && (n <=? 57) then Some (n - 48) else None.

Fixpoint number (cs : list ascii) (acc : Z) : option Z :=
  match cs with
  | [] => Some acc
  | c :: cs' => d ← digit c; number cs' (10 * acc + d)
  end.

Definition isLeap (y : Z) : bool :=
  (y mod 4 =? 0) && (negb (y mod 100 =? 0) || (y mod 400 =? 0)).

Definition daysInMonth (y m : Z) : Z :=
  if m =? 2 then (if isLeap y then 29 else 28)
  else if (m =? 4) || (m =? 6) || (m =? 9) || (m =? 11) then 30
  else 31.

(** Days from 1970-01-01 to the given civil date. *)
Definition days_from_civil (y m d : Z) : Z :=
  let y' := if m <=? 2 then y - 1 else y in
  let era := y' / 400 in
  let yoe := y' - era * 400 in
  let doy := (153 * (if 2 <? m then m - 3 else m + 9) + 2) / 5 + d - 1 in
  let doe := yoe * 365 + yoe / 4 - yoe / 100 + doy in
  era * 146097 + doe - 719468.

Definition iso_date (s : string) : option Z :=
  match list_ascii_of_string s with
  | [y1; y2; y3; y4; s1; m1; m2; s2; d1; d2] =>
      if Ascii.eqb s1 "-" && Ascii.eqb s2 "-" then
        y ← number [y1; y2; y3; y4] 0;
        m ← number [m1; m2] 0;
        d ← number [d1; d2] 0;
        if (1 <=? m) && (m <=? 12) && (1 <=? d) && (d <=? daysInMonth y m)
        then Some (days_from_civil y m d * 86400000)
        else None
      else None
  | _ => None
  end.

(** *** [toLowerCase] on ASCII and unaccented Greek, in UTF-8

    The Greek capitals U+0391..U+03A9 are the bytes CE 91..CE A9, the small
    letters U+03B1..U+03BF are CE B1..CE BF and U+03C0..U+03C9 are
    CF 80..CF 89.  A capital sigma (CE A3) becomes the final sigma (CF 82)
    when a cased letter stands before it and none after it, case-ignorable
    characters skipped on both sides, and the sigma CF 83 otherwise. *)

Definition is_upper (n : N) : bool := ((65 <=? n) && (n <=? 90))%N.

Definition is_letter (n : N) : bool :=
  (is_upper n || (97 <=? n) && (n <=? 122))%N.

(** The case-ignorable characters of ASCII: apostrophe, full stop, colon,
    circumflex accent and grave accent. *)
Definition case_ignorable (n : N) : bool :=
  ((n =? 39) || (n =? 46) || (n =? 58) || (n =? 94) || (n =? 96))%N.

Definition greek_capital (m : N) : bool :=
  ((145 <=? m) && (m <=? 161) || (163 <=? m) && (m <=? 169))%N.

Definition greek_small_CE (m : N) : bool := ((177 <=? m) && (m <=? 191))%N.

Definition greek_small_CF (m : N) : bool := ((128 <=? m) && (m <=? 137))%N.

(** A cased letter begins the string. *)
Definition cased_at (s : string) : bool :=
  match s with
  | EmptyString => false
  | String c rest =>
      let n := N_of_ascii c in
      is_letter n
      || match rest with
         | EmptyString => false
         | String d _ =>
             let m := N_of_ascii d in
             ((n =? 206)%N && (greek_capital m || greek_small_CE m))
             || ((n =? 207)%N && greek_small_CF m)
         end
  end.

Fixpoint cased_follows (s : string) : bool :=
  match s with
  | EmptyString => false
  | String c rest =>
      if case_ignorable (N_of_ascii c) then cased_follows rest else cased_at s
  end.

(** [afterCased]: a cased letter stands before, with nothing but
    case-ignorable characters in between. *)
Fixpoint lower (afterCased : bool) (s : string) : string :=
  match s with
  | EmptyString => EmptyString
  | String c rest =>
      let n := N_of_ascii c in
      if (n =? 206)%N then
        match rest with
        | EmptyString => String c EmptyString
        | String d rest' =>
            let m := N_of_ascii d in
            if (m =? 163)%N then
              String (ascii_of_N 207)
                (String (ascii_of_N
                           (if afterCased && negb (cased_follows rest')
                            then 130 else 131))
                   (lower true rest'))
            else if greek_capital m then
              if (m <=? 159)%N
              then String c (String (ascii_of_N (m + 32)) (lower true rest'))
              else String (ascii_of_N 207)
                     (String (ascii_of_N (m - 32)) (lower true rest'))
            else String c (String d (lower (greek_small_CE m) rest'))
        end
      else if (n =? 207)%N then
        match rest with
        | EmptyString => String c EmptyString
        | String d rest' =>
            String c (String d (lower (greek_small_CF (N_of_ascii d)) rest'))
        end
      else if is_upper n then String (ascii_of_N (n + 32)) (lower true rest)
      else String c (lower (is_letter n || case_ignorable n && afterCased) rest)
  end.

Definition toLowerCase (s : string) : string := lower false s.

(** *** [trim] on ASCII white space: TAB, LF, VT, FF, CR and SP *)

Definition isWhite (c : ascii) : bool :=
  let n := N_of_ascii c in
  ((9 <=? n) && (n <=? 13) || (n =? 32))%N.

Fixpoint trimStart (s : string) : string :=
  match s with
  | EmptyString => EmptyString
  | String c s' => if isWhite c then trimStart s' else s
  end.

Fixpoint trimEnd (s : string) : string :=
  match s with
  | EmptyString => EmptyString
  | String c s' =>
      let t := trimEnd s' in
      if isWhite c && negb (JsString.truthy t) then EmptyString else String c t
  end.

Definition trim (s : string) : string := trimEnd (trimStart s).

Definition engine : Engine :=
  {| Date_getTime := iso_date;
     String_toLowerCase := toLowerCase;
     String_trim := trim |}.

(** *** JSON texts *)

Definition dquote : string := String (ascii_of_N 34) EmptyString.
Definition backslash : string := String (ascii_of_N 92) EmptyString.

Definition hex_digit (n : N) : string :=
  String (ascii_of_N (if (n <? 10)%N then 48 + n else 87 + n)) EmptyString.

Definition escape_unit (c : ascii) : string :=
  let n := N_of_ascii c in
  if (n =? 34)%N then backslash +:+ dquote
  else if (n =? 92)%N then backslash +:+ backslash
  else if (n =? 8)%N then backslash +:+ "b"
  else if (n =? 9)%N then backslash +:+ "t"
  else if (n =? 10)%N then backslash +:+ "n"
  else if (n =? 12)%N then backslash +:+ "f"
  else if (n =? 13)%N then backslash +:+ "r"
  else if (n <? 32)%N then
    backslash +:+ "u00" +:+ hex_digit (n / 16) +:+ hex_digit (n mod 16)
  else String c EmptyString.

Fixpoint escape (s : string) : string :=
  match s with
  | EmptyString => EmptyString
  | String c s' => escape_unit c +:+ escape s'
  end.

Definition json_string (s : string) : string := dquote +:+ escape s +:+ dquote.

Definition json_object (fields : list (string * string)) : string :=
  "{" +:+ String.concat "," (map (λ kv, json_string kv.1 +:+ ":" +:+ kv.2) fields)
      +:+ "}".

Definition json_array (items : list string) : string :=
  "[" +:+ String.concat "," items +:+ "]".

Definition status_str (st : CertStatus) : string :=
  match st with
  | active => "active"
  | expired => "expired"
  | expiring => "expiring"
  end.

Definition json_of_certificate (c : Certificate.t) : string :=
  json_object
    [("id", json_string (Certificate.id c));
     ("name", json_string (Certificate.name c));
     ("domain", json_string (Certificate.domain c));
     ("issuer", json_string (Certificate.issuer c));
     ("status", json_string (status_str (Certificate.status c)));
     ("expiryDate", json_string (Certificate.expiryDate c));
     ("createdAt", json_string (Certificate.createdAt c));
     ("algorithm", json_string (Certificate.algorithm c));
     ("serialNumber", json_string (Certificate.serialNumber c))].

Definition json_of_log (l : AuditLog.t) : string :=
  json_object
    [("id", json_string (AuditLog.id l));
     ("timestamp", json_string (AuditLog.timestamp l));
     ("actor", json_string (AuditLog.actor l));
     ("actionType", json_string (AuditLog.actionType l));
     ("targetResource", json_string (AuditLog.targetResource l));
     ("metadata",
      json_object (map (λ kv, (kv.1, json_string kv.2)) (AuditLog.metadata l)))].

Definition parse_among {A : Type} (stringify : A → string) (known : list A)
    (text : string) : Parsed A :=
  match List.find (λ v, String.eqb (stringify v) text) known with
  | Some v => Records v
  | None =>
      if String.eqb text "null" || String.eqb text "5" || String.eqb text "{}"
      then NotArray false
      else if String.eqb text (dquote +:+ dquote) then NotArray true
      else Throws
  end.

(** *** Datasets *)

Definition cert (id name domain issuer expiry : string) : Certificate.t :=
  Certificate.mk id name domain issuer active expiry "2024-01-01" "RSA-2048"
    ("00:" +:+ id).

Definition certs12 : list Certificate.t :=
  [ cert "c01" "Main site" "example.com" "Let's Encrypt" "2025-03-01";
    cert "c02" "API gateway" "api.example.com" "DigiCert" "2025-01-15";
    cert "c03" "Mail" "mail.example.org" "Let's Encrypt" "2025-06-30";
    cert "c04" "Shop" "shop.test" "Sectigo" "2025-02-10";
    cert "c05" "Docs" "docs.test" "DigiCert" "2025-12-31";
    cert "c06" "Status page" "status.test" "Sectigo" "2025-04-04";
    cert "c07" "Intranet" "intra.local" "Internal CA" "2025-05-20";
    cert "c08" "VPN" "vpn.local" "Internal CA" "2025-01-02";
    cert "c09" "Staging" "staging.test" "Let's Encrypt" "2025-07-07";
    cert "c10" "Blog" "blog.test" "Let's Encrypt" "2025-08-19";
    cert "c11" "Wiki" "wiki.local" "Internal CA" "2025-09-09";
    cert "c12" "Metrics" "metrics.local" "Internal CA" "2025-10-10" ].

Definition certs3 : list Certificate.t :=
  [ cert "a" "Late" "late.test" "CA" "2025-01-05";
    cert "b" "Undated" "undated.test" "CA" "unknown";
    cert "c" "Early" "early.test" "CA" "2025-01-01" ].

Definition log (id timestamp actionType : string) : AuditLog.t :=
  AuditLog.mk id timestamp "admin" actionType ("res-" +:+ id)
    [("ip", "10.0.0.1")].

Definition logs3 : list AuditLog.t :=
  [ log "l1" "2025-01-03" "certificate.renew";
    log "l2" "2025-01-01" "ssh_key.create";
    log "l3" "2025-01-02" "certificate.renew" ].

Definition logs10 : list AuditLog.t :=
  [ log "m01" "2025-02-01" "certificate.renew";
    log "m02" "2025-02-02" "certificate.renew";
    log "m03" "2025-02-03" "ssh_key.create";
    log "m04" "2025-02-04" "certificate.renew";
    log "m05" "2025-02-05" "ssh_key.access";
    log "m06" "2025-02-06" "certificate.renew";
    log "m07" "2025-02-07" "certificate.update";
    log "m08" "2025-02-08" "certificate.renew";
    log "m09" "2025-02-09" "code_signing.sign";
    log "m10" "2025-02-10" "certificate.renew" ].

Definition keys3 : list SSHKey.t :=
  [ SSHKey.mk "k1" "alice" "SHA256:AbCd" "2025-01-01" medium "ed25519" ["web-1"];
    SSHKey.mk "k2" "bob" "SHA256:EfGh" "2025-01-02" high "rsa" ["db-1"];
    SSHKey.mk "k3" "carol" "SHA256:IjKl" "2025-01-03" medium "ed25519" [] ].

Definition assets : Assets :=
  {| certificatesData := certs12; sshKeysData := keys3; auditLogsData := logs10 |}.

Definition stringify_certs (l : list Certificate.t) : string :=
  json_array (map json_of_certificate l).

Definition stringify_logs (l : list AuditLog.t) : string :=
  json_array (map json_of_log l).

Definition json_certs : JSON (list Certificate.t) :=
  {| JSON_stringify := stringify_certs;
     JSON_parse := parse_among stringify_certs [[]; certs12; certs3] |}.

Definition json_logs : JSON (list AuditLog.t) :=
  {| JSON_stringify := stringify_logs;
     JSON_parse := parse_among stringify_logs [[]; logs10; logs3] |}.

(** *** Sessions *)

Definition certs_run (ls : gmap string string) (es : list Certificates.Event)
  : Certificates.State :=
  @Certificates.run engine json_certs assets es (Certificates.mount ls).

(** A first visit: no cache, the bundled twelve certificates. *)
Definition certs_loaded : Certificates.State :=
  certs_run ∅ [Certificates.LoadResumes].

Definition certs_page3 : Certificates.State :=
  certs_run ∅ [Certificates.LoadResumes; Certificates.PageChanged 3].

(** The drawer open on the first row, the name replaced by blanks. *)
Definition certs_blank_edit : Certificates.State :=
  certs_run ∅
    [Certificates.LoadResumes;
     Certificates.EditClicked
       (cert "c08" "VPN" "vpn.local" "Internal CA" "2025-01-02");
     Certificates.EditNameInput "   "].

(** The same drawer with a new name typed, padded with blanks. *)
Definition certs_named_edit : Certificates.State :=
  certs_run ∅
    [Certificates.LoadResumes;
     Certificates.EditClicked
       (cert "c08" "VPN" "vpn.local" "Internal CA" "2025-01-02");
     Certificates.EditNameInput "  Office VPN "].

(** A visit that finds an empty array in the cache. *)
Definition certs_empty_cache : Certificates.State :=
  certs_run {[ Certificates.CACHE_KEY := "[]" ]} [Certificates.LoadResumes].

(** A visit that finds a text in the cache that is not JSON. *)
Definition certs_broken_cache : Certificates.State :=
  certs_run {[ Certificates.CACHE_KEY := "{" ]} [Certificates.LoadResumes].

(** A visit that finds the text [null] in the cache. *)
Definition certs_null_cache : Certificates.State :=
  certs_run {[ Certificates.CACHE_KEY := "null" ]} [Certificates.LoadResumes].

Definition logs_run (ls : gmap string string) (es : list AuditLogs.Event)
  : AuditLogs.State :=
  foldl (λ s e, @AuditLogs.step engine json_logs assets e s)
    (AuditLogs.mount ls) es.

(** A first visit to the audit logs: the ten bundled entries. *)
Definition logs_loaded : AuditLogs.State := logs_run ∅ [AuditLogs.LoadResumes].

(** The same, narrowed to the one action that a single entry has. *)
Definition logs_one_match : AuditLogs.State :=
  logs_run ∅ [AuditLogs.LoadResumes; AuditLogs.ActionSelected "ssh_key.create"].

(** A visit to the audit logs that finds a text that is not JSON. *)
Definition logs_broken_cache : AuditLogs.State :=
  logs_run {[ AuditLogs.CACHE_KEY := "{" ]} [AuditLogs.LoadResumes].

(** A visit to the audit logs that finds the text [null]. *)
Definition logs_null_cache : AuditLogs.State :=
  logs_run {[ AuditLogs.CACHE_KEY := "null" ]} [AuditLogs.LoadResumes].

(** *** The code-signing page *)

Definition cskey (id alias algorithm : string) (p : ProtectionLevel)
  : CodeSigningKey.t :=
  CodeSigningKey.mk id alias algorithm p "2024-03-01" "2025-01-10" 42.

Definition cskeys3 : list CodeSigningKey.t :=
  [ cskey "s1" "Release signing" "RSA-4096" hsm;
    cskey "s2" "Nightly builds" "ECDSA-P256" software;
    cskey "s3" "Firmware" "RSA-2048" hsm ].

Definition json_of_cskey (k : CodeSigningKey.t) : string :=
  json_object
    [("id", json_string (CodeSigningKey.id k));
     ("alias", json_string (CodeSigningKey.alias k));
     ("algorithm", json_string (CodeSigningKey.algorithm k));
     ("protectionLevel",
      json_string (match CodeSigningKey.protectionLevel k with
                   | hsm => "hsm"
                   | software => "software"
                   end));
     ("createdAt", json_string (CodeSigningKey.createdAt k));
     ("lastUsed", json_string (CodeSigningKey.lastUsed k));
     ("usageCount", pretty (CodeSigningKey.usageCount k))].

Definition stringify_cskeys (l : list CodeSigningKey.t) : string :=
  json_array (map json_of_cskey l).

Definition json_cskeys : JSON (list CodeSigningKey.t) :=
  {| JSON_stringify := stringify_cskeys;
     JSON_parse := parse_among stringify_cskeys [[]; cskeys3] |}.

Definition cs_assets : CodeSigningAssets := {| codeSigningData := cskeys3 |}.

Definition cs_run (ls : gmap string string) (es : list CodeSigning.Event)
  : CodeSigning.State :=
  @CodeSigning.run json_cskeys cs_assets es (CodeSigning.mount ls).

Definition cs_loaded : CodeSigning.State := cs_run ∅ [CodeSigning.LoadResumes].

End Demo.

Example iso_date_epoch : Demo.iso_date "1970-01-01" = Some 0.
Proof. reflexivity. Qed.

Example iso_date_2025 : Demo.iso_date "2025-01-01" = Some 1735689600000.
Proof. vm_compute. reflexivity. Qed.

Example iso_date_invalid : Demo.iso_date "unknown" = None.
Proof. reflexivity. Qed.

Example stringify_empty : Demo.stringify_certs [] = "[]".
Proof. reflexivity. Qed.

(** * Properties *)

(** ** Strings *)

Section StringFacts.
Import JsString.

Lemma startsWith_spec s p :
  startsWith s p = true ↔ ∃ post, s = p +:+ post.
Proof.
  revert s. induction p as [|c p IH]; intros s; simpl.
  - split; [intros _; by exists s | done].
  - destruct s as [|d s]; simpl.
    + split; [done | intros [post Hpost]; discriminate].
    + rewrite andb_true_iff, Ascii.eqb_eq, IH. split.
      * intros [-> [post ->]]. by exists post.
      * intros [post Hpost]. injection Hpost as -> ->. eauto.
Qed.

Lemma includes_spec s q :
  includes s q = true ↔ ∃ pre post, s = pre +:+ q +:+ post.
Proof.
  induction s as [|d s IH]; simpl.
  - rewrite orb_false_r, startsWith_spec. split.
    + intros [post Hpost]. by exists "", post.
    + intros [pre [post Hs]]. destruct pre; [by exists post | discriminate].
  - rewrite orb_true_iff, startsWith_spec, IH. split.
    + intros [[post Hpost] | [pre [post ->]]].
      * by exists "", post.
      * by exists (String d pre), post.
    + intros [pre [post Hs]]. destruct pre as [|e pre]; simpl in Hs.
      * left. by exists post.
      * right. injection Hs as -> ->. by exists pre, post.
Qed.

Lemma lower_ascii_app a b :
  lower_ascii (a +:+ b) = lower_ascii a +:+ lower_ascii b.
Proof. induction a as [|c a IH]; simpl; [done | by rewrite IH]. Qed.

Lemma lower_ascii_split s x y :
  lower_ascii s = x +:+ y →
  ∃ a b, s = a +:+ b ∧ lower_ascii a = x ∧ lower_ascii b = y.
Proof.
  revert s. induction x as [|c x IH]; intros s Hs; simpl in Hs.
  - by exists "", s.
  - destruct s as [|d s]; simpl in Hs; [discriminate |].
    injection Hs as Hc Hs. destruct (IH s Hs) as (a & b & -> & Ha & Hb).
    exists (String d a), b. simpl. by rewrite Hc, Ha.
Qed.

Lemma truthy_false s : truthy s = false ↔ s = "".
Proof. by destruct s. Qed.

Lemma truthy_true s : truthy s = true ↔ s ≠ "".
Proof. by destruct s. Qed.

Lemma N_of_ascii_bound c : (N_of_ascii c < 256)%N.
Proof. destruct c as [[] [] [] [] [] [] [] []]; vm_compute; reflexivity. Qed.

Lemma N_of_ascii_inj c d : N_of_ascii c = N_of_ascii d → c = d.
Proof.
  intros Hcd. rewrite <- (ascii_N_embedding c), <- (ascii_N_embedding d).
  by rewrite Hcd.
Qed.

Lemma lower_unit_N c :
  N_of_ascii (lower_unit c)
  = (if (65 <=? N_of_ascii c) && (N_of_ascii c <=? 90)
     then N_of_ascii c + 32 else N_of_ascii c)%N.
Proof.
  unfold lower_unit.
  destruct ((65 <=? N_of_ascii c) && (N_of_ascii c <=? 90))%N eqn:Hup;
    [| done].
  apply andb_true_iff in Hup as [_ Hle%N.leb_le].
  apply N_ascii_embedding. lia.
Qed.

End StringFacts.

(** Equal lower-case forms: the same character up to case. *)
Lemma lower_unit_same c d :
  JsString.lower_unit c = JsString.lower_unit d ↔ same_letter c d.
Proof.
  unfold same_letter. split.
  - intros Heq. apply (f_equal N_of_ascii) in Heq.
    rewrite !lower_unit_N in Heq.
    destruct (N.leb_spec 65 (N_of_ascii c)), (N.leb_spec (N_of_ascii c) 90),
      (N.leb_spec 65 (N_of_ascii d)), (N.leb_spec (N_of_ascii d) 90);
      simpl in Heq;
      first [ left; apply N_of_ascii_inj; lia
            | right; left; lia
            | right; right; lia ].
  - intros Hcd. apply N_of_ascii_inj. rewrite !lower_unit_N.
    destruct Hcd as [-> | [(H1 & H2 & ->) | (H1 & H2 & ->)]]; [done | |].
    + destruct (N.leb_spec 65 (N_of_ascii c)), (N.leb_spec (N_of_ascii c) 90),
        (N.leb_spec 65 (N_of_ascii c + 32)),
        (N.leb_spec (N_of_ascii c + 32) 90); simpl; lia.
    + destruct (N.leb_spec 65 (N_of_ascii d)), (N.leb_spec (N_of_ascii d) 90),
        (N.leb_spec 65 (N_of_ascii d + 32)),
        (N.leb_spec (N_of_ascii d + 32) 90); simpl; lia.
Qed.

Lemma same_text_lower a b :
  same_text a b ↔ JsString.lower_ascii a = JsString.lower_ascii b.
Proof.
  revert b. induction a as [|c a IH]; intros [|d b]; simpl;
    [done | split; [done | discriminate] | split; [done | discriminate] |].
  rewrite IH, <- lower_unit_same. split.
  - by intros [-> ->].
  - intros Heq. by injection Heq.
Qed.

(** On the ASCII lower-case forms, inclusion is the case-insensitive
    substring condition. *)
Lemma includes_lower_ci hay needle :
  JsString.includes (JsString.lower_ascii hay) (JsString.lower_ascii needle)
    = true
  ↔ ci_occurs needle hay.
Proof.
  rewrite includes_spec. unfold ci_occurs. split.
  - intros (pre & post & Hhay).
    apply lower_ascii_split in Hhay as (a & rest & -> & Ha & Hrest).
    apply lower_ascii_split in Hrest as (mid & b & -> & Hmid & Hb).
    exists a, mid, b. by rewrite same_text_lower.
  - intros (pre & mid & post & -> & Hmid%same_text_lower).
    exists (JsString.lower_ascii pre), (JsString.lower_ascii post).
    by rewrite !lower_ascii_app, Hmid.
Qed.

(** What the callbacks compute is [lowered_occurs]; on ASCII text it is
    the case-insensitive substring condition. *)
Lemma includes_lowered `{Engine} hay needle :
  JsString.includes (String_toLowerCase hay) (String_toLowerCase needle) = true
  ↔ lowered_occurs needle hay.
Proof. apply includes_spec. Qed.

Lemma lowered_ci `{Engine} needle hay :
  lowers_ascii →
  JsString.is_ascii needle = true → JsString.is_ascii hay = true →
  lowered_occurs needle hay ↔ ci_occurs needle hay.
Proof.
  intros Hlow Hn Hh.
  by rewrite <- includes_lowered, (Hlow _ Hn), (Hlow _ Hh), includes_lower_ci.
Qed.

(** ** Sorting *)

Section SortFacts.
Context {A : Type} (comparefn : A → A → option Z).
Context (key : A → option Z) (d : SortDirection).
Import JsArray.

Local Ltac mem := rewrite ?elem_of_cons in *; intuition.

Lemma insert_perm x l : insert comparefn x l ≡ₚ x :: l.
Proof.
  induction l as [|y l IH]; simpl; [done |].
  destruct (SortCompare comparefn x y <=? 0); [done |].
  rewrite IH. apply perm_swap.
Qed.

Lemma sort_perm l : sort comparefn l ≡ₚ l.
Proof.
  induction l as [|x l IH]; simpl; [done |].
  fold (sort comparefn l). by rewrite insert_perm, IH.
Qed.

Lemma sort_elem_of x l : x ∈ sort comparefn l ↔ x ∈ l.
Proof. by rewrite sort_perm. Qed.

Lemma sort_length l : length (sort comparefn l) = length l.
Proof. by rewrite sort_perm. Qed.

(** The relation between neighbours of an ordered list. *)
Let R (a b : A) : Prop :=
  ∃ ka kb, key a = Some ka ∧ key b = Some kb ∧ in_order d ka kb.

Lemma in_order_total ka kb : ¬ in_order d ka kb → in_order d kb ka.
Proof. destruct d; simpl; lia. Qed.

Lemma insert_HdRel a x l :
  R a x → HdRel R a l → HdRel R a (insert comparefn x l).
Proof.
  intros Hax Hal. destruct l as [|y l]; simpl; [by constructor |].
  destruct (SortCompare comparefn x y <=? 0); constructor; [done |].
  by inversion Hal.
Qed.

Lemma insert_Sorted x l :
  consistent comparefn key d (x :: l) →
  Sorted R l → Sorted R (insert comparefn x l).
Proof.
  intros Hc Hl. induction Hl as [|y l Hl IH Hy]; simpl.
  - repeat constructor.
  - destruct (Hc x y) as (kx & ky & Hkx & Hky & Hxy);
      [mem | mem |].
    destruct (Z.leb_spec (SortCompare comparefn x y) 0) as [Hle | Hgt].
    + constructor; [by constructor |]. constructor.
      exists kx, ky. by rewrite <- Hxy.
    + constructor.
      * apply IH. intros u v Hu Hv. apply Hc; mem.
      * apply insert_HdRel; [| done].
        exists ky, kx. split_and!; [done | done |].
        apply in_order_total. rewrite <- Hxy. lia.
Qed.

Lemma sort_Sorted l :
  consistent comparefn key d l → Sorted R (sort comparefn l).
Proof.
  induction l as [|x l IH]; intros Hc; simpl; [constructor |].
  fold (sort comparefn l). apply insert_Sorted.
  - intros u v Hu Hv. apply Hc.
    + rewrite elem_of_cons, sort_elem_of, <- elem_of_cons in Hu. done.
    + rewrite elem_of_cons, sort_elem_of, <- elem_of_cons in Hv. done.
  - apply IH. intros u v Hu Hv. apply Hc; mem.
Qed.

Lemma Sorted_ordered l : Sorted R l → ordered key d l.
Proof.
  intros Hl. induction Hl as [|x l Hl IH Hx]; intros i a b Hi HSi.
  - done.
  - destruct i as [|i]; simpl in *.
    + injection Hi as ->. destruct l as [|y l]; [done |].
      injection HSi as ->. by inversion Hx.
    + by apply (IH i).
Qed.

Lemma sort_ordered l :
  consistent comparefn key d l → ordered key d (sort comparefn l).
Proof. intros Hc. by apply Sorted_ordered, sort_Sorted. Qed.

Lemma insert_with_key k x l :
  consistent comparefn key d (x :: l) →
  with_key key k (insert comparefn x l) = with_key key k (x :: l).
Proof.
  induction l as [|y l IH]; intros Hc; simpl; [done |].
  destruct (Hc x y) as (kx & ky & Hkx & Hky & Hxy);
    [mem | mem |].
  destruct (Z.leb_spec (SortCompare comparefn x y) 0) as [Hle | Hgt];
    [done |].
  assert (kx ≠ ky) as Hne.
  { intros ->. apply (Z.lt_irrefl 0). eapply Z.lt_le_trans; [exact Hgt |].
    apply Hxy. destruct d; simpl; lia. }
  unfold with_key in *. simpl. rewrite IH.
  - simpl. rewrite Hkx, Hky.
    repeat case_bool_decide; simplify_eq; done.
  - intros u v Hu Hv. apply Hc; mem.
Qed.

Lemma sort_stable l :
  consistent comparefn key d l → stable key l (sort comparefn l).
Proof.
  intros Hc k. induction l as [|x l IH]; simpl; [done |].
  fold (sort comparefn l). rewrite insert_with_key.
  - unfold with_key in *. simpl. rewrite IH; [done |].
    intros u v Hu Hv. apply Hc; mem.
  - intros u v Hu Hv. apply Hc.
    + rewrite elem_of_cons, sort_elem_of, <- elem_of_cons in Hu. done.
    + rewrite elem_of_cons, sort_elem_of, <- elem_of_cons in Hv. done.
Qed.

End SortFacts.

(** ** The query pipelines *)

Lemma filter_filter_andb {A : Type} (p q : A → bool) (l : list A) :
  List.filter q (List.filter p l) = List.filter (λ x, p x && q x) l.
Proof.
  induction l as [|x l IH]; simpl; [done |].
  destruct (p x); simpl; [destruct (q x) |]; by rewrite IH.
Qed.

Lemma filter_all {A : Type} (l : list A) : List.filter (λ _, true) l = l.
Proof. induction l as [|x l IH]; simpl; [done | by rewrite IH]. Qed.

Lemma filter_elem_of {A : Type} (p : A → bool) (l : list A) x :
  x ∈ List.filter p l ↔ x ∈ l ∧ p x = true.
Proof. by rewrite !list_elem_of_In, filter_In. Qed.

(** Each [filteredData] is one filter followed by the sort. *)
Lemma cert_pipeline `{Engine} certs search filter d :
  Certificates.filteredData certs search filter d
  = JsArray.sort (Certificates.compareExpiry d)
      (List.filter (cert_keep search filter) certs).
Proof.
  unfold Certificates.filteredData, cert_keep. f_equal.
  destruct (JsString.truthy search), (String.eqb filter "all"); simpl;
    rewrite ?filter_filter_andb;
    first [ apply filter_ext; intros c; simpl; by rewrite ?andb_true_r
          | rewrite <- (filter_all certs) at 1; by apply filter_ext ].
Qed.

Lemma key_pipeline `{Engine} keys search filter d :
  SSHKeys.filteredData keys search filter d
  = JsArray.sort (SSHKeys.compareTrust d)
      (List.filter (key_keep search filter) keys).
Proof.
  unfold SSHKeys.filteredData, key_keep. f_equal.
  destruct (JsString.truthy search), (String.eqb filter "all"); simpl;
    rewrite ?filter_filter_andb;
    first [ apply filter_ext; intros c; simpl; by rewrite ?andb_true_r
          | rewrite <- (filter_all keys) at 1; by apply filter_ext ].
Qed.

Lemma log_pipeline `{Engine} logs filter range :
  AuditLogs.filteredData logs filter range
  = JsArray.sort AuditLogs.compareRecency
      (List.filter (log_keep filter range) logs).
Proof.
  unfold AuditLogs.filteredData, log_keep. f_equal.
  destruct (String.eqb filter "all"), (AuditLogs.from range),
    (AuditLogs.to range); simpl;
    rewrite ?filter_filter_andb;
    first [ apply filter_ext; intros l; simpl;
            by rewrite ?andb_true_r, ?andb_assoc
          | rewrite <- (filter_all logs) at 1; by apply filter_ext ].
Qed.

Lemma cert_keep_spec `{Engine} search filter c :
  cert_keep search filter c = true
  ↔ cert_search_ok search c ∧ cert_filter_ok filter c.
Proof.
  unfold cert_keep, cert_search_ok, cert_filter_ok, Certificates.matchesQuery.
  rewrite andb_true_iff, !orb_true_iff, negb_true_iff, truthy_false.
  rewrite !includes_lowered, !String.eqb_eq. tauto.
Qed.

Lemma key_keep_spec `{Engine} search filter k :
  key_keep search filter k = true
  ↔ key_search_ok search k ∧ key_filter_ok filter k.
Proof.
  unfold key_keep, key_search_ok, key_filter_ok, SSHKeys.matchesQuery.
  rewrite andb_true_iff, !orb_true_iff, negb_true_iff, truthy_false.
  rewrite !includes_lowered, !String.eqb_eq. tauto.
Qed.

Lemma cert_search_ci_spec `{Engine} search c :
  lowers_ascii → JsString.is_ascii search = true → cert_ascii c = true →
  cert_search_ok search c ↔ cert_search_ci search c.
Proof.
  intros Hlow Hs Hc. unfold cert_ascii in Hc.
  apply andb_true_iff in Hc as [[Hn Hd]%andb_true_iff Hi].
  unfold cert_search_ok, cert_search_ci. by rewrite !lowered_ci.
Qed.

Lemma key_search_ci_spec `{Engine} search k :
  lowers_ascii → JsString.is_ascii search = true → key_ascii k = true →
  key_search_ok search k ↔ key_search_ci search k.
Proof.
  intros Hlow Hs Hk. unfold key_ascii in Hk.
  apply andb_true_iff in Hk as [Ho Hf].
  unfold key_search_ok, key_search_ci. by rewrite !lowered_ci.
Qed.

(** The demo engine lower-cases ASCII text as every engine does. *)
Lemma Demo_lower_ascii b s :
  JsString.is_ascii s = true → Demo.lower b s = JsString.lower_ascii s.
Proof.
  revert b. induction s as [|c s IH]; intros b Hs; [done |].
  simpl in Hs. apply andb_true_iff in Hs as [Hc%N.ltb_lt Hs].
  cbn [Demo.lower JsString.lower_ascii].
  unfold JsString.lower_unit, Demo.is_upper.
  destruct (N.eqb_spec (N_of_ascii c) 206) as [Heq | _]; [lia |].
  destruct (N.eqb_spec (N_of_ascii c) 207) as [Heq | _]; [lia |].
  destruct ((65 <=? N_of_ascii c) && (N_of_ascii c <=? 90))%N; by rewrite IH.
Qed.

Lemma Demo_lowers_ascii : @lowers_ascii Demo.engine.
Proof. intros s Hs. by apply Demo_lower_ascii. Qed.

(** C1.  The filtered result of the certificate and SSH-key pipelines is
    a rearrangement of the records the filter callbacks keep, so none is
    dropped and none is added; it holds a record exactly when the record is
    in the collection, the search text is empty or its lower-case form (the
    engine's [toLowerCase]) occurs in the lower-case form of a searched
    field (name, domain, issuer; owner, fingerprint), and the filter is
    "all" or equals the filter field.  When the search text and the
    searched fields are ASCII text, this is the case-insensitive substring
    condition. *)
Theorem query_pipeline_exact `{Engine} :
  (∀ certs search filter d,
     (∀ c, cert_keep search filter c = true
           ↔ cert_search_ok search c ∧ cert_filter_ok filter c)
     ∧ Certificates.filteredData certs search filter d
         ≡ₚ List.filter (cert_keep search filter) certs
     ∧ (∀ c, c ∈ Certificates.filteredData certs search filter d
            ↔ c ∈ certs ∧ cert_search_ok search c ∧ cert_filter_ok filter c)
     ∧ (lowers_ascii → JsString.is_ascii search = true →
        ∀ c, cert_ascii c = true →
          c ∈ Certificates.filteredData certs search filter d
          ↔ c ∈ certs ∧ cert_search_ci search c ∧ cert_filter_ok filter c))
  ∧ (∀ keys search filter d,
     (∀ k, key_keep search filter k = true
           ↔ key_search_ok search k ∧ key_filter_ok filter k)
     ∧ SSHKeys.filteredData keys search filter d
         ≡ₚ List.filter (key_keep search filter) keys
     ∧ (∀ k, k ∈ SSHKeys.filteredData keys search filter d
            ↔ k ∈ keys ∧ key_search_ok search k ∧ key_filter_ok filter k)
     ∧ (lowers_ascii → JsString.is_ascii search = true →
        ∀ k, key_ascii k = true →
          k ∈ SSHKeys.filteredData keys search filter d
          ↔ k ∈ keys ∧ key_search_ci search k ∧ key_filter_ok filter k)).
Proof.
  split.
  - intros certs search filter d. split_and!.
    + intros c. apply cert_keep_spec.
    + rewrite cert_pipeline. apply sort_perm.
    + intros c.
      by rewrite cert_pipeline, sort_elem_of, filter_elem_of, cert_keep_spec.
    + intros Hlow Hs c Hc.
      rewrite cert_pipeline, sort_elem_of, filter_elem_of, cert_keep_spec.
      by rewrite cert_search_ci_spec.
  - intros keys search filter d. split_and!.
    + intros k. apply key_keep_spec.
    + rewrite key_pipeline. apply sort_perm.
    + intros k.
      by rewrite key_pipeline, sort_elem_of, filter_elem_of, key_keep_spec.
    + intros Hlow Hs k Hk.
      rewrite key_pipeline, sort_elem_of, filter_elem_of, key_keep_spec.
      by rewrite key_search_ci_spec.
Qed.

(** On ASCII text the search ignores the case of the letters: the
    certificate of the API gateway is found by "API", and the key of bob
    by the fingerprint fragment "efgh". *)
Lemma query_pipeline_exact_witness :
  (let c := Demo.cert "c02" "API gateway" "api.example.com" "DigiCert"
              "2025-01-15" in
   c ∈ @Certificates.filteredData Demo.engine Demo.certs12 "API" "all" asc
   ↔ c ∈ Demo.certs12 ∧ cert_search_ci "API" c ∧ cert_filter_ok "all" c)
  ∧ (let k := SSHKey.mk "k2" "bob" "SHA256:EfGh" "2025-01-02" high "rsa"
                ["db-1"] in
     k ∈ @SSHKeys.filteredData Demo.engine Demo.keys3 "efgh" "all" desc
     ↔ k ∈ Demo.keys3 ∧ key_search_ci "efgh" k ∧ key_filter_ok "all" k).
Proof.
  split; cbv zeta.
  - apply (proj2 (proj2 (proj2
             (proj1 (@query_pipeline_exact Demo.engine)
                Demo.certs12 "API" "all" asc))));
      [apply Demo_lowers_ascii | reflexivity | reflexivity].
  - apply (proj2 (proj2 (proj2
             (proj2 (@query_pipeline_exact Demo.engine)
                Demo.keys3 "efgh" "all" desc))));
      [apply Demo_lowers_ascii | reflexivity | reflexivity].
Defined.

(** C1, as the specification words it, fails outside ASCII.  The name
    ΟΣΑ contains the search text ΟΣ as it stands, yet the certificate is
    not in the result: the sigma of the search text is final and becomes
    ς, the one of the name is not and becomes σ. *)
Lemma query_pipeline_counterexample :
  let c := Demo.cert "g1" "ΟΣΑ" "example.gr" "CA" "2025-01-01" in
  Certificate.name c = "" +:+ "ΟΣ" +:+ "Α"
  ∧ cert_search_ci "ΟΣ" c ∧ cert_filter_ok "all" c
  ∧ @String_toLowerCase Demo.engine "ΟΣΑ" = "οσα"
  ∧ @String_toLowerCase Demo.engine "ΟΣ" = "ος"
  ∧ @Certificates.filteredData Demo.engine [c] "ΟΣ" "all" asc = []
  ∧ ¬ (c ∈ @Certificates.filteredData Demo.engine [c] "ΟΣ" "all" asc
       ↔ c ∈ [c] ∧ cert_search_ci "ΟΣ" c ∧ cert_filter_ok "all" c).
Proof.
  assert (cert_search_ci "ΟΣ"
            (Demo.cert "g1" "ΟΣΑ" "example.gr" "CA" "2025-01-01")) as Hci.
  { right; left. exists "", "ΟΣ", "Α". split; [reflexivity |].
    simpl. repeat split; by left. }
  cbv zeta. split_and!; try (vm_compute; reflexivity); try done.
  - by left.
  - intros [_ Hin]. 
    assert (@Certificates.filteredData Demo.engine
              [Demo.cert "g1" "ΟΣΑ" "example.gr" "CA" "2025-01-01"]
              "ΟΣ" "all" asc = []) as Hnil by (vm_compute; reflexivity).
    rewrite Hnil in Hin. eapply not_elem_of_nil, Hin.
    split_and!; [apply list_elem_of_here | done | by left].
Qed.

(** The search scenario of the specification: one certificate has the
    searched domain, whatever the case of the letters typed. *)
Example search_scenario :
  map Certificate.id
    (@Certificates.filteredData Demo.engine Demo.certs12 "API.Example.COM"
       "all" asc)
  = ["c02"].
Proof. vm_compute. reflexivity. Qed.

(** The audit-log scenario: one action type, no date range, newest first. *)
Example audit_scenario :
  map AuditLog.id
    (@AuditLogs.filteredData Demo.engine Demo.logs3 "certificate.renew"
       (AuditLogs.mkRange None None))
  = ["l1"; "l3"].
Proof. vm_compute. reflexivity. Qed.

(** ** The comparators and their keys *)

Lemma compareExpiry_consistent `{Engine} d (l : list Certificate.t) :
  Forall (λ c, is_Some (expiry_key c)) l →
  consistent (Certificates.compareExpiry d) expiry_key d l.
Proof.
  rewrite Forall_forall. intros Hl x y Hx Hy.
  destruct (Hl x Hx) as [kx Hkx], (Hl y Hy) as [ky Hky].
  exists kx, ky. split_and!; [done | done |].
  unfold JsArray.SortCompare, Certificates.compareExpiry, expiry_key in *.
  rewrite Hkx, Hky. destruct d; simpl; lia.
Qed.

Lemma compareTrust_consistent d (l : list SSHKey.t) :
  consistent (SSHKeys.compareTrust d) trust_key d l.
Proof.
  intros x y _ _. eexists _, _. split_and!; [done | done |].
  unfold JsArray.SortCompare, SSHKeys.compareTrust. destruct d; simpl; lia.
Qed.

Lemma compareRecency_consistent `{Engine} (l : list AuditLog.t) :
  Forall (λ r, is_Some (recency_key r)) l →
  consistent AuditLogs.compareRecency recency_key desc l.
Proof.
  rewrite Forall_forall. intros Hl x y Hx Hy.
  destruct (Hl x Hx) as [kx Hkx], (Hl y Hy) as [ky Hky].
  exists kx, ky. split_and!; [done | done |].
  unfold JsArray.SortCompare, AuditLogs.compareRecency, recency_key in *.
  rewrite Hkx, Hky. simpl. lia.
Qed.

(** C5, as the code has it.  Whenever the dates of the records that pass
    the filters are valid, each page's result is in the order of its key
    and direction (certificates by expiry time, ascending or descending;
    SSH keys by trust rank high 3, medium 2, low 1; audit logs by timestamp,
    newest first): every adjacent pair is weakly increasing when ascending
    and weakly decreasing when descending, and the records of one key stand
    in the order they have in the collection.  The SSH-key order needs no
    assumption. *)
Theorem sort_order_stable `{Engine} :
  (∀ certs search filter d,
     let kept := List.filter (cert_keep search filter) certs in
     let result := Certificates.filteredData certs search filter d in
     Forall (λ c, is_Some (expiry_key c)) kept →
     ordered expiry_key d result ∧ stable expiry_key kept result)
  ∧ (∀ keys search filter d,
     let kept := List.filter (key_keep search filter) keys in
     let result := SSHKeys.filteredData keys search filter d in
     ordered trust_key d result ∧ stable trust_key kept result)
  ∧ (∀ logs filter range,
     let kept := List.filter (log_keep filter range) logs in
     let result := AuditLogs.filteredData logs filter range in
     Forall (λ r, is_Some (recency_key r)) kept →
     ordered recency_key desc result ∧ stable recency_key kept result).
Proof.
  split_and!.
  - intros certs search filter d kept result Hvalid. subst kept result.
    rewrite cert_pipeline.
    pose proof (compareExpiry_consistent d _ Hvalid) as Hc.
    split; [by apply sort_ordered | by eapply sort_stable].
  - intros keys search filter d kept result. subst kept result.
    rewrite key_pipeline.
    pose proof (compareTrust_consistent d
                  (List.filter (key_keep search filter) keys)) as Hc.
    split; [by apply sort_ordered | by eapply sort_stable].
  - intros logs filter range kept result Hvalid. subst kept result.
    rewrite log_pipeline.
    pose proof (compareRecency_consistent _ Hvalid) as Hc.
    split; [by apply sort_ordered | by eapply sort_stable].
Qed.

Lemma sort_order_stable_witness :
  ordered (@expiry_key Demo.engine) asc
    (@Certificates.filteredData Demo.engine Demo.certs12 "" "all" asc)
  ∧ ordered (@recency_key Demo.engine) desc
      (@AuditLogs.filteredData Demo.engine Demo.logs3 "certificate.renew"
         (AuditLogs.mkRange None None)).
Proof.
  destruct (@sort_order_stable Demo.engine) as (Hcerts & _ & Hlogs). split.
  - apply (Hcerts Demo.certs12 "" "all" asc).
    change (List.filter (cert_keep "" "all") Demo.certs12) with Demo.certs12.
    repeat constructor; eexists; vm_compute; reflexivity.
  - apply (Hlogs Demo.logs3 "certificate.renew" (AuditLogs.mkRange None None)).
    change (List.filter _ Demo.logs3)
      with [Demo.log "l1" "2025-01-03" "certificate.renew";
            Demo.log "l3" "2025-01-02" "certificate.renew"].
    repeat constructor; eexists; vm_compute; reflexivity.
Defined.

(** With a date that is not valid among them, the ascending result keeps a
    later expiry before an earlier one; the record without a date has no
    order with its neighbours, in this result or in any other arrangement
    of the same three records. *)
Lemma sort_order_counterexample :
  let result :=
    @Certificates.filteredData Demo.engine Demo.certs3 "" "all" asc in
  map Certificate.id result = ["a"; "b"; "c"]
  ∧ map (@expiry_key Demo.engine) result
    = [Some 1736035200000; None; Some 1735689600000]
  ∧ ¬ ordered (@expiry_key Demo.engine) asc result
  ∧ ∀ l, l ≡ₚ Demo.certs3 → ¬ ordered (@expiry_key Demo.engine) asc l.
Proof.
  assert (∀ l, l ≡ₚ Demo.certs3 → ¬ ordered (@expiry_key Demo.engine) asc l)
    as Hany.
  { intros l Hperm Hord.
    set (undated := Demo.cert "b" "Undated" "undated.test" "CA" "unknown").
    assert (@expiry_key Demo.engine undated = None) as Hnan
      by (vm_compute; reflexivity).
    assert (length l = 3%nat) as Hlen by (by rewrite Hperm).
    assert (undated ∈ l) as Hin.
    { rewrite Hperm. unfold Demo.certs3. subst undated.
      rewrite !elem_of_cons. auto. }
    apply list_elem_of_lookup in Hin as [i Hi].
    destruct i as [|i].
    - destruct (lookup_lt_is_Some_2 l 1) as [next Hnext]; [lia |].
      destruct (Hord 0%nat undated next Hi Hnext) as (ka & _ & Hka & _).
      congruence.
    - destruct (lookup_lt_is_Some_2 l i) as [prev Hprev].
      { apply lookup_lt_Some in Hi. lia. }
      destruct (Hord i prev undated Hprev Hi) as (_ & kb & _ & Hkb & _).
      congruence. }
  split_and!; [by vm_compute | by vm_compute | | exact Hany].
  apply Hany. rewrite cert_pipeline.
  change (List.filter (cert_keep "" "all") Demo.certs3) with Demo.certs3.
  apply sort_perm.
Qed.

(** ** Page slices *)

Lemma take_min_length {A : Type} (n : nat) (l : list A) :
  take (n `min` length l) l = take n l.
Proof.
  destruct (Nat.le_gt_cases n (length l)) as [Hle | Hgt].
  - by rewrite Nat.min_l.
  - rewrite Nat.min_r by lia. rewrite !take_ge; [done | lia | lia].
Qed.

(** A slice between two non-negative bounds takes [stop - start] elements
    from position [start]. *)
Lemma slice_nonneg {A : Type} (l : list A) (start stop : Z) :
  0 <= start <= stop →
  JsArray.slice l start stop
  = take (Z.to_nat (stop - start)) (drop (Z.to_nat start) l).
Proof.
  intros Hb. unfold JsArray.slice.
  destruct (Z.ltb_spec start 0) as [? | _]; [lia |].
  destruct (Z.ltb_spec stop 0) as [? | _]; [lia |].
  destruct (Z_le_gt_dec start (Z.of_nat (length l))) as [Hin | Hout].
  - rewrite (Z.min_l start) by lia.
    rewrite <- (take_min_length (Z.to_nat (stop - start))).
    rewrite length_drop. f_equal. lia.
  - rewrite !(drop_ge l) by lia. by rewrite !take_nil.
Qed.

Lemma page_slice {A : Type} (l : list A) (P k : Z) :
  0 < P → 1 <= k →
  JsArray.slice l ((k - 1) * P) (k * P)
  = take (Z.to_nat P) (drop (Z.to_nat ((k - 1) * P)) l).
Proof.
  intros HP Hk. rewrite slice_nonneg by nia. do 2 f_equal. lia.
Qed.

Lemma page_length {A : Type} (l : list A) (P k : Z) :
  0 < P → 1 <= k →
  Z.of_nat (length (JsArray.slice l ((k - 1) * P) (k * P)))
  = Z.max 0 (Z.min P (Z.of_nat (length l) - (k - 1) * P)).
Proof.
  intros HP Hk. rewrite page_slice by done.
  rewrite length_take, length_drop. nia.
Qed.

(** [Math.ceil(n / p)] is the least [t] with [n <= t * p]. *)
Lemma Math_ceil_div_spec (n p : Z) :
  0 < p → ∃ t, Math_ceil_div n p = Some t ∧ (t - 1) * p < n <= t * p.
Proof.
  intros Hp. unfold Math_ceil_div.
  destruct (Z.eqb_spec p 0) as [? | _]; [lia |].
  eexists. split; [done |].
  pose proof (Z.div_mod (- n) p) as Hdm.
  pose proof (Z.mod_pos_bound (- n) p Hp). nia.
Qed.

(** C4.  With page size [P > 0] over a filtered collection of [N] records:
    the page count is [ceil (N / P)]; page [k >= 1] is the contiguous run
    of the collection from index [(k-1)P] up to [kP]; every page before
    the last holds [P] records and the last holds [N mod P], or [P] when
    that is zero; for 12 records and page size 5 there are 3 pages, page 1
    is the first five records and page 3 the last two. *)
Theorem pagination_slices `{Engine} (s : Certificates.State) :
  let N := Z.of_nat (length (Certificates.filtered s)) in
  let P := Certificates.pageSize s in
  let k := Certificates.currentPage s in
  let page := Certificates.paginatedData s in
  0 < P →
  ∃ t, Certificates.totalPages s = Some t
    ∧ (t - 1) * P < N <= t * P
    ∧ (1 <= k →
       page = take (Z.to_nat P)
                (drop (Z.to_nat ((k - 1) * P)) (Certificates.filtered s))
       ∧ ∀ i : nat, (i < Z.to_nat P)%nat →
           page !! i
           = Certificates.filtered s !! (Z.to_nat ((k - 1) * P) + i)%nat)
    ∧ (1 <= k < t → Z.of_nat (length page) = P)
    ∧ (k = t → 0 < N →
       Z.of_nat (length page) = if N mod P =? 0 then P else N mod P)
    ∧ (N = 12 → P = 5 →
       t = 3
       ∧ (k = 1 → page = take 5 (Certificates.filtered s))
       ∧ (k = 3 → page = drop 10 (Certificates.filtered s)
                  ∧ length page = 2%nat)).
Proof.
  intros N P k page HP.
  destruct (Math_ceil_div_spec N P HP) as (t & Ht & Hlo & Hhi).
  exists t. unfold Certificates.totalPages. fold N P.
  split_and!; [done | done | done | | | |].
  - intros Hk. subst page. unfold Certificates.paginatedData. fold P k.
    rewrite page_slice by done. split; [done |].
    intros i Hi. by rewrite lookup_take_lt, lookup_drop.
  - intros Hk. subst page. unfold Certificates.paginatedData. fold P k.
    rewrite page_length by lia. fold N. nia.
  - intros Hkt HN. subst page. unfold Certificates.paginatedData.
    fold P k. rewrite Hkt. rewrite page_length by nia. fold N.
    pose proof (Z.div_mod N P) as Hdm.
    pose proof (Z.mod_pos_bound N P HP) as Hr.
    generalize dependent (N mod P). generalize dependent (N / P).
    intros q r Hdm Hr. specialize (Hdm ltac:(lia)).
    destruct (Z.eqb_spec r 0) as [Hz | Hnz].
    + assert (q = t) by nia. subst q. nia.
    + assert (q = t - 1) by nia. subst q. nia.
  - intros HN12 HP5. assert (t = 3) as -> by nia.
    subst page. unfold Certificates.paginatedData. fold P k.
    split_and!; [done | |].
    + intros Hk1. rewrite Hk1, page_slice by lia. rewrite HP5. done.
    + intros Hk3. rewrite Hk3, page_slice by lia. rewrite HP5.
      change (Z.to_nat ((3 - 1) * 5)) with 10%nat.
      assert (length (drop 10 (Certificates.filtered s)) = 2%nat) as Hlen.
      { rewrite length_drop. lia. }
      rewrite take_ge by (change (Z.to_nat 5) with 5%nat; lia). done.
Qed.

Lemma pagination_slices_witness :
  @Certificates.totalPages Demo.engine Demo.certs_page3 = Some 3
  ∧ @Certificates.paginatedData Demo.engine Demo.certs_page3
    = drop 10 (@Certificates.filtered Demo.engine Demo.certs_page3)
  ∧ map Certificate.id (@Certificates.paginatedData Demo.engine Demo.certs_page3)
    = ["c12"; "c05"].
Proof.
  destruct (@pagination_slices Demo.engine Demo.certs_page3)
    as (t & Ht & _ & _ & _ & _ & Hscenario).
  - vm_compute. reflexivity.
  - destruct Hscenario as (-> & _ & Hp3);
      [vm_compute; reflexivity | vm_compute; reflexivity |].
    destruct Hp3 as [Hp3 _]; [vm_compute; reflexivity |].
    split_and!; [exact Ht | exact Hp3 | vm_compute; reflexivity].
Defined.

(** ** Row expansion *)

(** C9.  Toggling an identifier twice gives back the expansion set; one
    toggle flips the membership of that identifier and of no other. *)
Theorem toggleRow_twice (expanded : gset string) (id : string) :
  toggleRow id (toggleRow id expanded) = expanded
  ∧ (id ∈ toggleRow id expanded ↔ id ∉ expanded)
  ∧ ∀ other, other ≠ id →
      (other ∈ toggleRow id expanded ↔ other ∈ expanded).
Proof.
  unfold toggleRow. split_and!.
  - destruct (decide (id ∈ expanded)) as [Hin | Hout].
    + rewrite decide_False by (rewrite elem_of_difference, elem_of_singleton; tauto).
      apply set_eq. intros x.
      rewrite elem_of_union, elem_of_difference, elem_of_singleton.
      destruct (decide (x = id)) as [-> | Hne]; tauto.
    + rewrite decide_True by (rewrite elem_of_union, elem_of_singleton; tauto).
      apply set_eq. intros x.
      rewrite elem_of_difference, elem_of_union, elem_of_singleton.
      destruct (decide (x = id)) as [-> | Hne]; tauto.
  - destruct (decide (id ∈ expanded)) as [Hin | Hout].
    + rewrite elem_of_difference, elem_of_singleton. tauto.
    + rewrite elem_of_union, elem_of_singleton. tauto.
  - intros other Hne. destruct (decide (id ∈ expanded)) as [Hin | Hout].
    + rewrite elem_of_difference, elem_of_singleton. tauto.
    + rewrite elem_of_union, elem_of_singleton. tauto.
Qed.

Lemma toggleRow_twice_witness :
  ("l1" ∈ toggleRow "l2" ({[ "l1" ]} : gset string)
   ↔ "l1" ∈ ({[ "l1" ]} : gset string))
  ∧ toggleRow "l2" (toggleRow "l2" {[ "l1" ]}) = {[ "l1" ]}.
Proof.
  destruct (toggleRow_twice {[ "l1" ]} "l2") as (Htwice & _ & Hother).
  split; [apply Hother; discriminate | exact Htwice].
Defined.

(** ** The Certificates page as a transition system *)

Section CertificatesFacts.
Context `{Engine} `{JSON (list Certificate.t)} `{Assets}.
Import Certificates.


Lemma pageDepsChanged_same s : pageDepsChanged s s = false.
Proof.
  unfold pageDepsChanged. by rewrite !String.eqb_refl, Z.eqb_refl.
Qed.

(** No state change, no effect. *)
Lemma runEffects_same s : runEffects s s = s.
Proof.
  unfold runEffects. by rewrite Nat.eqb_refl, pageDepsChanged_same.
Qed.

Lemma pageDepsChanged_persist prev next :
  pageDepsChanged prev (persistEffect next) = pageDepsChanged prev next.
Proof.
  unfold persistEffect.
  destruct (0 <? Z.of_nat (length (certificates next))); reflexivity.
Qed.

(** What the effects leave alone and what they set. *)
Lemma runEffects_currentPage prev next :
  currentPage (runEffects prev next)
  = if pageDepsChanged prev next then 1 else currentPage next.
Proof.
  unfold runEffects.
  destruct (negb _); rewrite ?pageDepsChanged_persist;
    destruct (pageDepsChanged prev next); unfold persistEffect;
    try destruct (0 <? Z.of_nat (length (certificates next)));
    repeat split; reflexivity.
Qed.

Lemma runEffects_view prev next :
  certificates (runEffects prev next) = certificates next
  ∧ debouncedSearch (runEffects prev next) = debouncedSearch next
  ∧ domainFilter (runEffects prev next) = domainFilter next
  ∧ sortDirection (runEffects prev next) = sortDirection next
  ∧ pageSize (runEffects prev next) = pageSize next
  ∧ loading (runEffects prev next) = loading next
  ∧ error (runEffects prev next) = error next
  ∧ pending (runEffects prev next) = pending next
  ∧ editingCert (runEffects prev next) = editingCert next
  ∧ editName (runEffects prev next) = editName next
  ∧ toasts (runEffects prev next) = toasts next
  ∧ crashed (runEffects prev next) = crashed next
  ∧ True.
Proof.
  unfold runEffects.
  destruct (negb _); rewrite ?pageDepsChanged_persist;
    destruct (pageDepsChanged prev next); unfold persistEffect;
    try destruct (0 <? Z.of_nat (length (certificates next)));
    repeat split; reflexivity.
Qed.

(** A reload leaves no effect to run. *)
Lemma runEffects_mount s ls : runEffects s (mount ls) = mount ls.
Proof.
  unfold runEffects.
  destruct (negb _); destruct (pageDepsChanged _ _); reflexivity.
Qed.

Lemma filtered_runEffects prev next :
  filtered (runEffects prev next) = filtered next.
Proof.
  unfold filtered.
  destruct (runEffects_view prev next) as (-> & -> & -> & -> & _). done.
Qed.

End CertificatesFacts.

(** C7.  Saving while the edited name is empty after trimming changes
    nothing: the state after the click is the state before it, so the
    collection, the snapshot in the cache, the error cell and the toasts
    are the same, and the drawer stays open on the same certificate. *)
Theorem save_blank_name_noop `{Engine} `{JSON (list Certificate.t)} `{Assets}
    (s : Certificates.State) (editing : Certificate.t) :
  Certificates.editingCert s = Some editing →
  String_trim (Certificates.editName s) = "" →
  Certificates.handleSaveEdit s = s
  ∧ Certificates.step Certificates.SaveClicked s = s.
Proof.
  intros Hediting Hblank.
  assert (Certificates.handleSaveEdit s = s) as Hsame.
  { unfold Certificates.handleSaveEdit. by rewrite Hediting, Hblank. }
  split; [done |]. unfold Certificates.step.
  destruct (Certificates.enabled _ s); [| done]. simpl.
  rewrite Hsame. apply runEffects_same.
Qed.


Lemma save_blank_name_noop_witness :
  @Certificates.step Demo.engine Demo.json_certs Demo.assets
    Certificates.SaveClicked Demo.certs_blank_edit
  = Demo.certs_blank_edit.
Proof.
  refine (proj2 (@save_blank_name_noop Demo.engine Demo.json_certs Demo.assets
                   Demo.certs_blank_edit
                   (Demo.cert "c08" "VPN" "vpn.local" "Internal CA" "2025-01-02")
                   _ _)).
  - vm_compute. reflexivity.
  - vm_compute. reflexivity.
Defined.


(** ** Invariants of the Certificates page *)

Lemma slice_subseteq {A : Type} (l : list A) (start stop : Z) :
  JsArray.slice l start stop ⊆ l.
Proof.
  unfold JsArray.slice. etrans; [apply subseteq_take | apply subseteq_drop].
Qed.

Section CertificatesInvariant.
Context `{Engine} `{JSON (list Certificate.t)} `{Assets}.
Import Certificates.

Lemma paginatedData_subseteq s : paginatedData s ⊆ certificates s.
Proof.
  intros c Hc. apply slice_subseteq in Hc. unfold filtered in Hc.
  rewrite cert_pipeline, sort_elem_of, filter_elem_of in Hc. tauto.
Qed.

Lemma runEffects_storage_same prev next :
  certificatesRef next = certificatesRef prev →
  localStorage (runEffects prev next) = localStorage next.
Proof.
  intros Href. unfold runEffects. rewrite Href, Nat.eqb_refl. simpl.
  destruct (pageDepsChanged prev next); reflexivity.
Qed.

Lemma runEffects_storage_new prev next :
  certificatesRef next = S (certificatesRef prev) →
  localStorage (runEffects prev next)
  = if 0 <? Z.of_nat (length (certificates next))
    then setItem (localStorage next) CACHE_KEY
           (JSON_stringify (certificates next))
    else localStorage next.
Proof.
  intros Href. unfold runEffects. rewrite Href.
  assert ((certificatesRef prev =? S (certificatesRef prev))%nat = false)
    as -> by (apply Nat.eqb_neq; lia).
  simpl. rewrite pageDepsChanged_persist.
  destruct (pageDepsChanged prev next); unfold persistEffect;
    destruct (0 <? Z.of_nat (length (certificates next))); reflexivity.
Qed.

(** The invariant looks at seven cells only. *)
Lemma cert_inv_ext s s' :
  pending s' = pending s → certificates s' = certificates s →
  loading s' = loading s → error s' = error s →
  editingCert s' = editingCert s → localStorage s' = localStorage s →
  crashed s' = crashed s →
  cert_inv s → cert_inv s'.
Proof. unfold cert_inv. by intros -> -> -> -> -> -> ->. Qed.

Lemma rowsShown_error s :
  cert_inv s → rowsShown s = true → error s = None.
Proof.
  intros (_ & [Herr | [Herr _]] & _) Hshown; [done |].
  unfold rowsShown, shown, surface in Hshown.
  destruct (crashed s); [done |]. by rewrite Herr in Hshown.
Qed.

Lemma pageShown_crashed s : pageShown s = true → crashed s = false.
Proof. unfold pageShown, shown. by destruct (crashed s). Qed.

Lemma rowsShown_crashed s : rowsShown s = true → crashed s = false.
Proof. unfold rowsShown, shown. by destruct (crashed s). Qed.

Lemma cert_inv_mount ls : cert_inv (mount ls).
Proof.
  unfold cert_inv. simpl.
  split_and!; [done | by left | by intros [? ?] | done | done | | done].
  intros cached Hc. by injection Hc as <-.
Qed.

Lemma nonempty_length (l : list Certificate.t) :
  l ≠ [] → (0 <? Z.of_nat (length l)) = true.
Proof. destruct l; [done | intros _; apply Z.ltb_lt; simpl; lia]. Qed.

(** The three ways [loadData] ends with a collection or an error. *)
Lemma cert_inv_adopt s data ls :
  pending s = None → editingCert s = None → error s = None →
  crashed s = false → certificates s = data →
  (data ≠ [] → ls !! CACHE_KEY = Some (JSON_stringify data)) →
  localStorage s = ls →
  cert_inv s.
Proof.
  intros Hp Hd He Hc Hdata Hls Hstore. unfold cert_inv.
  rewrite Hp, Hd, He, Hc, Hdata, Hstore.
  split_and!;
    [by intros [] | by left | by intros [] | by intros _ | done | done | done].
Qed.

Lemma cert_inv_load s cached :
  cert_inv s → pending s = Some cached →
  cert_inv (runEffects s (loadData_resume cached (set_pending None s))).
Proof.
  intros (Hpend & _ & Hedit & _ & _ & Hcached & _) Hp.
  destruct Hpend as (Hempty & _ & Herr); [by rewrite Hp |].
  destruct (Hcached _ Hp) as [Hslot Hcr].
  assert (editingCert s = None) as Hclosed.
  { destruct (editingCert s); [| done].
    destruct Hedit as [Hne _]; [by eexists | done]. }
  set (loaded := loadData_resume cached (set_pending None s)).
  pose proof (runEffects_view s loaded)
    as (Vc & _ & _ & _ & _ & _ & Ve & Vp & Vd & _ & _ & Vcr & _).
  assert (∀ data,
    loaded = set_loading false (set_error None
               (set_localStorage
                  (setItem (localStorage s) CACHE_KEY (JSON_stringify data))
                  (set_certificates data (set_pending None s)))) →
    cert_inv (runEffects s loaded)) as Hdefault.
  { intros data Hl. apply (cert_inv_adopt _ data
      (setItem (localStorage s) CACHE_KEY (JSON_stringify data)));
      rewrite ?Vc, ?Ve, ?Vp, ?Vd, ?Vcr, ?Hl; try done.
    - intros _. apply lookup_insert_eq.
    - rewrite runEffects_storage_new by done. simpl.
      destruct (0 <? _); [| done]. unfold setItem. by rewrite insert_insert_eq. }
  subst loaded. unfold loadData_resume in *.
  destruct cached as [text|]; [| by apply (Hdefault certificatesData)].
  destruct (JsString.truthy text) eqn:Htext;
    [| by apply (Hdefault certificatesData)].
  destruct (JSON_parse text) as [| z | parsed] eqn:Hparse.
  - unfold cert_inv.
    rewrite Vc, Ve, Vp, Vd, Vcr, runEffects_storage_same by done. simpl.
    rewrite Hempty, Hclosed, Hcr.
    split_and!;
      [by intros [] | by right | by intros [] | by intros _ ? | done | done |].
    intros _. split_and!; [done | done |]. exists text.
    unfold getItem in Hslot. by rewrite <- Hslot.
  - unfold cert_inv.
    rewrite Vc, Ve, Vp, Vd, Vcr, runEffects_storage_same by done. simpl.
    rewrite Hempty, Hclosed.
    split_and!;
      [by intros [] | by left | by intros [] | by intros _ ? | done | done
      | done].
  - apply (cert_inv_adopt _ parsed
      (if 0 <? Z.of_nat (length parsed)
       then setItem (localStorage s) CACHE_KEY (JSON_stringify parsed)
       else localStorage s));
      rewrite ?Vc, ?Ve, ?Vp, ?Vd, ?Vcr; try done.
    + intros Hne. rewrite (nonempty_length _ Hne). apply lookup_insert_eq.
    + by rewrite runEffects_storage_new by done.
Qed.

Lemma cert_inv_save s :
  cert_inv s → is_Some (editingCert s) →
  cert_inv (runEffects s (handleSaveEdit s)).
Proof.
  intros Hinv Hopen. unfold handleSaveEdit.
  destruct (editingCert s) as [editing|] eqn:Hediting; [| by destruct Hopen].
  destruct (JsString.truthy _); [| by rewrite runEffects_same].
  set (saved := toast _ _ _).
  destruct Hinv as (Hpend & _ & Hedit & _ & Hcrash & Hcached & _).
  destruct Hedit as [Hne Herr]; [by rewrite Hediting |].
  assert (pending s = None) as Hp.
  { destruct (pending s); [| done].
    destruct Hpend as [Hnil _]; [by eexists | done]. }
  assert (crashed s = false) as Hcr.
  { destruct (crashed s); [| done]. by destruct Hcrash as [Hnil _]. }
  apply (cert_inv_adopt _ (certificates saved)
           (setItem (localStorage s) CACHE_KEY
              (JSON_stringify (certificates saved))));
    pose proof (runEffects_view s saved)
      as (Vc & _ & _ & _ & _ & _ & Ve & Vp & Vd & _ & _ & Vcr & _);
    rewrite ?Vc, ?Ve, ?Vp, ?Vd, ?Vcr; try done.
  - intros _. apply lookup_insert_eq.
  - rewrite runEffects_storage_new by done. subst saved. simpl.
    rewrite nonempty_length; [done |]. by destruct (certificates s).
Qed.

Lemma cert_inv_step e s : cert_inv s → cert_inv (step e s).
Proof.
  intros Hinv. unfold step. destruct (enabled e s) eqn:Hen; [| done].
  pose proof (runEffects_view s (handler e s))
    as (Vc & _ & _ & _ & _ & Vl & Ve & Vp & Vd & _ & _ & Vcr & _).
  destruct e; simpl in Hen, Vc, Vl, Ve, Vp, Vd, Vcr |- *;
    try (apply (cert_inv_ext s);
         [exact Vp | exact Vc | exact Vl | exact Ve | exact Vd
         | by rewrite runEffects_storage_same | exact Vcr | exact Hinv]).
  - destruct (pending s) as [cached|] eqn:Hcached; [| done].
    by apply cert_inv_load.
  - apply andb_true_iff in Hen as [Hshown Hrow].
    apply bool_decide_eq_true in Hrow. apply paginatedData_subseteq in Hrow.
    pose proof (rowsShown_error s Hinv Hshown) as Herr.
    destruct Hinv as (Hpend & Herror & _ & Hstore & Hcrash & Hcached & Hfail).
    unfold cert_inv.
    rewrite Vc, Vl, Ve, Vp, Vd, Vcr, runEffects_storage_same by done. simpl.
    split_and!; [done | done | | done | done | done | done].
    intros _. split; [| done]. intros Hnil. rewrite Hnil in Hrow.
    by apply not_elem_of_nil in Hrow.
  - destruct Hinv as (Hpend & Herror & _ & Hstore & Hcrash & Hcached & Hfail).
    unfold cert_inv.
    rewrite Vc, Vl, Ve, Vp, Vd, Vcr, runEffects_storage_same by done. simpl.
    split_and!; [done | done | by intros [? ?] | done | done | done | done].
  - apply andb_true_iff in Hen as [_ Hopen].
    apply cert_inv_save; [done |]. by destruct (editingCert s).
  - rewrite runEffects_mount. apply cert_inv_mount.
Qed.

Lemma reachable_inv s : reachable s → cert_inv s.
Proof.
  induction 1 as [ls | e s _ IH]; [apply cert_inv_mount |].
  by apply cert_inv_step.
Qed.

End CertificatesInvariant.

Section CertificatesRuns.
Context `{Engine} `{JSON (list Certificate.t)} `{Assets}.
Import Certificates.

Lemma reachable_run es s : reachable s → reachable (run es s).
Proof.
  revert s. induction es as [|e es IH]; intros s Hs; [done |].
  apply IH. by constructor.
Qed.

Lemma map_nonempty {A B : Type} (f : A → B) (l : list A) :
  l ≠ [] → map f l ≠ [].
Proof. by destruct l. Qed.

(** After a load that brought records, every step keeps the page loaded,
    without error, and with as many records. *)
Lemma loaded_step e s :
  pending s = None → error s = None →
  pending (step e s) = None ∧ error (step e s) = None
  ∧ length (certificates (step e s)) = length (certificates s).
Proof.
  intros Hp He. unfold step. destruct (enabled e s) eqn:Hen; [| done].
  destruct (runEffects_view s (handler e s))
    as (-> & _ & _ & _ & _ & _ & -> & -> & _).
  destruct e; simpl in *; try done.
  - by rewrite Hp in Hen.
  - unfold handleSaveEdit. destruct (editingCert s); [| done].
    destruct (JsString.truthy _); [| done]. simpl.
    by rewrite length_map.
  - unfold shown, surface in Hen. rewrite He in Hen.
    by destruct (crashed s), (loading s).
Qed.

End CertificatesRuns.

(** C6.  Saving a name that is not empty after trimming: the collection
    becomes the same list with the trimmed name written into every record
    whose identifier is that of the certificate being edited; at each
    position the record either has that identifier, and then only its name
    differs, or is the record that was there; and the cache slot then
    holds the serialisation of the whole new collection, the other slots
    being as before. *)
Theorem save_edit_renames `{Engine} `{JSON (list Certificate.t)} `{Assets}
    (s : Certificates.State) (editing : Certificate.t) :
  Certificates.reachable s →
  Certificates.editingCert s = Some editing →
  String_trim (Certificates.editName s) ≠ "" →
  let name := String_trim (Certificates.editName s) in
  let s' := Certificates.step Certificates.SaveClicked s in
  Certificates.certificates s'
    = map (rename editing name) (Certificates.certificates s)
  ∧ (∀ (i : nat) c, Certificates.certificates s !! i = Some c →
       ∃ c', Certificates.certificates s' !! i = Some c'
         ∧ if decide (Certificate.id c = Certificate.id editing)
           then Certificate.name c' = name
                ∧ Certificate.id c' = Certificate.id c
                ∧ Certificate.domain c' = Certificate.domain c
                ∧ Certificate.issuer c' = Certificate.issuer c
                ∧ Certificate.status c' = Certificate.status c
                ∧ Certificate.expiryDate c' = Certificate.expiryDate c
                ∧ Certificate.createdAt c' = Certificate.createdAt c
                ∧ Certificate.algorithm c' = Certificate.algorithm c
                ∧ Certificate.serialNumber c' = Certificate.serialNumber c
           else c' = c)
  ∧ length (Certificates.certificates s')
    = length (Certificates.certificates s)
  ∧ Certificates.localStorage s' !! Certificates.CACHE_KEY
    = Some (JSON_stringify (Certificates.certificates s'))
  ∧ (∀ key, key ≠ Certificates.CACHE_KEY →
       Certificates.localStorage s' !! key
       = Certificates.localStorage s !! key)
  ∧ Certificates.editingCert s' = None.
Proof.
  intros Hreach Hediting Hname name s'.
  destruct (reachable_inv s Hreach) as (_ & _ & Hedit & _ & Hcrash & _).
  destruct Hedit as [Hne Herr]; [by rewrite Hediting |].
  assert (Certificates.crashed s = false) as Hcr.
  { destruct (Certificates.crashed s); [| done]. by destruct Hcrash. }
  assert (s' = Certificates.runEffects s (Certificates.handleSaveEdit s))
    as Hs'.
  { subst s'. unfold Certificates.step. simpl.
    unfold Certificates.pageShown, Certificates.shown, surface.
    rewrite Herr, Hediting, Hcr. simpl.
    destruct (Certificates.loading s); reflexivity. }
  assert (Certificates.handleSaveEdit s
          = Certificates.toast "Certificate Updated"
              (Certificates.dquote +:+ name +:+ Certificates.dquote
                 +:+ " has been updated successfully.")
              (Certificates.set_editingCert None
                 (Certificates.set_certificates
                    (map (rename editing name) (Certificates.certificates s))
                    s))) as Hsave.
  { unfold Certificates.handleSaveEdit. rewrite Hediting.
    apply truthy_true in Hname. by rewrite Hname. }
  rewrite Hsave in Hs'. clearbody s'. subst s'.
  set (saved := Certificates.toast _ _ _).
  destruct (runEffects_view s saved)
    as (Hc & _ & _ & _ & _ & _ & _ & _ & Hd & _).
  rewrite Hc, Hd, (runEffects_storage_new s saved) by done.
  subst saved. simpl.
  rewrite (nonempty_length _ (map_nonempty _ _ Hne)).
  split_and!.
  - done.
  - intros i c Hi. exists (rename editing name c). split.
    + by rewrite list_lookup_fmap, Hi.
    + unfold rename. destruct (String.eqb_spec (Certificate.id c)
                                 (Certificate.id editing)) as [Heq | Hneq].
      * by rewrite decide_True.
      * by rewrite decide_False.
  - by rewrite length_map.
  - apply lookup_insert_eq.
  - intros key Hkey. by apply lookup_insert_ne.
  - done.
Qed.

Lemma save_edit_renames_witness :
  map Certificate.name
    (Certificates.certificates
       (@Certificates.step Demo.engine Demo.json_certs Demo.assets
          Certificates.SaveClicked Demo.certs_named_edit))
  = map Certificate.name
      (map (rename (Demo.cert "c08" "VPN" "vpn.local" "Internal CA" "2025-01-02")
              "Office VPN")
         Demo.certs12).
Proof.
  refine (f_equal (map Certificate.name)
            (proj1 (@save_edit_renames Demo.engine Demo.json_certs Demo.assets
                      Demo.certs_named_edit
                      (Demo.cert "c08" "VPN" "vpn.local" "Internal CA"
                         "2025-01-02")
                      _ _ _))).
  - apply reachable_run. constructor.
  - vm_compute. reflexivity.
  - vm_compute. discriminate.
Defined.

(** ** The cache slot of the Certificates page *)

Section CertificatesCache.
Context `{Engine} `{JSON (list Certificate.t)} `{Assets}.
Import Certificates.

Lemma persistEffect_empty s : certificates s = [] → persistEffect s = s.
Proof. intros Hnil. unfold persistEffect. by rewrite Hnil. Qed.

Lemma loaded_run es s :
  reachable s → pending s = None → error s = None → certificates s ≠ [] →
  certificates (run es s) ≠ []
  ∧ length (certificates (run es s)) = length (certificates s)
  ∧ localStorage (run es s) !! CACHE_KEY
    = Some (JSON_stringify (certificates (run es s))).
Proof.
  revert s. induction es as [|e es IH]; intros s Hreach Hp He Hne.
  - split_and!; [done | done |].
    by apply (reachable_inv s Hreach).
  - destruct (loaded_step e s Hp He) as (Hp' & He' & Hlen).
    assert (certificates (step e s) ≠ []) as Hne'.
    { intros Hnil. rewrite Hnil in Hlen. by destruct (certificates s). }
    destruct (IH (step e s)) as (Hne'' & Hlen' & Hstore);
      [by constructor | done | done | done |].
    change (run (e :: es) s) with (run es (step e s)).
    split_and!; [done | congruence | done].
Qed.

(** What the first [LoadResumes] makes of the cache slot. *)
Lemma cert_load_default ls :
  ls !! CACHE_KEY = None ∨ ls !! CACHE_KEY = Some "" →
  let s1 := step LoadResumes (mount ls) in
  certificates s1 = certificatesData ∧ shown s1 = Ready
  ∧ localStorage s1
    = setItem ls CACHE_KEY (JSON_stringify certificatesData).
Proof.
  intros Hslot. unfold step. simpl.
  unfold getItem, loadData_resume, runEffects, persistEffect.
  assert (∀ v : gmap string string, setItem (setItem ls CACHE_KEY
            (JSON_stringify certificatesData)) CACHE_KEY
            (JSON_stringify certificatesData)
          = setItem ls CACHE_KEY (JSON_stringify certificatesData)) as Htwice.
  { intros _. apply insert_insert_eq. }
  destruct Hslot as [-> | ->]; simpl;
    destruct (0 <? Z.of_nat (length certificatesData)); simpl;
    rewrite ?Htwice; done.
Qed.

Lemma cert_load_parsed ls text parsed :
  ls !! CACHE_KEY = Some text → text ≠ "" → JSON_parse text = Records parsed →
  let s1 := step LoadResumes (mount ls) in
  certificates s1 = parsed ∧ shown s1 = Ready
  ∧ localStorage s1
    = if 0 <? Z.of_nat (length parsed)
      then setItem ls CACHE_KEY (JSON_stringify parsed) else ls.
Proof.
  intros Hslot Htext Hparse. apply truthy_true in Htext.
  unfold step. simpl.
  unfold getItem, loadData_resume, runEffects, persistEffect.
  rewrite Hslot, Htext, Hparse. simpl.
  by destruct (0 <? Z.of_nat (length parsed)).
Qed.

Lemma cert_load_broken ls text :
  ls !! CACHE_KEY = Some text → text ≠ "" → JSON_parse text = Throws →
  let s1 := step LoadResumes (mount ls) in
  shown s1 = Error ∧ certificates s1 = [] ∧ localStorage s1 = ls
  ∧ error s1 = Some "Failed to load certificates".
Proof.
  intros Hslot Htext Hparse. apply truthy_true in Htext.
  unfold step. simpl.
  unfold getItem, loadData_resume, runEffects, persistEffect.
  by rewrite Hslot, Htext, Hparse.
Qed.

Lemma cert_load_notarray ls text z :
  ls !! CACHE_KEY = Some text → text ≠ "" → JSON_parse text = NotArray z →
  let s1 := step LoadResumes (mount ls) in
  shown s1 = Crashed ∧ certificates s1 = [] ∧ localStorage s1 = ls
  ∧ error s1 = None ∧ loading s1 = false ∧ pending s1 = None
  ∧ crashed s1 = true.
Proof.
  intros Hslot Htext Hparse. apply truthy_true in Htext.
  unfold step. simpl.
  unfold getItem, loadData_resume, runEffects, persistEffect.
  by rewrite Hslot, Htext, Hparse.
Qed.

(** Once a render has thrown, no event is taken any more. *)
Lemma crashed_step e s : crashed s = true → pending s = None → step e s = s.
Proof.
  intros Hcr Hp. unfold step.
  destruct e; simpl;
    unfold pageShown, rowsShown, shown; rewrite ?Hcr, ?Hp; done.
Qed.

End CertificatesCache.

(** C10, as the code has it.  The effect that follows a change of the
    collection leaves the cache alone when the collection is empty.  From
    a state reached with the load done, no error, and a collection that is
    not empty, every further run of events keeps the collection at the
    same length, and the cache slot holds the serialisation of that
    collection, which is not empty. *)
Theorem snapshot_stays_nonempty `{Engine} `{JSON (list Certificate.t)} `{Assets} :
  (∀ s0, Certificates.certificates s0 = [] → Certificates.persistEffect s0 = s0)
  ∧ ∀ s es,
      Certificates.reachable s →
      Certificates.pending s = None →
      Certificates.error s = None →
      Certificates.certificates s ≠ [] →
      let s' := Certificates.run es s in
      Certificates.certificates s' ≠ []
      ∧ length (Certificates.certificates s')
        = length (Certificates.certificates s)
      ∧ Certificates.localStorage s' !! Certificates.CACHE_KEY
        = Some (JSON_stringify (Certificates.certificates s')).
Proof.
  split; [apply persistEffect_empty |].
  intros s es Hreach Hp He Hne. by apply loaded_run.
Qed.

Lemma snapshot_stays_nonempty_witness :
  length
    (Certificates.certificates
       (@Certificates.run Demo.engine Demo.json_certs Demo.assets
          [Certificates.EditClicked
             (Demo.cert "c08" "VPN" "vpn.local" "Internal CA" "2025-01-02");
           Certificates.EditNameInput "Office VPN";
           Certificates.SaveClicked]
          Demo.certs_loaded))
  = length (Certificates.certificates Demo.certs_loaded).
Proof.
  refine (proj1 (proj2 (proj2 (@snapshot_stays_nonempty Demo.engine
                                 Demo.json_certs Demo.assets)
                          Demo.certs_loaded _ _ _ _ _))).
  - apply reachable_run. constructor.
  - vm_compute. reflexivity.
  - vm_compute. reflexivity.
  - vm_compute. discriminate.
Defined.

(** A first load that finds an empty array in the cache succeeds, and the
    snapshot it leaves is that empty array. *)
Lemma snapshot_empty_counterexample :
  Certificates.reachable (H := Demo.engine) (H0 := Demo.json_certs)
    (H1 := Demo.assets) Demo.certs_empty_cache
  ∧ Certificates.shown Demo.certs_empty_cache = Ready
  ∧ Certificates.pending Demo.certs_empty_cache = None
  ∧ Certificates.error Demo.certs_empty_cache = None
  ∧ Certificates.localStorage Demo.certs_empty_cache
      !! Certificates.CACHE_KEY = Some "[]"
  ∧ JSON_parse (JSON := Demo.json_certs) "[]" = Records [].
Proof.
  split; [apply reachable_run; constructor |].
  split_and!; vm_compute; reflexivity.
Qed.

(** ** The Audit Logs page as a transition system *)

Section AuditLogsFacts.
Context `{Engine} `{JSON (list AuditLog.t)} `{Assets}.
Import AuditLogs.

Lemma filterDepsChanged_same s : filterDepsChanged s s = false.
Proof.
  unfold filterDepsChanged. by rewrite String.eqb_refl, Nat.eqb_refl.
Qed.

Lemma runEffects_same_logs s : runEffects s s = s.
Proof. unfold runEffects. by rewrite filterDepsChanged_same. Qed.

Lemma runEffects_logs_view prev next :
  logs (runEffects prev next) = logs next
  ∧ actionTypeFilter (runEffects prev next) = actionTypeFilter next
  ∧ dateRange (runEffects prev next) = dateRange next
  ∧ pending (runEffects prev next) = pending next
  ∧ loading (runEffects prev next) = loading next
  ∧ error (runEffects prev next) = error next
  ∧ localStorage (runEffects prev next) = localStorage next
  ∧ displayCount (runEffects prev next)
    = if filterDepsChanged prev next then PAGE_SIZE else displayCount next.
Proof.
  unfold runEffects. destruct (filterDepsChanged prev next);
    repeat split; reflexivity.
Qed.

Lemma runEffects_logs_crashed prev next :
  crashed (runEffects prev next) = crashed next
  ∧ expandedRows (runEffects prev next) = expandedRows next
  ∧ dateRangeRef (runEffects prev next) = dateRangeRef next.
Proof.
  unfold runEffects. destruct (filterDepsChanged prev next);
    repeat split; reflexivity.
Qed.

Lemma filtered_runEffects_logs prev next :
  filtered (runEffects prev next) = filtered next.
Proof.
  unfold filtered.
  destruct (runEffects_logs_view prev next) as (-> & -> & -> & _). done.
Qed.

Lemma displayedData_length s :
  0 <= displayCount s →
  Z.of_nat (length (displayedData s))
  = Z.min (displayCount s) (Z.of_nat (length (filtered s))).
Proof.
  intros Hdc. unfold displayedData. rewrite slice_nonneg by lia.
  rewrite length_take, drop_0. lia.
Qed.

Lemma loadData_resume_view cached s :
  let s' := loadData_resume cached s in
  pending s' = pending s ∧ actionTypeFilter s' = actionTypeFilter s
  ∧ dateRange s' = dateRange s ∧ dateRangeRef s' = dateRangeRef s
  ∧ displayCount s' = displayCount s.
Proof.
  unfold loadData_resume.
  destruct cached as [text|]; [destruct (JsString.truthy text);
    [destruct (JSON_parse text) |] |]; repeat split; reflexivity.
Qed.

(** The sentinel's callback moves the count by at most one page, and
    never past the filtered collection. *)
Lemma handleObserver_count b s :
  displayCount (handleObserver b s)
  = if b && hasMore s && negb (loading s)
    then Z.min (displayCount s + PAGE_SIZE)
           (Z.of_nat (length (filtered s)))
    else displayCount s.
Proof.
  unfold handleObserver. by destruct (b && hasMore s && negb (loading s)).
Qed.

Lemma handleObserver_view b s :
  logs (handleObserver b s) = logs s
  ∧ actionTypeFilter (handleObserver b s) = actionTypeFilter s
  ∧ dateRange (handleObserver b s) = dateRange s
  ∧ dateRangeRef (handleObserver b s) = dateRangeRef s
  ∧ pending (handleObserver b s) = pending s.
Proof.
  unfold handleObserver.
  destruct (b && hasMore s && negb (loading s)); repeat split; reflexivity.
Qed.

Lemma step_sentinel b s :
  displayCount (step (SentinelObserved b) s)
  = if pageShown s && (b && hasMore s && negb (loading s))
    then Z.min (displayCount s + PAGE_SIZE)
           (Z.of_nat (length (filtered s)))
    else displayCount s.
Proof.
  unfold step. simpl. destruct (pageShown s); simpl; [| done].
  destruct (runEffects_logs_view s (handleObserver b s))
    as (_ & _ & _ & _ & _ & _ & _ & ->).
  destruct (handleObserver_view b s) as (_ & Hf & _ & Hr & _).
  unfold filterDepsChanged. rewrite Hf, Hr, String.eqb_refl, Nat.eqb_refl.
  simpl. apply handleObserver_count.
Qed.

(** Steps that change no filter never lower the count. *)
Lemma step_monotone e s :
  isFilterChange e = false → displayCount s <= displayCount (step e s).
Proof.
  intros Hnf. destruct e; try discriminate.
  - unfold step. destruct (enabled LoadResumes s) eqn:Hen; [| lia].
    simpl in *. destruct (pending s) as [cached|]; [| done].
    destruct (runEffects_logs_view s
                (loadData_resume cached (set_pending None s)))
      as (_ & _ & _ & _ & _ & _ & _ & ->).
    destruct (loadData_resume_view cached (set_pending None s))
      as (_ & Hf & _ & Hr & Hd).
    unfold filterDepsChanged. rewrite Hf, Hr, Hd. simpl.
    rewrite String.eqb_refl, Nat.eqb_refl. simpl. lia.
  - rewrite step_sentinel. unfold hasMore.
    destruct (pageShown s), isIntersecting, (negb (loading s)),
      (Z.ltb_spec (displayCount s) (Z.of_nat (length (filtered s))));
      simpl; unfold PAGE_SIZE; lia.
  - unfold step. destruct (enabled (RowClicked id) s); [| lia].
    simpl. unfold runEffects, filterDepsChanged. simpl.
    rewrite String.eqb_refl, Nat.eqb_refl. simpl. lia.
Qed.

(** A filter event either changes nothing or ends on the first page. *)
Lemma step_filter_change e s :
  isFilterChange e = true →
  displayCount (step e s) = PAGE_SIZE ∨ step e s = s.
Proof.
  intros Hf. unfold step. destruct (enabled e s); [| by right].
  destruct e; try discriminate; simpl.
  - unfold runEffects, filterDepsChanged. simpl.
    rewrite Nat.eqb_refl, orb_false_r.
    destruct (String.eqb_spec (actionTypeFilter s) value) as [<- | Hne].
    + right. by destruct s.
    + by left.
  - left. unfold runEffects, filterDepsChanged. simpl.
    assert ((dateRangeRef s =? S (dateRangeRef s))%nat = false) as ->
      by (apply Nat.eqb_neq; lia).
    by rewrite orb_true_r.
  - left. unfold runEffects, filterDepsChanged. simpl.
    assert ((dateRangeRef s =? S (dateRangeRef s))%nat = false) as ->
      by (apply Nat.eqb_neq; lia).
    by rewrite orb_true_r.
Qed.

End AuditLogsFacts.

Section AuditLogsInvariant.
Context `{Engine} `{JSON (list AuditLog.t)} `{Assets}.
Import AuditLogs.

Lemma filteredData_nil filter range : filteredData [] filter range = [].
Proof. by rewrite log_pipeline. Qed.

Lemma logs_inv_mount ls : logs_inv (mount ls).
Proof.
  unfold logs_inv. simpl. split_and!; [done | done | by left].
Qed.

Lemma logs_inv_step e s : logs_inv s → logs_inv (step e s).
Proof.
  intros (Hpend & Hlow & Hhigh). unfold step.
  destruct (enabled e s) eqn:Hen; [| done].
  destruct (runEffects_logs_view s (handler e s))
    as (Vl & _ & _ & Vp & _ & _ & _ & Vd).
  unfold logs_inv.
  rewrite filtered_runEffects_logs, Vl, Vp, Vd. clear Vl Vp Vd.
  destruct e; simpl in *.
  - destruct (pending s) as [cached|] eqn:Hcached; [| done].
    destruct (loadData_resume_view cached (set_pending None s))
      as (Hp & Hf & _ & Hr & Hd).
    unfold filterDepsChanged. rewrite Hp, Hf, Hr, Hd. simpl.
    rewrite String.eqb_refl, Nat.eqb_refl. simpl.
    assert (displayCount s = PAGE_SIZE) as Hfirst.
    { destruct Hhigh as [? | Hle]; [done |].
      unfold filtered in Hle.
      rewrite (Hpend ltac:(done)), filteredData_nil in Hle.
      simpl in Hle. unfold PAGE_SIZE in *. lia. }
    split_and!; [by intros [? ?] | done | by left].
  - unfold filterDepsChanged. simpl. rewrite Nat.eqb_refl, orb_false_r.
    destruct (String.eqb_spec (actionTypeFilter s) value) as [<- | Hne];
      simpl.
    + split_and!; [done | done |]. by destruct s.
    + split_and!; [done | done | by left].
  - unfold filterDepsChanged. simpl.
    assert ((dateRangeRef s =? S (dateRangeRef s))%nat = false) as ->
      by (apply Nat.eqb_neq; lia).
    rewrite orb_true_r. split_and!; [done | done | by left].
  - unfold filterDepsChanged. simpl.
    assert ((dateRangeRef s =? S (dateRangeRef s))%nat = false) as ->
      by (apply Nat.eqb_neq; lia).
    rewrite orb_true_r. split_and!; [done | done | by left].
  - destruct (handleObserver_view isIntersecting s)
      as (Hl & Hf & Hg & Hr & Hp).
    unfold filterDepsChanged, filtered.
    rewrite Hl, Hf, Hg, Hr, Hp, String.eqb_refl, Nat.eqb_refl. simpl.
    fold (filtered s). rewrite handleObserver_count. unfold hasMore.
    destruct isIntersecting, (negb (loading s)),
      (Z.ltb_spec (displayCount s) (Z.of_nat (length (filtered s))));
      simpl; split_and!; try done.
    * unfold PAGE_SIZE in *. lia.
    * right. lia.
  - unfold filterDepsChanged. simpl.
    rewrite String.eqb_refl, Nat.eqb_refl. simpl. done.
Qed.

Lemma reachable_logs_inv s : reachable s → logs_inv s.
Proof.
  induction 1 as [ls | e s _ IH]; [apply logs_inv_mount |].
  by apply logs_inv_step.
Qed.

Lemma reachable_logs_run es ls :
  reachable (foldl (λ s e, step e s) (mount ls) es).
Proof.
  induction es as [|e es IH] using rev_ind; [constructor |].
  rewrite foldl_app. simpl. by constructor.
Qed.

End AuditLogsInvariant.

(** C3, as the code has it.  In every reachable state of the audit-log
    page the display count is at least one page (8) and at most the larger
    of one page and the size of the filtered collection, and the rows shown
    number the smaller of the display count and that size; a step that is
    not a filter change never lowers the count; a sentinel notification
    raises it to the smaller of count plus 8 and the size of the filtered
    collection when the sentinel intersects, more rows remain and the page
    is not loading, and leaves it otherwise; a filter event that changes
    anything ends with the count at 8. *)
Theorem reveal_count_bounds `{Engine} `{JSON (list AuditLog.t)} `{Assets}
    (s : AuditLogs.State) :
  AuditLogs.reachable s →
  let N := Z.of_nat (length (AuditLogs.filtered s)) in
  AuditLogs.PAGE_SIZE <= AuditLogs.displayCount s
    <= Z.max AuditLogs.PAGE_SIZE N
  ∧ Z.of_nat (length (AuditLogs.displayedData s))
    = Z.min (AuditLogs.displayCount s) N
  ∧ (∀ e, AuditLogs.isFilterChange e = false →
       AuditLogs.displayCount s <= AuditLogs.displayCount (AuditLogs.step e s))
  ∧ (∀ b, AuditLogs.displayCount
            (AuditLogs.step (AuditLogs.SentinelObserved b) s)
          = if AuditLogs.pageShown s
               && (b && AuditLogs.hasMore s && negb (AuditLogs.loading s))
            then Z.min (AuditLogs.displayCount s + AuditLogs.PAGE_SIZE) N
            else AuditLogs.displayCount s)
  ∧ (∀ e, AuditLogs.isFilterChange e = true →
       AuditLogs.displayCount (AuditLogs.step e s) = AuditLogs.PAGE_SIZE
       ∨ AuditLogs.step e s = s).
Proof.
  intros Hreach N.
  destruct (reachable_logs_inv s Hreach) as (_ & Hlow & Hhigh).
  split_and!.
  - done.
  - subst N. destruct Hhigh; lia.
  - apply displayedData_length. unfold AuditLogs.PAGE_SIZE in *. lia.
  - intros e. apply step_monotone.
  - intros b. apply step_sentinel.
  - intros e. apply step_filter_change.
Qed.

Lemma reveal_count_bounds_witness :
  AuditLogs.displayCount
    (@AuditLogs.step Demo.engine Demo.json_logs Demo.assets
       (AuditLogs.SentinelObserved true) Demo.logs_loaded)
  = 10.
Proof.
  refine (eq_trans
            (proj1 (proj2 (proj2 (proj2
               (@reveal_count_bounds Demo.engine Demo.json_logs Demo.assets
                  Demo.logs_loaded _)))) true) _).
  - apply reachable_logs_run.
  - vm_compute. reflexivity.
Defined.

(** With the action filter on an action that one entry has, the display
    count is 8 and the filtered collection has one record. *)
Lemma reveal_count_counterexample :
  AuditLogs.reachable (H := Demo.engine) (H0 := Demo.json_logs)
    (H1 := Demo.assets) Demo.logs_one_match
  ∧ AuditLogs.displayCount Demo.logs_one_match = 8
  ∧ length (@AuditLogs.filtered Demo.engine Demo.logs_one_match) = 1%nat
  ∧ ¬ AuditLogs.displayCount Demo.logs_one_match
      <= Z.of_nat (length (@AuditLogs.filtered Demo.engine Demo.logs_one_match)).
Proof.
  split_and!.
  - apply reachable_logs_run.
  - vm_compute. reflexivity.
  - vm_compute. reflexivity.
  - vm_compute. intros Hle. by apply Hle.
Qed.

(** ** The cache-backed loader *)

Section AuditLogsCache.
Context `{Engine} `{JSON (list AuditLog.t)} `{Assets}.
Import AuditLogs.

Lemma logs_load_default ls :
  ls !! CACHE_KEY = None ∨ ls !! CACHE_KEY = Some "" →
  let s1 := step LoadResumes (mount ls) in
  logs s1 = auditLogsData ∧ shown s1 = Ready
  ∧ localStorage s1 = setItem ls CACHE_KEY (JSON_stringify auditLogsData).
Proof.
  intros Hslot. unfold step. simpl.
  unfold getItem, loadData_resume, runEffects.
  destruct Hslot as [-> | ->]; done.
Qed.

Lemma logs_load_parsed ls text parsed :
  ls !! CACHE_KEY = Some text → text ≠ "" → JSON_parse text = Records parsed →
  let s1 := step LoadResumes (mount ls) in
  logs s1 = parsed ∧ shown s1 = Ready ∧ localStorage s1 = ls.
Proof.
  intros Hslot Htext Hparse. apply truthy_true in Htext.
  unfold step. simpl. unfold getItem, loadData_resume, runEffects.
  by rewrite Hslot, Htext, Hparse.
Qed.

Lemma logs_load_broken ls text :
  ls !! CACHE_KEY = Some text → text ≠ "" → JSON_parse text = Throws →
  let s1 := step LoadResumes (mount ls) in
  shown s1 = Error ∧ logs s1 = [] ∧ localStorage s1 = ls
  ∧ error s1 = Some "Failed to load audit logs".
Proof.
  intros Hslot Htext Hparse. apply truthy_true in Htext.
  unfold step. simpl. unfold getItem, loadData_resume, runEffects.
  by rewrite Hslot, Htext, Hparse.
Qed.

Lemma logs_load_notarray ls text z :
  ls !! CACHE_KEY = Some text → text ≠ "" → JSON_parse text = NotArray z →
  let s1 := step LoadResumes (mount ls) in
  shown s1 = Crashed ∧ logs s1 = [] ∧ localStorage s1 = ls
  ∧ error s1 = None ∧ loading s1 = false ∧ pending s1 = None
  ∧ crashed s1 = true.
Proof.
  intros Hslot Htext Hparse. apply truthy_true in Htext.
  unfold step. simpl. unfold getItem, loadData_resume, runEffects.
  by rewrite Hslot, Htext, Hparse.
Qed.

Lemma logs_crashed_step e s :
  crashed s = true → pending s = None → step e s = s.
Proof.
  intros Hcr Hp. unfold step.
  destruct e; simpl;
    unfold pageShown, rowsShown, shown; rewrite ?Hcr, ?Hp; done.
Qed.

End AuditLogsCache.

(** C2, as the code has it.  A page mounts in the loading state.  When
    [loadData] resumes: a cache slot that holds a non-empty text that
    parses to an array makes that array the working collection, in the
    ready state; a slot that is absent, or holds the empty string, makes
    the bundled dataset the working collection and stores its
    serialisation in the slot, in the ready state; a slot that holds a
    non-empty text on which [JSON.parse] throws puts the page in the error
    state, with the working collection still empty and the cache as it
    was; and a slot that holds a non-empty text that parses to a value that
    is no array leaves no error and no collection: the render that follows
    throws, the page shows neither the table nor the error panel, the
    cache is as it was, and no event is taken any more.  This holds for
    the certificates and for the audit logs. *)
Theorem loader_outcomes `{Engine} `{JSON (list Certificate.t)}
    `{JSON (list AuditLog.t)} `{Assets} (ls : gmap string string) :
  let c1 := Certificates.step Certificates.LoadResumes (Certificates.mount ls) in
  let a1 := AuditLogs.step AuditLogs.LoadResumes (AuditLogs.mount ls) in
  (Certificates.shown (Certificates.mount ls) = Loading
   ∧ AuditLogs.shown (AuditLogs.mount ls) = Loading)
  ∧ (∀ text parsed,
       ls !! Certificates.CACHE_KEY = Some text → text ≠ "" →
       JSON_parse text = Records parsed →
       Certificates.certificates c1 = parsed
       ∧ Certificates.shown c1 = Ready)
  ∧ (ls !! Certificates.CACHE_KEY = None
     ∨ ls !! Certificates.CACHE_KEY = Some "" →
       Certificates.certificates c1 = certificatesData
       ∧ Certificates.shown c1 = Ready
       ∧ Certificates.localStorage c1 !! Certificates.CACHE_KEY
         = Some (JSON_stringify certificatesData))
  ∧ (∀ text,
       ls !! Certificates.CACHE_KEY = Some text → text ≠ "" →
       JSON_parse (A := list Certificate.t) text = Throws →
       Certificates.shown c1 = Error
       ∧ Certificates.certificates c1 = []
       ∧ Certificates.localStorage c1 = ls)
  ∧ (∀ text z,
       ls !! Certificates.CACHE_KEY = Some text → text ≠ "" →
       JSON_parse (A := list Certificate.t) text = NotArray z →
       Certificates.shown c1 = Crashed
       ∧ Certificates.error c1 = None
       ∧ Certificates.loading c1 = false
       ∧ Certificates.certificates c1 = []
       ∧ Certificates.localStorage c1 = ls
       ∧ ∀ e, Certificates.step e c1 = c1)
  ∧ (∀ text parsed,
       ls !! AuditLogs.CACHE_KEY = Some text → text ≠ "" →
       JSON_parse text = Records parsed →
       AuditLogs.logs a1 = parsed ∧ AuditLogs.shown a1 = Ready)
  ∧ (ls !! AuditLogs.CACHE_KEY = None
     ∨ ls !! AuditLogs.CACHE_KEY = Some "" →
       AuditLogs.logs a1 = auditLogsData
       ∧ AuditLogs.shown a1 = Ready
       ∧ AuditLogs.localStorage a1 !! AuditLogs.CACHE_KEY
         = Some (JSON_stringify auditLogsData))
  ∧ (∀ text,
       ls !! AuditLogs.CACHE_KEY = Some text → text ≠ "" →
       JSON_parse (A := list AuditLog.t) text = Throws →
       AuditLogs.shown a1 = Error
       ∧ AuditLogs.logs a1 = []
       ∧ AuditLogs.localStorage a1 = ls)
  ∧ (∀ text z,
       ls !! AuditLogs.CACHE_KEY = Some text → text ≠ "" →
       JSON_parse (A := list AuditLog.t) text = NotArray z →
       AuditLogs.shown a1 = Crashed
       ∧ AuditLogs.error a1 = None
       ∧ AuditLogs.loading a1 = false
       ∧ AuditLogs.logs a1 = []
       ∧ AuditLogs.localStorage a1 = ls
       ∧ ∀ e, AuditLogs.step e a1 = a1).
Proof.
  intros c1 a1. split_and!.
  - done.
  - done.
  - intros text parsed Hslot Htext Hparse.
    destruct (cert_load_parsed ls text parsed Hslot Htext Hparse)
      as (Hc & Hs & _). done.
  - intros Hslot. destruct (cert_load_default ls Hslot) as (Hc & Hs & Hl).
    split_and!; [done | done |]. subst c1. rewrite Hl. apply lookup_insert_eq.
  - intros text Hslot Htext Hparse.
    destruct (cert_load_broken ls text Hslot Htext Hparse)
      as (Hs & Hc & Hl & _). done.
  - intros text z Hslot Htext Hparse.
    destruct (cert_load_notarray ls text z Hslot Htext Hparse)
      as (Hs & Hc & Hl & He & Hld & Hp & Hcr).
    split_and!; try done. intros e. by apply crashed_step.
  - intros text parsed Hslot Htext Hparse.
    destruct (logs_load_parsed ls text parsed Hslot Htext Hparse)
      as (Hc & Hs & _). done.
  - intros Hslot. destruct (logs_load_default ls Hslot) as (Hc & Hs & Hl).
    split_and!; [done | done |]. subst a1. rewrite Hl. apply lookup_insert_eq.
  - intros text Hslot Htext Hparse.
    destruct (logs_load_broken ls text Hslot Htext Hparse)
      as (Hs & Hc & Hl & _). done.
  - intros text z Hslot Htext Hparse.
    destruct (logs_load_notarray ls text z Hslot Htext Hparse)
      as (Hs & Hc & Hl & He & Hld & Hp & Hcr).
    split_and!; try done. intros e. by apply logs_crashed_step.
Qed.

Lemma loader_outcomes_witness :
  (Certificates.certificates Demo.certs_loaded = Demo.certs12
   ∧ Certificates.shown Demo.certs_loaded = Ready
   ∧ Certificates.localStorage Demo.certs_loaded !! Certificates.CACHE_KEY
     = Some (Demo.stringify_certs Demo.certs12))
  ∧ (Certificates.shown Demo.certs_broken_cache = Error
     ∧ Certificates.certificates Demo.certs_broken_cache = []
     ∧ Certificates.localStorage Demo.certs_broken_cache
       = {[ Certificates.CACHE_KEY := "{" ]})
  ∧ (Certificates.shown Demo.certs_null_cache = Crashed
     ∧ Certificates.error Demo.certs_null_cache = None
     ∧ Certificates.loading Demo.certs_null_cache = false
     ∧ Certificates.certificates Demo.certs_null_cache = []
     ∧ Certificates.localStorage Demo.certs_null_cache
       = {[ Certificates.CACHE_KEY := "null" ]}
     ∧ ∀ e, @Certificates.step Demo.engine Demo.json_certs Demo.assets e
              Demo.certs_null_cache = Demo.certs_null_cache).
Proof.
  split; [| split].
  - refine (proj1 (proj2 (proj2
              (@loader_outcomes Demo.engine Demo.json_certs Demo.json_logs
                 Demo.assets ∅))) _).
    left. vm_compute. reflexivity.
  - refine (proj1 (proj2 (proj2 (proj2
              (@loader_outcomes Demo.engine Demo.json_certs Demo.json_logs
                 Demo.assets {[ Certificates.CACHE_KEY := "{" ]}))))
              "{" _ _ _).
    + vm_compute. reflexivity.
    + discriminate.
    + vm_compute. reflexivity.
  - refine (proj1 (proj2 (proj2 (proj2 (proj2
              (@loader_outcomes Demo.engine Demo.json_certs Demo.json_logs
                 Demo.assets {[ Certificates.CACHE_KEY := "null" ]})))))
              "null" false _ _ _).
    + vm_compute. reflexivity.
    + discriminate.
    + vm_compute. reflexivity.
Defined.

(** C2, as the specification words it, fails twice.  A cache slot that
    holds a text that is not JSON: the page ends in the error state, with
    no collection, and the slot still holds that text; the bundled dataset
    is neither adopted nor stored.  A cache slot that holds the text
    [null]: it parses, the value is taken for the collection, and the page
    ends in no state of the loader at all, its render having thrown. *)
Lemma loader_unparseable_counterexample :
  JSON_parse (JSON := Demo.json_certs) "{" = Throws
  ∧ Certificates.shown Demo.certs_broken_cache = Error
  ∧ Certificates.certificates Demo.certs_broken_cache = []
  ∧ Certificates.certificates Demo.certs_broken_cache
    ≠ certificatesData (Assets := Demo.assets)
  ∧ Certificates.localStorage Demo.certs_broken_cache
      !! Certificates.CACHE_KEY = Some "{"
  ∧ AuditLogs.shown Demo.logs_broken_cache = Error
  ∧ AuditLogs.logs Demo.logs_broken_cache = []
  ∧ JSON_parse (JSON := Demo.json_certs) "null" = NotArray false
  ∧ Certificates.shown Demo.certs_null_cache = Crashed
  ∧ Certificates.certificates Demo.certs_null_cache = []
  ∧ Certificates.localStorage Demo.certs_null_cache
      !! Certificates.CACHE_KEY = Some "null"
  ∧ AuditLogs.shown Demo.logs_null_cache = Crashed.
Proof.
  split_and!; [| | | vm_compute; discriminate | | | | | | | |];
    vm_compute; reflexivity.
Qed.

(** * Further properties of the pages *)

(** ** The audit-log and code-signing pipelines *)

Lemma date_ge_spec (a b : option Z) :
  AuditLogs.date_ge a b = true ↔ ∃ t d, a = Some t ∧ b = Some d ∧ d <= t.
Proof.
  unfold AuditLogs.date_ge. destruct a as [t|], b as [d|]; simpl.
  - rewrite Z.leb_le. split; [by eauto | by intros (? & ? & [= ->] & [= ->] & ?)].
  - split; [done | by intros (? & ? & _ & ? & _)].
  - split; [done | by intros (? & ? & ? & _)].
  - split; [done | by intros (? & ? & ? & _)].
Qed.

Lemma date_le_spec (a b : option Z) :
  AuditLogs.date_le a b = true ↔ ∃ t d, a = Some t ∧ b = Some d ∧ t <= d.
Proof.
  unfold AuditLogs.date_le. destruct a as [t|], b as [d|]; simpl.
  - rewrite Z.leb_le. split; [by eauto | by intros (? & ? & [= ->] & [= ->] & ?)].
  - split; [done | by intros (? & ? & _ & ? & _)].
  - split; [done | by intros (? & ? & ? & _)].
  - split; [done | by intros (? & ? & ? & _)].
Qed.

Lemma log_keep_spec `{Engine} filter range l :
  log_keep filter range l = true
  ↔ log_filter_ok filter l ∧ log_range_ok range l.
Proof.
  unfold log_keep, log_filter_ok, log_range_ok.
  rewrite !andb_true_iff, orb_true_iff, !String.eqb_eq.
  destruct (AuditLogs.from range) as [lo|], (AuditLogs.to range) as [hi|];
    rewrite ?date_ge_spec, ?date_le_spec; split.
  - intros [[Hf (t & b & Ht & -> & Hb)] (t' & b' & Ht' & -> & Hb')].
    split_and!; [done | |]; intros d [= <-]; eauto.
  - intros (Hf & Hlo & Hhi). destruct (Hlo lo eq_refl) as (t & b & ? & ? & ?).
    destruct (Hhi hi eq_refl) as (t' & b' & ? & ? & ?). eauto 10.
  - intros [[Hf (t & b & Ht & -> & Hb)] _].
    split_and!; [done | | done]. intros d [= <-]. eauto.
  - intros (Hf & Hlo & _). destruct (Hlo lo eq_refl) as (t & b & ? & ? & ?).
    eauto 10.
  - intros [[Hf _] (t' & b' & Ht' & -> & Hb')].
    split_and!; [done | done |]. intros d [= <-]. eauto.
  - intros (Hf & _ & Hhi). destruct (Hhi hi eq_refl) as (t' & b' & ? & ? & ?).
    eauto 10.
  - intros [[Hf _] _]. split_and!; done.
  - intros (Hf & _ & _). done.
Qed.

Lemma log_filtered_elem_of `{Engine} logs filter range l :
  l ∈ AuditLogs.filteredData logs filter range
  ↔ l ∈ logs ∧ log_filter_ok filter l ∧ log_range_ok range l.
Proof.
  by rewrite log_pipeline, sort_elem_of, filter_elem_of, log_keep_spec.
Qed.

Lemma cert_filtered_elem_of `{Engine} certs search filter d c :
  c ∈ Certificates.filteredData certs search filter d
  ↔ c ∈ certs ∧ cert_search_ok search c ∧ cert_filter_ok filter c.
Proof.
  by rewrite cert_pipeline, sort_elem_of, filter_elem_of, cert_keep_spec.
Qed.

(** X1.  The filtered audit logs are a rearrangement of the logs that pass
    the action filter and lie inside the date range, bounds included; a log
    whose timestamp is not a valid date is left out as soon as one bound is
    set, and a bound that is not a valid date leaves nothing. *)
Theorem audit_pipeline_exact `{Engine} logs filter range :
  AuditLogs.filteredData logs filter range
    ≡ₚ List.filter (log_keep filter range) logs
  ∧ (∀ l, l ∈ AuditLogs.filteredData logs filter range
          ↔ l ∈ logs ∧ log_filter_ok filter l ∧ log_range_ok range l)
  ∧ (AuditLogs.from range = Some None ∨ AuditLogs.to range = Some None →
     AuditLogs.filteredData logs filter range = []).
Proof.
  pose proof (log_filtered_elem_of logs filter range) as Hmem.
  split_and!; [rewrite log_pipeline; apply sort_perm | done |].
  intros Hbound.
  destruct (AuditLogs.filteredData logs filter range) as [|l rest] eqn:Hres;
    [done | exfalso].
  destruct (proj1 (Hmem l)) as (_ & _ & Hlo & Hhi); [by left |].
  destruct Hbound as [Hb | Hb].
  - by destruct (Hlo None Hb) as (? & ? & _ & ? & _).
  - by destruct (Hhi None Hb) as (? & ? & _ & ? & _).
Qed.

Lemma audit_pipeline_exact_witness :
  @AuditLogs.filteredData Demo.engine Demo.logs3 "all"
    (AuditLogs.mkRange (Some None) None) = [].
Proof.
  refine (proj2 (proj2 (@audit_pipeline_exact Demo.engine Demo.logs3 "all"
                          (AuditLogs.mkRange (Some None) None))) _).
  left. reflexivity.
Defined.

Lemma cskey_keep_spec `{Engine} search k :
  cskey_keep search k = true ↔ cskey_search_ok search k.
Proof.
  unfold cskey_keep, cskey_search_ok, CodeSigning.matchesQuery.
  rewrite !orb_true_iff, negb_true_iff, truthy_false.
  by rewrite !includes_lowered.
Qed.

Lemma cskey_search_ci_spec `{Engine} search k :
  lowers_ascii → JsString.is_ascii search = true → cskey_ascii k = true →
  cskey_search_ok search k ↔ cskey_search_ci search k.
Proof.
  intros Hlow Hs Hk. unfold cskey_ascii in Hk.
  apply andb_true_iff in Hk as [Ha Hg].
  unfold cskey_search_ok, cskey_search_ci. by rewrite !lowered_ci.
Qed.

(** X2.  The filtered code-signing keys are the keys for which the search
    text is empty or its lower-case form (the engine's [toLowerCase])
    occurs in the lower-case form of the alias or of the algorithm, in
    the order of the collection; without search text the collection
    itself.  When the search text, the alias and the algorithm are ASCII
    text, the condition is the case-insensitive substring condition. *)
Theorem codesigning_pipeline_exact `{Engine} keys search :
  CodeSigning.filteredData keys search = List.filter (cskey_keep search) keys
  ∧ (∀ k, cskey_keep search k = true ↔ cskey_search_ok search k)
  ∧ (∀ k, k ∈ CodeSigning.filteredData keys search
          ↔ k ∈ keys ∧ cskey_search_ok search k)
  ∧ (lowers_ascii → JsString.is_ascii search = true →
     ∀ k, cskey_ascii k = true →
       k ∈ CodeSigning.filteredData keys search
       ↔ k ∈ keys ∧ cskey_search_ci search k)
  ∧ CodeSigning.filteredData keys search `sublist_of` keys
  ∧ CodeSigning.filteredData keys "" = keys.
Proof.
  assert (CodeSigning.filteredData keys search
          = List.filter (cskey_keep search) keys) as Heq.
  { unfold CodeSigning.filteredData, cskey_keep.
    destruct (JsString.truthy search); simpl; [done |].
    by rewrite filter_all. }
  split_and!.
  - done.
  - intros k. apply cskey_keep_spec.
  - intros k. by rewrite Heq, filter_elem_of, cskey_keep_spec.
  - intros Hlow Hs k Hk.
    by rewrite Heq, filter_elem_of, cskey_keep_spec, cskey_search_ci_spec.
  - rewrite Heq. clear Heq. induction keys as [|k keys IH]; simpl; [done |].
    destruct (cskey_keep search k); by constructor.
  - done.
Qed.

(** The firmware key is found by "rsa", its algorithm being RSA-2048. *)
Lemma codesigning_pipeline_exact_witness :
  let k := Demo.cskey "s3" "Firmware" "RSA-2048" hsm in
  k ∈ @CodeSigning.filteredData Demo.engine Demo.cskeys3 "rsa"
  ↔ k ∈ Demo.cskeys3 ∧ cskey_search_ci "rsa" k.
Proof.
  cbv zeta.
  apply (proj1 (proj2 (proj2 (proj2
           (@codesigning_pipeline_exact Demo.engine Demo.cskeys3 "rsa")))));
    [apply Demo_lowers_ascii | reflexivity | reflexivity].
Defined.

(** ** Where an insertion lands *)

Section InsertFacts.
Context {A : Type} (comparefn : A → A → option Z).
Import JsArray.

Lemma insert_skip x (before rest : list A) :
  Forall (λ y, 0 < SortCompare comparefn x y) before →
  insert comparefn x (before ++ rest)%list
  = (before ++ insert comparefn x rest)%list.
Proof.
  induction 1 as [|y before Hy _ IH]; simpl; [done |].
  destruct (Z.leb_spec (SortCompare comparefn x y) 0); [lia |].
  by rewrite IH.
Qed.

Lemma insert_stop x (rest : list A) :
  Forall (λ y, SortCompare comparefn x y <= 0) rest →
  insert comparefn x rest = x :: rest.
Proof.
  destruct 1 as [|y rest Hy _]; simpl; [done |].
  destruct (Z.leb_spec (SortCompare comparefn x y) 0); [done | lia].
Qed.

Lemma insert_between x (before rest : list A) :
  Forall (λ y, 0 < SortCompare comparefn x y) before →
  Forall (λ y, SortCompare comparefn x y <= 0) rest →
  insert comparefn x (before ++ rest)%list = (before ++ x :: rest)%list.
Proof. intros Hb Hr. by rewrite insert_skip, insert_stop. Qed.

End InsertFacts.

(** ** The SSH keys by trust level *)

Lemma trust_group_level t l :
  Forall (λ k, SSHKey.trustLevel k = t) (trust_group t l).
Proof.
  apply Forall_forall. intros k Hk. apply filter_elem_of in Hk as [_ Hk].
  by apply bool_decide_eq_true in Hk.
Qed.

Lemma sort_trust_desc l :
  JsArray.sort (SSHKeys.compareTrust desc) l
  = (trust_group high l ++ trust_group medium l ++ trust_group low l)%list.
Proof.
  induction l as [|x l IH]; [done |].
  change (JsArray.sort (SSHKeys.compareTrust desc) (x :: l))
    with (JsArray.insert (SSHKeys.compareTrust desc) x
            (JsArray.sort (SSHKeys.compareTrust desc) l)).
  rewrite IH. unfold trust_group at 4 5 6. simpl.
  fold (trust_group high l) (trust_group medium l) (trust_group low l).
  destruct (SSHKey.trustLevel x) eqn:Hx; simpl.
  - apply insert_stop. rewrite !Forall_app.
    split_and!; (eapply Forall_impl; [apply trust_group_level |]);
      intros y Hy; simpl;
      unfold JsArray.SortCompare, SSHKeys.compareTrust;
      rewrite Hx, Hy; simpl; lia.
  - apply insert_between; [| rewrite Forall_app; split];
      (eapply Forall_impl; [apply trust_group_level |]);
      intros y Hy; simpl;
      unfold JsArray.SortCompare, SSHKeys.compareTrust;
      rewrite Hx, Hy; simpl; lia.
  - rewrite !(assoc_L app). apply insert_between;
      [rewrite Forall_app; split |];
      (eapply Forall_impl; [apply trust_group_level |]);
      intros y Hy; simpl;
      unfold JsArray.SortCompare, SSHKeys.compareTrust;
      rewrite Hx, Hy; simpl; lia.
Qed.

Lemma sort_trust_asc l :
  JsArray.sort (SSHKeys.compareTrust asc) l
  = (trust_group low l ++ trust_group medium l ++ trust_group high l)%list.
Proof.
  induction l as [|x l IH]; [done |].
  change (JsArray.sort (SSHKeys.compareTrust asc) (x :: l))
    with (JsArray.insert (SSHKeys.compareTrust asc) x
            (JsArray.sort (SSHKeys.compareTrust asc) l)).
  rewrite IH. unfold trust_group at 4 5 6. simpl.
  fold (trust_group high l) (trust_group medium l) (trust_group low l).
  destruct (SSHKey.trustLevel x) eqn:Hx; simpl.
  - rewrite !(assoc_L app). apply insert_between;
      [rewrite Forall_app; split |];
      (eapply Forall_impl; [apply trust_group_level |]);
      intros y Hy; simpl;
      unfold JsArray.SortCompare, SSHKeys.compareTrust;
      rewrite Hx, Hy; simpl; lia.
  - apply insert_between; [| rewrite Forall_app; split];
      (eapply Forall_impl; [apply trust_group_level |]);
      intros y Hy; simpl;
      unfold JsArray.SortCompare, SSHKeys.compareTrust;
      rewrite Hx, Hy; simpl; lia.
  - apply insert_stop. rewrite !Forall_app.
    split_and!; (eapply Forall_impl; [apply trust_group_level |]);
      intros y Hy; simpl;
      unfold JsArray.SortCompare, SSHKeys.compareTrust;
      rewrite Hx, Hy; simpl; lia.
Qed.

(** X3.  The SSH-key table, sorted descending, shows the matching keys of
    high trust, then those of medium trust, then those of low trust, each
    group in the order of the collection; ascending, the groups come low,
    medium, high, each again in the order of the collection. *)
Theorem ssh_keys_by_trust_group `{Engine} keys search filter :
  let kept := List.filter (key_keep search filter) keys in
  SSHKeys.filteredData keys search filter desc
    = (trust_group high kept ++ trust_group medium kept
         ++ trust_group low kept)%list
  ∧ SSHKeys.filteredData keys search filter asc
    = (trust_group low kept ++ trust_group medium kept
         ++ trust_group high kept)%list.
Proof.
  intros kept. rewrite !key_pipeline. fold kept.
  split; [apply sort_trust_desc | apply sort_trust_asc].
Qed.

(** ** Ascending against descending *)

Section ReverseFacts.
Context {A : Type} (up down : A → A → option Z) (k : A → Z).
Import JsArray.

Local Abbreviation two_way := (two_way up down k).

Lemma two_way_subseteq l l' : l' ⊆ l → two_way l → two_way l'.
Proof. intros Hsub Hl x y Hx Hy. apply Hl; by apply Hsub. Qed.

Lemma insert_app_last cmp x y (l : list A) :
  SortCompare cmp x y <= 0 →
  insert cmp x (l ++ [y])%list = (insert cmp x l ++ [y])%list.
Proof.
  intros Hxy. induction l as [|z l IH]; simpl.
  - by destruct (Z.leb_spec (SortCompare cmp x y) 0); [| lia].
  - destruct (SortCompare cmp x z <=? 0); [done | by rewrite IH].
Qed.

Lemma insert_rev x s :
  two_way (x :: s) → Forall (λ y, k y ≠ k x) s →
  StronglySorted (λ a b, k a <= k b) s →
  insert down x (rev s) = rev (insert up x s).
Proof.
  intros Hw Hne Hs. induction Hs as [|y s Hs IH Hy]; [done |].
  apply Forall_cons in Hne as [Hyx Hne].
  destruct (Hw x y) as [Hup Hdown];
    [rewrite !elem_of_cons; auto | rewrite !elem_of_cons; auto |].
  simpl. destruct (Z.leb_spec (SortCompare up x y) 0) as [Hle | Hgt].
  - simpl. rewrite <- (app_nil_r (rev s ++ [y])%list) at 1.
    rewrite insert_skip; [done |].
    apply Forall_app. split.
    + apply Forall_forall. intros z Hz.
      rewrite list_elem_of_In, <- in_rev, <- list_elem_of_In in Hz.
      rewrite Forall_forall in Hy, Hne.
      destruct (Hw x z) as [_ Hdz];
        [rewrite !elem_of_cons; auto | rewrite !elem_of_cons; auto |].
      specialize (Hy z Hz).
      specialize (Hne z Hz). lia.
    + repeat constructor. lia.
  - simpl. rewrite insert_app_last by lia. rewrite IH; [done | | done].
    eapply two_way_subseteq; [| exact Hw].
    intros z. rewrite !elem_of_cons. tauto.
Qed.

Lemma sort_rev l :
  two_way l → NoDup (map k l) →
  sort down l = rev (sort up l).
Proof.
  intros Hw Hnd. induction l as [|x l IH]; [done |].
  change (sort down (x :: l)) with (insert down x (sort down l)).
  change (sort up (x :: l)) with (insert up x (sort up l)).
  apply NoDup_cons in Hnd as [Hx Hnd].
  assert (two_way l) as Hwl.
  { eapply two_way_subseteq; [| exact Hw]. intros z. rewrite elem_of_cons. tauto. }
  rewrite IH by done. apply insert_rev.
  - eapply two_way_subseteq; [| exact Hw].
    intros z. rewrite !elem_of_cons, sort_elem_of. tauto.
  - apply Forall_forall. intros y Hy Heq. apply sort_elem_of in Hy.
    apply Hx. rewrite <- Heq. by apply list_elem_of_fmap_2.
  - apply Sorted_StronglySorted; [intros a b c; lia |].
    assert (consistent up (λ a, Some (k a)) asc l) as Hc.
    { intros a b Ha Hb. exists (k a), (k b). split_and!; [done | done |].
      by destruct (Hwl a b Ha Hb). }
    pose proof (sort_Sorted up (λ a, Some (k a)) asc l Hc) as Hsorted.
    eapply Sorted_ind with (P := Sorted (λ a b, k a <= k b));
      [constructor | | exact Hsorted].
    intros a s _ Hs Hhd. constructor; [done |].
    destruct Hhd as [|b s (ka & kb & [= <-] & [= <-] & Hab)]; by constructor.
Qed.

End ReverseFacts.

(** X4.  When the expiry dates of the matching certificates are valid and
    no two of them are the same instant, the descending table is the
    ascending table read backwards. *)
Theorem sort_toggle_reverses `{Engine} certs search filter :
  let kept := List.filter (cert_keep search filter) certs in
  Forall (λ c, is_Some (expiry_key c)) kept →
  NoDup (map expiry_key kept) →
  Certificates.filteredData certs search filter desc
  = rev (Certificates.filteredData certs search filter asc).
Proof.
  intros kept Hvalid Hdistinct. rewrite !cert_pipeline. fold kept.
  rewrite Forall_forall in Hvalid.
  apply sort_rev with (k := λ c, default 0 (expiry_key c)).
  - intros x y Hx Hy.
    destruct (Hvalid x Hx) as [kx Hkx], (Hvalid y Hy) as [ky Hky].
    unfold JsArray.SortCompare, Certificates.compareExpiry, expiry_key in *.
    rewrite Hkx, Hky. simpl. lia.
  - rewrite <- (map_map expiry_key (default 0)).
    apply NoDup_fmap_2_strong; [| done].
    intros a b Ha Hb Hab.
    apply list_elem_of_fmap in Ha as (x & -> & Hx).
    apply list_elem_of_fmap in Hb as (y & -> & Hy).
    destruct (Hvalid x Hx) as [kx Hkx], (Hvalid y Hy) as [ky Hky].
    rewrite Hkx, Hky in *. simpl in Hab. by subst.
Qed.

Lemma sort_toggle_reverses_witness :
  @Certificates.filteredData Demo.engine Demo.certs12 "" "all" desc
  = rev (@Certificates.filteredData Demo.engine Demo.certs12 "" "all" asc).
Proof.
  apply (@sort_toggle_reverses Demo.engine Demo.certs12 "" "all").
  - change (List.filter (cert_keep "" "all") Demo.certs12) with Demo.certs12.
    repeat constructor; eexists; vm_compute; reflexivity.
  - change (List.filter (cert_keep "" "all") Demo.certs12) with Demo.certs12.
    apply (bool_decide_unpack _). vm_compute. reflexivity.
Defined.

(** ** The options of the filters *)

Lemma Set_values_from (seen values : list string) :
  foldl (λ (seen : list string) v,
           if decide (v ∈ seen) then seen else (seen ++ [v])%list)
    seen values
  = (seen ++ List.filter (λ v, bool_decide (v ∉ seen)) (Set_values values))%list.
Proof.
  unfold Set_values.
  set (F := λ (seen : list string) (v : string),
              if decide (v ∈ seen) then seen else (seen ++ [v])%list).
  revert seen. induction values as [|v values IH]; intros seen.
  - simpl. by rewrite app_nil_r.
  - change (foldl F seen (v :: values)) with (foldl F (F seen v) values).
    change (foldl F [] (v :: values)) with (foldl F (F [] v) values).
    assert (F [] v = [v]) as ->.
    { unfold F. rewrite decide_False; [done | apply not_elem_of_nil]. }
    destruct (decide (v ∈ seen)) as [Hin | Hout].
    + assert (F seen v = seen) as ->
        by (unfold F; by rewrite decide_True).
      rewrite (IH seen), (IH [v]). simpl.
      rewrite bool_decide_false by tauto. rewrite filter_filter_andb.
      f_equal. apply filter_ext. intros x.
      destruct (decide (x ∈ seen)) as [Hx | Hx].
      * rewrite (bool_decide_false (x ∉ seen)) by tauto.
        by rewrite andb_false_r.
      * rewrite (bool_decide_true (x ∉ seen)) by done.
        rewrite andb_true_r. symmetry. apply bool_decide_true.
        rewrite list_elem_of_singleton. by intros ->.
    + assert (F seen v = (seen ++ [v])%list) as ->
        by (unfold F; by rewrite decide_False).
      rewrite (IH (seen ++ [v])%list), (IH [v]). simpl.
      rewrite bool_decide_true by done. rewrite <- (assoc_L app). simpl.
      do 2 f_equal. rewrite filter_filter_andb. apply filter_ext. intros x.
      apply eq_true_iff_eq.
      rewrite andb_true_iff, !bool_decide_eq_true, elem_of_app,
        !list_elem_of_singleton. tauto.
Qed.

(** The distinct values come in the order of their first occurrence. *)
Lemma Set_values_cons v values :
  Set_values (v :: values)
  = v :: List.filter (λ x, bool_decide (x ≠ v)) (Set_values values).
Proof.
  unfold Set_values at 1. simpl.
  rewrite (Set_values_from [v]). simpl. f_equal.
  apply filter_ext. intros x. apply eq_true_iff_eq.
  by rewrite !bool_decide_eq_true, list_elem_of_singleton.
Qed.

Lemma Set_values_elem_of x values : x ∈ Set_values values ↔ x ∈ values.
Proof.
  induction values as [|v values IH]; [done |].
  rewrite Set_values_cons, !elem_of_cons, filter_elem_of, bool_decide_eq_true, IH.
  destruct (decide (x = v)); tauto.
Qed.

Lemma filter_NoDup {A : Type} (p : A → bool) (l : list A) :
  NoDup l → NoDup (List.filter p l).
Proof.
  induction 1 as [|x l Hx _ IH]; simpl; [constructor |].
  destruct (p x); [| done]. constructor; [| done].
  rewrite filter_elem_of. tauto.
Qed.

Lemma Set_values_NoDup values : NoDup (Set_values values).
Proof.
  induction values as [|v values IH]; [constructor |].
  rewrite Set_values_cons. constructor.
  - rewrite filter_elem_of, bool_decide_eq_true. tauto.
  - by apply filter_NoDup.
Qed.

(** X5.  The domain filter offers "all" and then each domain of the
    collection once, in the order in which the domains first occur; with no
    search text, every domain offered selects at least one certificate,
    and only certificates of that domain unless the domain is itself the
    string "all". *)
Theorem domain_options `{Engine} (certs : list Certificate.t) :
  let offered := Set_values (map Certificate.domain certs) in
  map SelectOption.value (Certificates.domains certs) = "all" :: offered
  ∧ map SelectOption.label (Certificates.domains certs)
    = "All Domains" :: offered
  ∧ NoDup offered
  ∧ (∀ d, d ∈ offered ↔ ∃ c, c ∈ certs ∧ Certificate.domain c = d)
  ∧ (∀ c rest, certs = c :: rest →
       offered
       = Certificate.domain c
         :: List.filter (λ x, bool_decide (x ≠ Certificate.domain c))
              (Set_values (map Certificate.domain rest)))
  ∧ (∀ d dir, d ∈ offered →
       (∃ c, c ∈ Certificates.filteredData certs "" d dir)
       ∧ ∀ c, c ∈ Certificates.filteredData certs "" d dir →
              d = "all" ∨ Certificate.domain c = d).
Proof.
  intros offered.
  assert (∀ d, d ∈ offered ↔ ∃ c, c ∈ certs ∧ Certificate.domain c = d)
    as Hoffered.
  { intros d. subst offered. rewrite Set_values_elem_of, list_elem_of_fmap.
    split; intros (c & ? & ?); exists c; by split. }
  split_and!.
  - unfold Certificates.domains. simpl. by rewrite map_map, map_id.
  - unfold Certificates.domains. simpl. by rewrite map_map, map_id.
  - apply Set_values_NoDup.
  - done.
  - intros c rest ->. apply Set_values_cons.
  - intros d dir Hd. split.
    + apply Hoffered in Hd as (c & Hc & Hdom). exists c.
      apply cert_filtered_elem_of. split_and!; [done | by left | by right].
    + intros c Hc.
      apply cert_filtered_elem_of in Hc as (_ & _ & [? | ?]); auto.
Qed.

Lemma domain_options_witness :
  ∃ c, c ∈ @Certificates.filteredData Demo.engine Demo.certs12 ""
             "vpn.local" asc.
Proof.
  refine (proj1 (proj2 (proj2 (proj2 (proj2 (proj2
            (@domain_options Demo.engine Demo.certs12)))))
            "vpn.local" asc _)).
  vm_compute.
  do 7 apply list_elem_of_further. apply list_elem_of_here.
Defined.

Lemma lower_upper_word_unit c :
  JsString.lower_unit (JsString.upper_word_unit c) = JsString.lower_unit c.
Proof. destruct c as [[] [] [] [] [] [] [] []]; reflexivity. Qed.

Lemma upper_word_unit_keeps_clear c :
  c ≠ "."%char → c ≠ "_"%char →
  JsString.upper_word_unit c ≠ "."%char ∧ JsString.upper_word_unit c ≠ "_"%char.
Proof.
  destruct c as [[] [] [] [] [] [] [] []]; intros Hdot Hund;
    vm_compute; split; congruence.
Qed.

Lemma separators_to_spaces_clear t :
  Forall (λ c, c ≠ "."%char ∧ c ≠ "_"%char)
    (list_ascii_of_string (AuditLogs.separators_to_spaces t)).
Proof.
  induction t as [|c t IH]; simpl; constructor; [| done].
  destruct (Ascii.eqb_spec c "."), (Ascii.eqb_spec c "_"); simpl;
    split; congruence.
Qed.

Lemma capitalize_words_clear after s :
  Forall (λ c, c ≠ "."%char ∧ c ≠ "_"%char) (list_ascii_of_string s) →
  Forall (λ c, c ≠ "."%char ∧ c ≠ "_"%char)
    (list_ascii_of_string (AuditLogs.capitalize_words after s)).
Proof.
  revert after. induction s as [|c s IH]; intros after Hs; simpl; [done |].
  simpl in Hs. apply Forall_cons in Hs as [[Hdot Hund] Hs].
  constructor; [| by apply IH].
  destruct (JsString.isWordChar c && negb after); [| done].
  by apply upper_word_unit_keeps_clear.
Qed.

Lemma capitalize_words_length after s :
  String.length (AuditLogs.capitalize_words after s) = String.length s.
Proof.
  revert after. induction s as [|c s IH]; intros after; simpl; [done |].
  by rewrite IH.
Qed.

Lemma capitalize_words_lower after s :
  JsString.lower_ascii (AuditLogs.capitalize_words after s)
  = JsString.lower_ascii s.
Proof.
  revert after. induction s as [|c s IH]; intros after; simpl; [done |].
  rewrite IH. f_equal.
  destruct (JsString.isWordChar c && negb after); [| done].
  apply lower_upper_word_unit.
Qed.

Lemma separators_to_spaces_length t :
  String.length (AuditLogs.separators_to_spaces t) = String.length t.
Proof. induction t as [|c t IH]; simpl; [done | by rewrite IH]. Qed.

Example actionLabel_example :
  AuditLogs.actionLabel "certificate.expiry_warning"
  = "Certificate Expiry Warning".
Proof. reflexivity. Qed.

(** X6.  The label of an action type is as long as the type, holds no dot
    and no underscore, and differs from the type with its dots and
    underscores turned into blanks only in the case of letters. *)
Theorem action_label_shape (t : string) :
  String.length (AuditLogs.actionLabel t) = String.length t
  ∧ JsString.lower_ascii (AuditLogs.actionLabel t)
    = JsString.lower_ascii (AuditLogs.separators_to_spaces t)
  ∧ Forall (λ c, c ≠ "."%char ∧ c ≠ "_"%char)
      (list_ascii_of_string (AuditLogs.actionLabel t)).
Proof.
  unfold AuditLogs.actionLabel. split_and!.
  - by rewrite capitalize_words_length, separators_to_spaces_length.
  - apply capitalize_words_lower.
  - apply capitalize_words_clear, separators_to_spaces_clear.
Qed.

(** X7.  The action filter offers "all" and then each action type of the
    logs once, in the order in which the types first occur, each under its
    label; with no date range, every type offered selects at least one
    log, and only logs of that type unless the type is itself the string
    "all". *)
Theorem action_options `{Engine} (logs : list AuditLog.t) :
  let offered := Set_values (map AuditLog.actionType logs) in
  let noRange := AuditLogs.mkRange None None in
  map SelectOption.value (AuditLogs.actionTypes logs) = "all" :: offered
  ∧ map SelectOption.label (AuditLogs.actionTypes logs)
    = "All Actions" :: map AuditLogs.actionLabel offered
  ∧ NoDup offered
  ∧ (∀ t, t ∈ offered ↔ ∃ l, l ∈ logs ∧ AuditLog.actionType l = t)
  ∧ (∀ l rest, logs = l :: rest →
       offered
       = AuditLog.actionType l
         :: List.filter (λ x, bool_decide (x ≠ AuditLog.actionType l))
              (Set_values (map AuditLog.actionType rest)))
  ∧ (∀ t, t ∈ offered →
       (∃ l, l ∈ AuditLogs.filteredData logs t noRange)
       ∧ ∀ l, l ∈ AuditLogs.filteredData logs t noRange →
              t = "all" ∨ AuditLog.actionType l = t).
Proof.
  intros offered noRange.
  assert (∀ t, t ∈ offered ↔ ∃ l, l ∈ logs ∧ AuditLog.actionType l = t)
    as Hoffered.
  { intros t. subst offered. rewrite Set_values_elem_of, list_elem_of_fmap.
    split; intros (l & ? & ?); exists l; by split. }
  split_and!.
  - unfold AuditLogs.actionTypes. simpl. by rewrite map_map, map_id.
  - unfold AuditLogs.actionTypes. simpl. by rewrite map_map.
  - apply Set_values_NoDup.
  - done.
  - intros l rest ->. apply Set_values_cons.
  - intros t Ht. split.
    + apply Hoffered in Ht as (l & Hl & Htype). exists l.
      apply log_filtered_elem_of. split_and!; [done | by right |]; done.
    + intros l Hl.
      apply log_filtered_elem_of in Hl as (_ & [? | ?] & _); auto.
Qed.

Lemma action_options_witness :
  ∃ l, l ∈ @AuditLogs.filteredData Demo.engine Demo.logs3 "ssh_key.create"
             (AuditLogs.mkRange None None).
Proof.
  refine (proj1 (proj2 (proj2 (proj2 (proj2 (proj2
            (@action_options Demo.engine Demo.logs3)))))
            "ssh_key.create" _)).
  vm_compute. apply list_elem_of_further, list_elem_of_here.
Defined.

(** ** All the pages together *)

Lemma concat_pages {A : Type} (l : list A) (P n : nat) :
  concat (map (λ i, take P (drop (i * P) l)) (seq 0 n)) = take (n * P) l.
Proof.
  induction n as [|n IH]; [done |].
  rewrite seq_S, map_app, concat_app, IH. simpl.
  rewrite app_nil_r, take_take_drop. f_equal. lia.
Qed.

Lemma page_at_slice `{Engine} (s : Certificates.State) (k : Z) :
  page_at s k
  = JsArray.slice (Certificates.filtered s)
      ((k - 1) * Certificates.pageSize s) (k * Certificates.pageSize s).
Proof. reflexivity. Qed.

(** X8.  With a page size above zero, the pages 1 to [totalPages], one
    after the other, are the filtered collection: every record is on one
    page and on one only.  A page index past the last page shows no row,
    and neither does page index 0. *)
Theorem pages_partition `{Engine} (s : Certificates.State) (t : Z) :
  0 < Certificates.pageSize s →
  Certificates.totalPages s = Some t →
  concat (map (λ i : nat, page_at s (Z.of_nat i + 1)) (seq 0 (Z.to_nat t)))
    = Certificates.filtered s
  ∧ (∀ k, t < k → page_at s k = [])
  ∧ page_at s 0 = [].
Proof.
  intros HP Ht.
  destruct (Math_ceil_div_spec (Z.of_nat (length (Certificates.filtered s)))
              (Certificates.pageSize s) HP) as (t' & Ht' & Hlo & Hhi).
  unfold Certificates.totalPages in Ht. rewrite Ht' in Ht.
  injection Ht as ->.
  set (P := Certificates.pageSize s) in *.
  set (l := Certificates.filtered s) in *.
  assert (0 <= t) as Htpos by nia.
  split_and!.
  - rewrite (map_ext _ (λ i, take (Z.to_nat P) (drop (i * Z.to_nat P) l))).
    + rewrite concat_pages. apply take_ge. nia.
    + intros i. rewrite page_at_slice. fold P l.
      rewrite page_slice by lia. do 2 f_equal. nia.
  - intros k Hk. rewrite page_at_slice. fold P l.
    rewrite page_slice by lia. rewrite drop_ge; [apply take_nil | nia].
  - rewrite page_at_slice. fold P l. unfold JsArray.slice.
    destruct (Z.ltb_spec ((0 - 1) * P) 0); [| lia].
    destruct (Z.ltb_spec (0 * P) 0); [lia |].
    replace (Z.max (Z.min (0 * P) (Z.of_nat (length l))
                    - Z.max (Z.of_nat (length l) + (0 - 1) * P) 0) 0)
      with 0 by lia.
    done.
Qed.

Lemma pages_partition_witness :
  concat (map (λ i : nat,
                 @page_at Demo.engine Demo.certs_loaded (Z.of_nat i + 1))
            (seq 0 3))
  = @Certificates.filtered Demo.engine Demo.certs_loaded.
Proof.
  refine (proj1 (@pages_partition Demo.engine Demo.certs_loaded 3 _ _)).
  - vm_compute. reflexivity.
  - vm_compute. reflexivity.
Defined.

(** ** A saved name and the rows on screen *)

Lemma filter_map {A B : Type} (p : B → bool) (f : A → B) (l : list A) :
  List.filter p (map f l) = map f (List.filter (λ x, p (f x)) l).
Proof.
  induction l as [|x l IH]; simpl; [done |].
  destruct (p (f x)); simpl; by rewrite IH.
Qed.

Lemma sort_map {A : Type} (comparefn : A → A → option Z) (f : A → A)
    (l : list A) :
  (∀ a b, comparefn (f a) (f b) = comparefn a b) →
  JsArray.sort comparefn (map f l) = map f (JsArray.sort comparefn l).
Proof.
  intros Hf.
  assert (∀ x s, JsArray.insert comparefn (f x) (map f s)
                 = map f (JsArray.insert comparefn x s)) as Hins.
  { intros x s. induction s as [|y s IH]; simpl; [done |].
    unfold JsArray.SortCompare. rewrite Hf.
    destruct (default 0 (comparefn x y) <=? 0); simpl; [done | by rewrite IH]. }
  induction l as [|x l IH]; [done |].
  change (JsArray.sort comparefn (map f (x :: l)))
    with (JsArray.insert comparefn (f x) (JsArray.sort comparefn (map f l))).
  rewrite IH. apply Hins.
Qed.

Lemma slice_map {A : Type} (f : A → A) (l : list A) (start stop : Z) :
  JsArray.slice (map f l) start stop = map f (JsArray.slice l start stop).
Proof.
  unfold JsArray.slice. rewrite length_map.
  change (map f l) with (f <$> l).
  by rewrite <- fmap_drop, <- fmap_take.
Qed.

Lemma rename_fields editing name c :
  Certificate.id (rename editing name c) = Certificate.id c
  ∧ Certificate.domain (rename editing name c) = Certificate.domain c
  ∧ Certificate.expiryDate (rename editing name c) = Certificate.expiryDate c
  ∧ unnamed (rename editing name c) = unnamed c.
Proof.
  unfold rename. by destruct (String.eqb _ _).
Qed.

Lemma rename_pipeline `{Engine} certs editing name filter d :
  Certificates.filteredData (map (rename editing name) certs) "" filter d
  = map (rename editing name) (Certificates.filteredData certs "" filter d).
Proof.
  rewrite !cert_pipeline, filter_map.
  rewrite (filter_ext _ (cert_keep "" filter)).
  - apply sort_map. intros a b. unfold Certificates.compareExpiry.
    destruct (rename_fields editing name a) as (_ & _ & -> & _).
    by destruct (rename_fields editing name b) as (_ & _ & -> & _).
  - intros c. unfold cert_keep. simpl.
    by destruct (rename_fields editing name c) as (_ & -> & _).
Qed.

Section SaveFacts.
Context `{Engine} `{JSON (list Certificate.t)} `{Assets}.
Import Certificates.

(** A save in a reachable state with a name that is not blank commits. *)
Lemma save_commits s editing :
  reachable s → editingCert s = Some editing →
  String_trim (editName s) ≠ "" →
  let name := String_trim (editName s) in
  let s' := step SaveClicked s in
  certificates s' = map (rename editing name) (certificates s)
  ∧ debouncedSearch s' = debouncedSearch s
  ∧ domainFilter s' = domainFilter s
  ∧ sortDirection s' = sortDirection s
  ∧ pageSize s' = pageSize s
  ∧ currentPage s' = currentPage s.
Proof.
  intros Hreach Hediting Hname name s'.
  destruct (reachable_inv s Hreach) as (_ & _ & Hedit & _ & Hcrash & _).
  destruct Hedit as [Hne Herr]; [by rewrite Hediting |].
  assert (crashed s = false) as Hcr.
  { destruct (crashed s); [| done]. by destruct Hcrash. }
  assert (s' = runEffects s (handleSaveEdit s)) as ->.
  { subst s'. unfold step. simpl. unfold pageShown, shown, surface.
    rewrite Herr, Hediting, Hcr. simpl. destruct (loading s); reflexivity. }
  rewrite runEffects_currentPage.
  destruct (runEffects_view s (handleSaveEdit s))
    as (-> & -> & -> & -> & -> & _).
  unfold handleSaveEdit. rewrite Hediting.
  apply truthy_true in Hname. rewrite Hname. simpl.
  unfold pageDepsChanged. simpl.
  by rewrite !String.eqb_refl, Z.eqb_refl.
Qed.

End SaveFacts.

(** X9.  A committed name edit made while no search text is active keeps
    the table in place: the filtered collection and the page shown are the
    ones from before with the new name written in, in the same order and
    at the same page index. *)
Theorem save_keeps_rows `{Engine} `{JSON (list Certificate.t)} `{Assets}
    (s : Certificates.State) (editing : Certificate.t) :
  Certificates.reachable s →
  Certificates.editingCert s = Some editing →
  String_trim (Certificates.editName s) ≠ "" →
  Certificates.debouncedSearch s = "" →
  let name := String_trim (Certificates.editName s) in
  let s' := Certificates.step Certificates.SaveClicked s in
  Certificates.filtered s' = map (rename editing name) (Certificates.filtered s)
  ∧ Certificates.paginatedData s'
    = map (rename editing name) (Certificates.paginatedData s)
  ∧ Certificates.currentPage s' = Certificates.currentPage s.
Proof.
  intros Hreach Hediting Hname Hsearch name s'.
  destruct (save_commits s editing Hreach Hediting Hname)
    as (Hc & Hd & Hf & Hdir & Hp & Hk).
  fold s' name in Hc, Hd, Hf, Hdir, Hp, Hk.
  assert (Certificates.filtered s'
          = map (rename editing name) (Certificates.filtered s)) as Hrows.
  { unfold Certificates.filtered. rewrite Hc, Hd, Hf, Hdir, Hsearch.
    apply rename_pipeline. }
  split_and!; [done | | done].
  unfold Certificates.paginatedData. rewrite Hrows, Hp, Hk.
  apply slice_map.
Qed.

Lemma save_keeps_rows_witness :
  map Certificate.name
    (@Certificates.paginatedData Demo.engine
       (@Certificates.step Demo.engine Demo.json_certs Demo.assets
          Certificates.SaveClicked Demo.certs_named_edit))
  = ["Office VPN"; "API gateway"; "Shop"; "Main site"; "Status page"].
Proof.
  refine (eq_trans (f_equal (map Certificate.name)
            (proj1 (proj2 (@save_keeps_rows Demo.engine Demo.json_certs
                             Demo.assets Demo.certs_named_edit
                             (Demo.cert "c08" "VPN" "vpn.local" "Internal CA"
                                "2025-01-02") _ _ _ _)))) _).
  - apply reachable_run. constructor.
  - vm_compute. reflexivity.
  - vm_compute. discriminate.
  - vm_compute. reflexivity.
  - vm_compute. reflexivity.
Defined.

(** ** Reloading, and what no event changes *)

(** X10.  Reloading the certificates page after a successful load: when
    the collection in memory is not empty and its serialisation parses
    back to it, a fresh mount on the storage the page has left loads that
    same collection, edits included, and is ready. *)
Theorem edits_survive_reload `{Engine} `{JSON (list Certificate.t)} `{Assets}
    (s : Certificates.State) :
  Certificates.reachable s →
  Certificates.pending s = None →
  Certificates.certificates s ≠ [] →
  JSON_stringify (Certificates.certificates s) ≠ "" →
  JSON_parse (JSON_stringify (Certificates.certificates s))
    = Records (Certificates.certificates s) →
  let reloaded :=
    Certificates.step Certificates.LoadResumes
      (Certificates.mount (Certificates.localStorage s)) in
  Certificates.certificates reloaded = Certificates.certificates s
  ∧ Certificates.shown reloaded = Ready.
Proof.
  intros Hreach Hp Hne Htext Hround reloaded.
  destruct (reachable_inv s Hreach) as (_ & _ & _ & Hstore & _).
  specialize (Hstore Hp Hne).
  destruct (cert_load_parsed (Certificates.localStorage s) _ _
              Hstore Htext Hround) as (Hc & Hs & _).
  done.
Qed.

Lemma edits_survive_reload_witness :
  Certificates.certificates
    (@Certificates.step Demo.engine Demo.json_certs Demo.assets
       Certificates.LoadResumes
       (Certificates.mount (Certificates.localStorage Demo.certs_loaded)))
  = Certificates.certificates Demo.certs_loaded.
Proof.
  refine (proj1 (@edits_survive_reload Demo.engine Demo.json_certs Demo.assets
                   Demo.certs_loaded _ _ _ _ _)).
  - apply reachable_run. constructor.
  - vm_compute. reflexivity.
  - vm_compute. discriminate.
  - vm_compute. discriminate.
  - vm_compute. reflexivity.
Defined.

Section CertificatesRecords.
Context `{Engine} `{JSON (list Certificate.t)} `{Assets}.
Import Certificates.

Lemma step_records e s :
  pending s = None → e ≠ RetryClicked ∨ error s = None →
  pending (step e s) = None
  ∧ (error s = None → error (step e s) = None)
  ∧ map unnamed (certificates (step e s)) = map unnamed (certificates s).
Proof.
  intros Hp Hretry. unfold step. destruct (enabled e s) eqn:Hen; [| done].
  destruct (runEffects_view s (handler e s))
    as (-> & _ & _ & _ & _ & _ & -> & -> & _).
  destruct e; simpl in *; try done.
  - by rewrite Hp in Hen.
  - unfold handleSaveEdit. destruct (editingCert s) as [editing|]; [| done].
    destruct (JsString.truthy _); [| done]. simpl. split_and!; [done | done |].
    rewrite map_map. apply map_ext. intros c.
    apply (rename_fields editing _ c).
  - destruct Hretry as [Hne | He]; [done |].
    unfold shown, surface in Hen. rewrite He in Hen.
    by destruct (crashed s), (loading s).
Qed.

Lemma run_records es s :
  pending s = None →
  Forall (λ e, e ≠ RetryClicked) es ∨ error s = None →
  map unnamed (certificates (run es s)) = map unnamed (certificates s).
Proof.
  revert s. induction es as [|e es IH]; intros s Hp Hretry; [done |].
  change (run (e :: es) s) with (run es (step e s)).
  destruct (step_records e s Hp) as (Hp' & He' & Hsame).
  - destruct Hretry as [Hes | He]; [left; by inversion Hes | by right].
  - rewrite IH; [done | done |].
    destruct Hretry as [Hes | He]; [left; by inversion Hes | right; auto].
Qed.

(** A load that has failed fails again: the states of a page whose cache
    slot holds a text on which [JSON.parse] throws, after the error or
    while a reload is under way. *)
Lemma error_failed s : cert_inv s → shown s = Error → cert_failed s.
Proof.
  intros (_ & Herror & Hedit & _ & _ & _ & Hfail) Hshown.
  assert (error s ≠ None) as Herr.
  { intros He. unfold shown, surface in Hshown. rewrite He in Hshown.
    by destruct (crashed s), (loading s). }
  destruct Herror as [He | [He Hnil]]; [done |].
  destruct (Hfail Herr) as (Hp & Hcr & text & Hslot & Htext & Hparse).
  unfold cert_failed. split_and!; [done | done | | by eauto | by left].
  destruct (editingCert s); [| done].
  destruct Hedit as [_ Hnone]; [by eexists | congruence].
Qed.

Lemma failed_frame s next :
  cert_failed s →
  certificates next = [] → pending next = pending s → error next = error s →
  loading next = loading s → crashed next = crashed s →
  editingCert next = None → localStorage next = localStorage s →
  certificatesRef next = certificatesRef s →
  cert_failed (runEffects s next)
  ∧ localStorage (runEffects s next) = localStorage s.
Proof.
  intros (Hnil & Hcr & Hed & Htext & Hphase) Hc Hp He Hld Hcr' Hed' Hls Href.
  destruct (runEffects_view s next)
    as (Vc & _ & _ & _ & _ & Vl & Ve & Vp & Vd & _ & _ & Vcr & _).
  split; [| by rewrite runEffects_storage_same].
  unfold cert_failed.
  rewrite Vc, Vl, Ve, Vp, Vd, Vcr, runEffects_storage_same by done.
  by rewrite Hc, Hp, He, Hld, Hcr', Hed', Hls.
Qed.

Lemma failed_step e s :
  cert_failed s →
  cert_failed (step e s) ∧ localStorage (step e s) = localStorage s.
Proof.
  intros Hfailed.
  pose proof Hfailed
    as (Hnil & Hcr & Hed & (text & Hslot & Htext & Hparse) & Hphase).
  unfold step. destruct (enabled e s) eqn:Hen; [| done].
  assert (rowsShown s = false) as Hrows.
  { unfold rowsShown, shown, surface. rewrite Hcr.
    by destruct Hphase as [[_ ->] | (_ & -> & ->)]. }
  destruct e; simpl in Hen |- *; rewrite ?Hrows, ?Hed, ?andb_false_r in Hen;
    try discriminate Hen; try (by apply failed_frame).
  - destruct Hphase as [[Hp _] | (Hp & He & Hld)]; [by rewrite Hp in Hen |].
    rewrite Hp. unfold loadData_resume, getItem. rewrite Hslot, Htext, Hparse.
    destruct (runEffects_view s
      (set_loading false
         (set_error (Some "Failed to load certificates") (set_pending None s))))
      as (Vc & _ & _ & _ & _ & _ & Ve & Vp & Vd & _ & _ & Vcr & _).
    split; [| by rewrite runEffects_storage_same]. unfold cert_failed.
    rewrite Vc, Ve, Vp, Vd, Vcr, runEffects_storage_same by done. simpl.
    split_and!; [done | done | done | by eauto | by left].
  - rewrite runEffects_mount. split; [| done].
    unfold cert_failed. simpl. split_and!; [done | done | done | by eauto |].
    by right.
Qed.

Lemma failed_run es s :
  cert_failed s →
  cert_failed (run es s) ∧ localStorage (run es s) = localStorage s.
Proof.
  revert s. induction es as [|e es IH]; intros s Hs; [done |].
  change (run (e :: es) s) with (run es (step e s)).
  destruct (failed_step e s Hs) as [Hs' Hls].
  destruct (IH _ Hs') as [Hs'' Hls']. split; [done | congruence].
Qed.

End CertificatesRecords.

(** X11.  Once [loadData] has resumed, no run of events on the
    certificates page adds, removes or reorders a record, or changes any
    field of a record other than its name: from any state when the run
    holds no reload, and from every state the page can reach when it holds
    reloads as well (a reload is only offered after a failed load, and
    then loads nothing). *)
Theorem records_only_renamed `{Engine} `{JSON (list Certificate.t)} `{Assets}
    (s : Certificates.State) (es : list Certificates.Event) :
  Certificates.pending s = None →
  Forall (λ e, e ≠ Certificates.RetryClicked) es ∨ Certificates.reachable s →
  map unnamed (Certificates.certificates (Certificates.run es s))
  = map unnamed (Certificates.certificates s).
Proof.
  intros Hp [Hes | Hreach]; [apply run_records; by auto |].
  pose proof (reachable_inv s Hreach) as Hinv.
  destruct (proj1 (proj2 Hinv)) as [He | [He Hnil]];
    [apply run_records; by auto |].
  assert (cert_failed s) as Hfailed.
  { apply error_failed; [done |].
    destruct Hinv as (_ & _ & _ & _ & _ & _ & Hfail).
    destruct Hfail as (_ & Hcr & _); [by rewrite He |].
    unfold Certificates.shown, surface. by rewrite Hcr, He. }
  destruct (failed_run es s Hfailed) as [(Hnil' & _) _].
  by rewrite Hnil', Hnil.
Qed.

Lemma records_only_renamed_witness :
  map unnamed
    (Certificates.certificates
       (@Certificates.run Demo.engine Demo.json_certs Demo.assets
          [Certificates.EditClicked
             (Demo.cert "c08" "VPN" "vpn.local" "Internal CA" "2025-01-02");
           Certificates.EditNameInput "  Office VPN ";
           Certificates.SaveClicked]
          Demo.certs_loaded))
  = map unnamed (Certificates.certificates Demo.certs_loaded)
  ∧ map unnamed
      (Certificates.certificates
         (@Certificates.run Demo.engine Demo.json_certs Demo.assets
            [Certificates.RetryClicked; Certificates.LoadResumes]
            Demo.certs_broken_cache))
    = map unnamed (Certificates.certificates Demo.certs_broken_cache).
Proof.
  split.
  - apply (@records_only_renamed Demo.engine Demo.json_certs Demo.assets);
      [vm_compute; reflexivity |].
    left. repeat constructor; discriminate.
  - apply (@records_only_renamed Demo.engine Demo.json_certs Demo.assets);
      [vm_compute; reflexivity |].
    right. apply reachable_run. constructor.
Defined.

(** Why a run with Try Again is taken from a state the page can reach: in
    a state made up of an error over a collection, which no session
    reaches, the reload would drop the collection. *)
Example retry_drops_unreachable_collection :
  let s := Certificates.set_pending None
             (Certificates.set_error (Some "e")
                (Certificates.set_certificates Demo.certs3
                   (Certificates.mount ∅))) in
  Certificates.pending s = None
  ∧ Certificates.certificates
      (@Certificates.step Demo.engine Demo.json_certs Demo.assets
         Certificates.RetryClicked s) = [].
Proof. split; vm_compute; reflexivity. Qed.

(** ** The audit logs: expansion and reveal *)

Section AuditLogsMore.
Context `{Engine} `{JSON (list AuditLog.t)} `{Assets}.
Import AuditLogs.

Lemma runEffects_expanded prev next :
  expandedRows (runEffects prev next) = expandedRows next.
Proof. unfold runEffects. by destruct (filterDepsChanged prev next). Qed.

Lemma loadData_resume_expanded cached s :
  expandedRows (loadData_resume cached s) = expandedRows s.
Proof.
  unfold loadData_resume.
  destruct cached as [text|]; [destruct (JsString.truthy text);
    [destruct (JSON_parse text) |] |]; reflexivity.
Qed.

Lemma step_expanded_other e s :
  (∀ id, e ≠ RowClicked id) → expandedRows (step e s) = expandedRows s.
Proof.
  intros He. unfold step. destruct (enabled e s); [| done].
  rewrite runEffects_expanded. destruct e; simpl; try done.
  - destruct (pending s); [| done]. by rewrite loadData_resume_expanded.
  - unfold handleObserver. by destruct (_ && _).
  - by destruct (He id).
Qed.

Lemma step_row_clicked id s :
  step (RowClicked id) s
  = if enabled (RowClicked id) s
    then set_expandedRows (toggleRow id (expandedRows s)) s else s.
Proof.
  unfold step. destruct (enabled (RowClicked id) s); [| done].
  unfold runEffects, filterDepsChanged. simpl.
  by rewrite String.eqb_refl, Nat.eqb_refl.
Qed.

(** A sentinel notification on a page that shows its rows. *)
Lemma step_sentinel_ready s :
  shown s = Ready →
  let s' := step (SentinelObserved true) s in
  shown s' = Ready ∧ filtered s' = filtered s
  ∧ displayCount s'
    = if displayCount s <? Z.of_nat (length (filtered s))
      then Z.min (displayCount s + PAGE_SIZE) (Z.of_nat (length (filtered s)))
      else displayCount s.
Proof.
  intros Hshown s'.
  assert (pageShown s = true ∧ loading s = false) as [Hpage Hload].
  { unfold pageShown. rewrite Hshown. split; [done |].
    unfold shown, surface in Hshown. destruct (crashed s); [done |].
    destruct (from_option JsString.truthy false (error s)); [done |].
    by destruct (loading s). }
  pose proof (step_sentinel true s) as Hcount. fold s' in Hcount.
  rewrite Hpage, Hload in Hcount. simpl in Hcount. unfold hasMore in Hcount.
  rewrite andb_true_r in Hcount.
  assert (s' = runEffects s (handleObserver true s)) as Hs'.
  { subst s'. unfold step. simpl. by rewrite Hpage. }
  destruct (handleObserver_view true s) as (Hl & Hf & Hr & _ & _).
  split_and!; [| | done].
  - rewrite Hs'. unfold shown.
    destruct (runEffects_logs_view s (handleObserver true s))
      as (_ & _ & _ & _ & -> & -> & _).
    destruct (runEffects_logs_crashed s (handleObserver true s)) as (-> & _).
    unfold shown in Hshown. unfold handleObserver. by destruct (_ && _).
  - rewrite Hs', filtered_runEffects_logs. unfold filtered.
    by rewrite Hl, Hf, Hr.
Qed.

Lemma reveal_run n s :
  shown s = Ready → 0 <= displayCount s →
  Z.of_nat (length (filtered s)) <= displayCount s + PAGE_SIZE * Z.of_nat n →
  let s' := run (replicate n (SentinelObserved true)) s in
  filtered s' = filtered s
  ∧ Z.of_nat (length (filtered s)) <= displayCount s'.
Proof.
  revert s. induction n as [|n IH]; intros s Hshown Hdc Hn; simpl.
  - split; [done | lia].
  - destruct (step_sentinel_ready s Hshown) as (Hshown' & Hf & Hcount).
    change (run (SentinelObserved true :: replicate n (SentinelObserved true)) s)
      with (run (replicate n (SentinelObserved true))
              (step (SentinelObserved true) s)).
    destruct (IH (step (SentinelObserved true) s)) as [Hf' Hdone].
    + done.
    + rewrite Hcount. destruct (_ <? _); unfold PAGE_SIZE; lia.
    + rewrite Hf, Hcount.
      destruct (Z.ltb_spec (displayCount s) (Z.of_nat (length (filtered s))));
        unfold PAGE_SIZE in *; lia.
    + rewrite Hf in Hf', Hdone. done.
Qed.

End AuditLogsMore.

(** X12.  The expansion set of the audit-log page changes by a row click
    and by nothing else: loading, filter changes, date ranges and sentinel
    notifications leave it as it is; and a row click changes nothing but
    the expansion set: the state after it is the state before it with the
    row toggled in the set, every other cell (logs, loading, error, filter,
    date range, display count, pending load, storage) being the same. *)
Theorem expansion_independent `{Engine} `{JSON (list AuditLog.t)} `{Assets}
    (s : AuditLogs.State) :
  (∀ e, (∀ id, e ≠ AuditLogs.RowClicked id) →
        AuditLogs.expandedRows (AuditLogs.step e s) = AuditLogs.expandedRows s)
  ∧ ∀ id,
      let s' := AuditLogs.step (AuditLogs.RowClicked id) s in
      s' = (if AuditLogs.enabled (AuditLogs.RowClicked id) s
            then AuditLogs.set_expandedRows
                   (toggleRow id (AuditLogs.expandedRows s)) s
            else s)
      ∧ AuditLogs.logs s' = AuditLogs.logs s
      ∧ AuditLogs.loading s' = AuditLogs.loading s
      ∧ AuditLogs.error s' = AuditLogs.error s
      ∧ AuditLogs.actionTypeFilter s' = AuditLogs.actionTypeFilter s
      ∧ AuditLogs.dateRange s' = AuditLogs.dateRange s
      ∧ AuditLogs.dateRangeRef s' = AuditLogs.dateRangeRef s
      ∧ AuditLogs.displayCount s' = AuditLogs.displayCount s
      ∧ AuditLogs.pending s' = AuditLogs.pending s
      ∧ AuditLogs.localStorage s' = AuditLogs.localStorage s
      ∧ AuditLogs.crashed s' = AuditLogs.crashed s
      ∧ AuditLogs.shown s' = AuditLogs.shown s
      ∧ AuditLogs.expandedRows s'
        = if AuditLogs.enabled (AuditLogs.RowClicked id) s
          then toggleRow id (AuditLogs.expandedRows s)
          else AuditLogs.expandedRows s.
Proof.
  split.
  - intros e He. by apply step_expanded_other.
  - intros id s'. subst s'. rewrite step_row_clicked.
    by destruct (AuditLogs.enabled (AuditLogs.RowClicked id) s).
Qed.

Lemma expansion_independent_witness :
  AuditLogs.expandedRows
    (@AuditLogs.step Demo.engine Demo.json_logs Demo.assets
       (AuditLogs.ActionSelected "ssh_key.create") Demo.logs_loaded)
  = AuditLogs.expandedRows Demo.logs_loaded.
Proof.
  apply (proj1 (@expansion_independent Demo.engine Demo.json_logs Demo.assets
                  Demo.logs_loaded)).
  intros id. discriminate.
Defined.

(** X13.  On a ready audit-log page, sentinel notifications bring all the
    rows: after [n] of them, with [n] pages enough to cover what was not
    yet shown, the rows shown are the whole filtered collection and no more
    remain to be loaded. *)
Theorem reveal_completes `{Engine} `{JSON (list AuditLog.t)} `{Assets}
    (s : AuditLogs.State) (n : nat) :
  AuditLogs.shown s = Ready →
  0 <= AuditLogs.displayCount s →
  Z.of_nat (length (AuditLogs.filtered s))
    <= AuditLogs.displayCount s + AuditLogs.PAGE_SIZE * Z.of_nat n →
  let s' :=
    AuditLogs.run (replicate n (AuditLogs.SentinelObserved true)) s in
  AuditLogs.displayedData s' = AuditLogs.filtered s
  ∧ AuditLogs.hasMore s' = false.
Proof.
  intros Hshown Hdc Hn s'.
  destruct (reveal_run n s Hshown Hdc Hn) as [Hf Hdone]. fold s' in Hf, Hdone.
  split.
  - unfold AuditLogs.displayedData. rewrite Hf.
    rewrite slice_nonneg by lia. rewrite drop_0. apply take_ge. lia.
  - unfold AuditLogs.hasMore. rewrite Hf. apply Z.ltb_ge. lia.
Qed.

Lemma reveal_completes_witness :
  length
    (@AuditLogs.displayedData Demo.engine
       (@AuditLogs.run Demo.engine Demo.json_logs Demo.assets
          (replicate 1 (AuditLogs.SentinelObserved true)) Demo.logs_loaded))
  = 10%nat.
Proof.
  refine (eq_trans (f_equal length
            (proj1 (@reveal_completes Demo.engine Demo.json_logs Demo.assets
                      Demo.logs_loaded 1 _ _ _))) _);
    vm_compute; try reflexivity; discriminate.
Defined.

(** ** The Code Signing page *)

Section CodeSigningFacts.
Context `{JSON (list CodeSigningKey.t)} `{CodeSigningAssets}.
Import CodeSigning.

Lemma key_slots_differ : VIEW_MODE_KEY ≠ CACHE_KEY.
Proof. discriminate. Qed.

Lemma loadData_resume_view_mode cached s :
  viewMode (loadData_resume cached s) = viewMode s
  ∧ localStorage (loadData_resume cached s) !! VIEW_MODE_KEY
    = localStorage s !! VIEW_MODE_KEY.
Proof.
  unfold loadData_resume.
  destruct cached as [text|]; [destruct (JsString.truthy text);
    [destruct (JSON_parse text) |] |]; simpl; split; try done;
    unfold setItem; by rewrite lookup_insert_ne.
Qed.

(** A render that throws changes no cell. *)
Lemma render_view s :
  keys (render s) = keys s ∧ viewMode (render s) = viewMode s
  ∧ localStorage (render s) = localStorage s ∧ pending (render s) = pending s
  ∧ loading (render s) = loading s ∧ error (render s) = error s
  ∧ notArray (render s) = notArray s.
Proof. unfold render. by destruct (renderThrows s). Qed.

Lemma initialViewMode_slot ls ls' :
  ls' !! VIEW_MODE_KEY = ls !! VIEW_MODE_KEY →
  initialViewMode ls' = initialViewMode ls.
Proof. unfold initialViewMode, getItem. by intros ->. Qed.

Lemma step_view_mode e s :
  initialViewMode (localStorage s) = viewMode s →
  initialViewMode (localStorage (step e s)) = viewMode (step e s).
Proof.
  intros Hinv. unfold step. destruct (enabled e s); [| done].
  destruct (render_view (handler e s)) as (_ & -> & -> & _).
  destruct e; simpl; try done.
  - destruct (pending s) as [cached|]; [| done].
    destruct (loadData_resume_view_mode cached (set_pending None s))
      as [-> Hslot].
    by rewrite (initialViewMode_slot _ _ Hslot).
  - unfold initialViewMode, getItem, setItem.
    rewrite lookup_insert_eq. by destruct mode.
Qed.

Lemma run_view_mode es s :
  initialViewMode (localStorage s) = viewMode s →
  initialViewMode (localStorage (run es s)) = viewMode (run es s).
Proof.
  revert s. induction es as [|e es IH]; intros s Hinv; [done |].
  apply IH. by apply step_view_mode.
Qed.

(** Once a render has thrown, no event is taken any more. *)
Lemma cs_crashed_step e s :
  crashed s = true → pending s = None → step e s = s.
Proof.
  intros Hcr Hp. unfold step.
  destruct e; simpl; unfold shown; by rewrite ?Hcr, ?Hp.
Qed.

End CodeSigningFacts.

(** X14.  The view mode of the code-signing page survives a reload: at
    every point of a session, a fresh mount on the storage of that moment
    starts in the view mode then shown.  A click on a view button, which
    the page offers unless it shows the error panel or has lost its render,
    shows that mode, stores it, and touches neither the keys nor their
    cache slot.  With no stored preference, or an empty one, the page
    starts as a table; any other stored string is taken as it is, and the
    table is shown only for the string "table". *)
Theorem view_mode_persists `{JSON (list CodeSigningKey.t)} `{CodeSigningAssets} :
  (∀ ls es,
     let s := CodeSigning.run es (CodeSigning.mount ls) in
     CodeSigning.initialViewMode (CodeSigning.localStorage s)
     = CodeSigning.viewMode s)
  ∧ (∀ s m,
     CodeSigning.shown s ≠ Error → CodeSigning.shown s ≠ Crashed →
     let s' := CodeSigning.step (CodeSigning.ViewModeClicked m) s in
     CodeSigning.viewMode s' = ViewMode_str m
     ∧ (CodeSigning.showsTable s' = true ↔ m = table)
     ∧ CodeSigning.localStorage s' !! CodeSigning.VIEW_MODE_KEY
       = Some (ViewMode_str m)
     ∧ CodeSigning.keys s' = CodeSigning.keys s
     ∧ CodeSigning.localStorage s' !! CodeSigning.CACHE_KEY
       = CodeSigning.localStorage s !! CodeSigning.CACHE_KEY)
  ∧ (∀ ls,
     ls !! CodeSigning.VIEW_MODE_KEY = None
     ∨ ls !! CodeSigning.VIEW_MODE_KEY = Some "" →
     CodeSigning.viewMode (CodeSigning.mount ls) = "table")
  ∧ (∀ ls v,
     ls !! CodeSigning.VIEW_MODE_KEY = Some v → v ≠ "" →
     CodeSigning.viewMode (CodeSigning.mount ls) = v
     ∧ (CodeSigning.showsTable (CodeSigning.mount ls) = true ↔ v = "table")).
Proof.
  split_and!.
  - intros ls es s. by apply run_view_mode.
  - intros s m Hshown Hcrashed s'.
    assert (s' = CodeSigning.render (CodeSigning.handleViewModeChange m s))
      as ->.
    { subst s'. unfold CodeSigning.step. simpl.
      by destruct (CodeSigning.shown s). }
    unfold CodeSigning.showsTable.
    destruct (render_view (CodeSigning.handleViewModeChange m s))
      as (-> & -> & -> & _).
    simpl. unfold setItem.
    split_and!; [done | | apply lookup_insert_eq | done
                 | by rewrite lookup_insert_ne].
    destruct m; simpl; split; done.
  - intros ls Hslot. simpl. unfold CodeSigning.initialViewMode, getItem.
    by destruct Hslot as [-> | ->].
  - intros ls v Hslot Hv. apply truthy_true in Hv.
    unfold CodeSigning.showsTable. simpl.
    unfold CodeSigning.initialViewMode, getItem. rewrite Hslot, Hv.
    split; [done | apply String.eqb_eq].
Qed.

Lemma view_mode_persists_witness :
  CodeSigning.viewMode
    (@CodeSigning.step Demo.json_cskeys Demo.cs_assets
       (CodeSigning.ViewModeClicked grid) Demo.cs_loaded)
  = "grid".
Proof.
  refine (proj1 (proj1 (proj2 (@view_mode_persists Demo.json_cskeys
                                 Demo.cs_assets))
                   Demo.cs_loaded grid _ _)).
  - vm_compute. discriminate.
  - vm_compute. discriminate.
Defined.

Section CodeSigningCache.
Context `{JSON (list CodeSigningKey.t)} `{CodeSigningAssets}.
Import CodeSigning.

Lemma cs_load ls :
  let s1 := step LoadResumes (mount ls) in
  viewMode s1 = viewMode (mount ls)
  ∧ localStorage s1 !! VIEW_MODE_KEY = ls !! VIEW_MODE_KEY
  ∧ match ls !! CACHE_KEY with
    | Some text =>
        if JsString.truthy text then
          match JSON_parse text with
          | Records parsed => keys s1 = parsed ∧ shown s1 = Ready
                              ∧ localStorage s1 = ls
          | NotArray z =>
              s1 = mkState [] (initialViewMode ls) false None "" "" None ls
                     (Some z) (negb z)
          | Throws => keys s1 = [] ∧ shown s1 = Error ∧ localStorage s1 = ls
          end
        else keys s1 = codeSigningData ∧ shown s1 = Ready
             ∧ localStorage s1
               = setItem ls CACHE_KEY (JSON_stringify codeSigningData)
    | None => keys s1 = codeSigningData ∧ shown s1 = Ready
              ∧ localStorage s1
                = setItem ls CACHE_KEY (JSON_stringify codeSigningData)
    end.
Proof.
  unfold step. simpl. unfold getItem, loadData_resume, render, renderThrows.
  destruct (ls !! CACHE_KEY) as [text|]; [destruct (JsString.truthy text);
    [destruct (JSON_parse text) as [| [] |] |] |]; simpl; split_and!; try done;
    unfold setItem; by rewrite lookup_insert_ne.
Qed.

End CodeSigningCache.

(** X15.  The loader of the code-signing page: a cache slot holding a
    non-empty text that parses to an array gives the parsed keys; an
    absent slot or the empty string gives the bundled keys and stores
    them; a non-empty text on which [JSON.parse] throws gives the error
    state with no keys and the storage as it was; a non-empty text that
    parses to a value that is no array is stored without an error, and
    the render that follows throws, after which no event is taken; unless
    the [length] of the value is [0], in which case the page shows its
    empty state, and throws as soon as a search text is applied.  In every
    case the view mode and its preference slot are as they were at
    mount. *)
Theorem codesigning_loader `{JSON (list CodeSigningKey.t)} `{CodeSigningAssets}
    (ls : gmap string string) :
  let s1 := CodeSigning.step CodeSigning.LoadResumes (CodeSigning.mount ls) in
  CodeSigning.shown (CodeSigning.mount ls) = Loading
  ∧ CodeSigning.viewMode s1 = CodeSigning.viewMode (CodeSigning.mount ls)
  ∧ CodeSigning.localStorage s1 !! CodeSigning.VIEW_MODE_KEY
    = ls !! CodeSigning.VIEW_MODE_KEY
  ∧ (∀ text parsed,
       ls !! CodeSigning.CACHE_KEY = Some text → text ≠ "" →
       JSON_parse text = Records parsed →
       CodeSigning.keys s1 = parsed ∧ CodeSigning.shown s1 = Ready
       ∧ CodeSigning.localStorage s1 = ls)
  ∧ (ls !! CodeSigning.CACHE_KEY = None
     ∨ ls !! CodeSigning.CACHE_KEY = Some "" →
       CodeSigning.keys s1 = codeSigningData
       ∧ CodeSigning.shown s1 = Ready
       ∧ CodeSigning.localStorage s1
         = setItem ls CodeSigning.CACHE_KEY (JSON_stringify codeSigningData))
  ∧ (∀ text,
       ls !! CodeSigning.CACHE_KEY = Some text → text ≠ "" →
       JSON_parse (A := list CodeSigningKey.t) text = Throws →
       CodeSigning.keys s1 = [] ∧ CodeSigning.shown s1 = Error
       ∧ CodeSigning.localStorage s1 = ls)
  ∧ (∀ text,
       ls !! CodeSigning.CACHE_KEY = Some text → text ≠ "" →
       JSON_parse (A := list CodeSigningKey.t) text = NotArray false →
       CodeSigning.shown s1 = Crashed
       ∧ CodeSigning.error s1 = None
       ∧ CodeSigning.keys s1 = []
       ∧ CodeSigning.localStorage s1 = ls
       ∧ ∀ e, CodeSigning.step e s1 = s1)
  ∧ (∀ text,
       ls !! CodeSigning.CACHE_KEY = Some text → text ≠ "" →
       JSON_parse (A := list CodeSigningKey.t) text = NotArray true →
       CodeSigning.shown s1 = Ready
       ∧ CodeSigning.error s1 = None
       ∧ CodeSigning.keys s1 = []
       ∧ CodeSigning.localStorage s1 = ls
       ∧ ∀ q, q ≠ "" →
           CodeSigning.shown
             (CodeSigning.run
                [CodeSigning.SearchInput q; CodeSigning.DebounceSettles] s1)
           = Crashed).
Proof.
  intros s1. destruct (cs_load ls) as (Hv & Hslot & Hcases).
  fold s1 in Hv, Hslot, Hcases.
  split_and!; [done | done | done | | | | |].
  - intros text parsed Hc Htext Hparse. apply truthy_true in Htext.
    by rewrite Hc, Htext, Hparse in Hcases.
  - intros [Hc | Hc]; by rewrite Hc in Hcases.
  - intros text Hc Htext Hparse. apply truthy_true in Htext.
    by rewrite Hc, Htext, Hparse in Hcases.
  - intros text Hc Htext Hparse. apply truthy_true in Htext.
    rewrite Hc, Htext, Hparse in Hcases. rewrite Hcases.
    split_and!; try done. intros e. by apply cs_crashed_step.
  - intros text Hc Htext Hparse. apply truthy_true in Htext.
    rewrite Hc, Htext, Hparse in Hcases. rewrite Hcases.
    split_and!; try done. intros q Hq. apply truthy_true in Hq.
    unfold CodeSigning.run, CodeSigning.step. simpl.
    unfold CodeSigning.render, CodeSigning.renderThrows. simpl.
    by rewrite Hq.
Qed.

Lemma codesigning_loader_witness :
  (CodeSigning.keys Demo.cs_loaded = Demo.cskeys3
   ∧ CodeSigning.shown Demo.cs_loaded = Ready
   ∧ CodeSigning.localStorage Demo.cs_loaded
     = setItem ∅ CodeSigning.CACHE_KEY (Demo.stringify_cskeys Demo.cskeys3))
  ∧ CodeSigning.shown
      (@CodeSigning.step Demo.json_cskeys Demo.cs_assets CodeSigning.LoadResumes
         (CodeSigning.mount {[ CodeSigning.CACHE_KEY := "null" ]})) = Crashed
  ∧ CodeSigning.shown
      (@CodeSigning.run Demo.json_cskeys Demo.cs_assets
         [CodeSigning.SearchInput "rsa"; CodeSigning.DebounceSettles]
         (@CodeSigning.step Demo.json_cskeys Demo.cs_assets
            CodeSigning.LoadResumes
            (CodeSigning.mount
               {[ CodeSigning.CACHE_KEY := Demo.dquote +:+ Demo.dquote ]})))
    = Crashed.
Proof.
  split; [| split].
  - refine (proj1 (proj2 (proj2 (proj2 (proj2
              (@codesigning_loader Demo.json_cskeys Demo.cs_assets ∅))))) _).
    left. vm_compute. reflexivity.
  - refine (proj1 (proj1 (proj2 (proj2 (proj2 (proj2 (proj2 (proj2
              (@codesigning_loader Demo.json_cskeys Demo.cs_assets
                 {[ CodeSigning.CACHE_KEY := "null" ]})))))))
              "null" _ _ _));
      [vm_compute; reflexivity | discriminate | vm_compute; reflexivity].
  - refine (proj2 (proj2 (proj2 (proj2
              (proj2 (proj2 (proj2 (proj2 (proj2 (proj2 (proj2
                 (@codesigning_loader Demo.json_cskeys Demo.cs_assets
                    {[ CodeSigning.CACHE_KEY := Demo.dquote +:+ Demo.dquote ]})))))))
                 (Demo.dquote +:+ Demo.dquote) _ _ _)))) "rsa" _);
      [vm_compute; reflexivity | discriminate | vm_compute; reflexivity
      | discriminate].
Defined.

(** ** What moves the page index, and what the error state allows *)

Section CertificatesPageIndex.
Context `{Engine} `{JSON (list Certificate.t)} `{Assets}.
Import Certificates.

Lemma loadData_resume_controls cached s :
  let s' := loadData_resume cached s in
  currentPage s' = currentPage s ∧ debouncedSearch s' = debouncedSearch s
  ∧ domainFilter s' = domainFilter s ∧ pageSize s' = pageSize s.
Proof.
  unfold loadData_resume.
  destruct cached as [text|]; [destruct (JsString.truthy text);
    [destruct (JSON_parse text) |] |]; repeat split; reflexivity.
Qed.

Lemma handler_currentPage e s :
  (∀ k, e ≠ PageChanged k) → e ≠ RetryClicked →
  currentPage (handler e s) = currentPage s.
Proof.
  intros He Hretry. destruct e; simpl; try done.
  - destruct (pending s) as [cached|]; [| done].
    by destruct (loadData_resume_controls cached (set_pending None s))
      as (-> & _).
  - by destruct (He page).
  - unfold handleSaveEdit. destruct (editingCert s); [| done].
    by destruct (JsString.truthy _).
Qed.

Lemma pageDepsChanged_false prev next :
  debouncedSearch next = debouncedSearch prev →
  domainFilter next = domainFilter prev →
  pageSize next = pageSize prev →
  pageDepsChanged prev next = false.
Proof.
  intros Hd Hf Hp. unfold pageDepsChanged.
  by rewrite Hd, Hf, Hp, !String.eqb_refl, Z.eqb_refl.
Qed.

(** A page that has no certificate is on page 1: the pagination bar needs
    a row to show. *)
Lemma empty_page_step e s :
  cert_inv s →
  (certificates s = [] → currentPage s = 1) →
  certificates (step e s) = [] → currentPage (step e s) = 1.
Proof.
  intros Hinv Hpage. unfold step. destruct (enabled e s) eqn:Hen; [| done].
  destruct (runEffects_view s (handler e s)) as (-> & _).
  rewrite runEffects_currentPage.
  destruct (pageDepsChanged s (handler e s)); [done |].
  destruct e; simpl in Hen |- *; try done.
  - destruct (pending s) as [cached|] eqn:Hp; [| done]. intros _.
    destruct (loadData_resume_controls cached (set_pending None s))
      as (-> & _).
    simpl. apply Hpage. destruct Hinv as (Hpend & _).
    by destruct Hpend as (Hnil & _); [by eexists |].
  - intros Hnil. apply andb_true_iff in Hen as [_ Hrows%Z.ltb_lt].
    unfold filtered in Hrows. rewrite cert_pipeline, sort_length in Hrows.
    rewrite Hnil in Hrows. simpl in Hrows. lia.
  - unfold handleSaveEdit. destruct (editingCert s); [| done].
    destruct (JsString.truthy _); [| done]. simpl. intros Hnil.
    apply Hpage. by destruct (certificates s).
Qed.

Lemma reachable_empty_page s :
  reachable s → certificates s = [] → currentPage s = 1.
Proof.
  induction 1 as [ls | e s Hreach IH]; [done |].
  apply empty_page_step; [by apply reachable_inv | done].
Qed.

Lemma failed_shown s :
  cert_failed s →
  (pending s = None → shown s = Error)
  ∧ shown s ≠ Ready ∧ shown s ≠ Crashed.
Proof.
  intros (_ & Hcr & _ & _ & Hphase). unfold shown, surface. rewrite Hcr.
  destruct Hphase as [[_ ->] | (-> & -> & ->)]; simpl; done.
Qed.

Lemma failed_run_error es s :
  cert_failed s → pending s = None → Forall (λ e, e ≠ RetryClicked) es →
  shown (run es s) = Error.
Proof.
  revert s. induction es as [|e es IH]; intros s Hs Hp Hes.
  - by apply failed_shown.
  - change (run (e :: es) s) with (run es (step e s)).
    inversion Hes as [|? ? He Hes']; subst.
    destruct (step_records e s Hp) as (Hp' & _); [by left |].
    apply IH; [by apply failed_step | done | done].
Qed.

End CertificatesPageIndex.

(** X16.  On the certificates page the page index moves only by the
    pagination control or by the reset to page 1: a step that is not a
    page change and leaves the debounced search text, the domain filter
    and the page size as they were (a sort toggle, typing, a save, opening
    or closing a dialog, the load) leaves the page index as it was; so
    does Try Again in every state the page can reach, the error panel
    being shown on page 1 only; an enabled page change sets the index to
    the page asked for; and Try Again, where it is offered, ends on
    page 1. *)
Theorem page_index_moves `{Engine} `{JSON (list Certificate.t)} `{Assets}
    (s : Certificates.State) :
  (∀ e, (∀ k, e ≠ Certificates.PageChanged k) →
     e ≠ Certificates.RetryClicked ∨ Certificates.reachable s →
     let s' := Certificates.step e s in
     Certificates.debouncedSearch s' = Certificates.debouncedSearch s →
     Certificates.domainFilter s' = Certificates.domainFilter s →
     Certificates.pageSize s' = Certificates.pageSize s →
     Certificates.currentPage s' = Certificates.currentPage s)
  ∧ (∀ k, Certificates.enabled (Certificates.PageChanged k) s = true →
     Certificates.currentPage
       (Certificates.step (Certificates.PageChanged k) s) = k)
  ∧ Certificates.currentPage (Certificates.step Certificates.SortToggled s)
    = Certificates.currentPage s
  ∧ (Certificates.enabled Certificates.RetryClicked s = true →
     Certificates.currentPage
       (Certificates.step Certificates.RetryClicked s) = 1).
Proof.
  assert (∀ e, (∀ k, e ≠ Certificates.PageChanged k) →
     e ≠ Certificates.RetryClicked →
     let s' := Certificates.step e s in
     Certificates.debouncedSearch s' = Certificates.debouncedSearch s →
     Certificates.domainFilter s' = Certificates.domainFilter s →
     Certificates.pageSize s' = Certificates.pageSize s →
     Certificates.currentPage s' = Certificates.currentPage s) as Hkeep.
  { intros e He Hretry s'. subst s'. unfold Certificates.step.
    destruct (Certificates.enabled e s); [| done].
    destruct (runEffects_view s (Certificates.handler e s))
      as (_ & -> & -> & _ & -> & _).
    intros Hd Hf Hp.
    rewrite runEffects_currentPage, (pageDepsChanged_false _ _ Hd Hf Hp).
    by apply handler_currentPage. }
  assert (Certificates.enabled Certificates.RetryClicked s = true →
          Certificates.currentPage
            (Certificates.step Certificates.RetryClicked s) = 1) as Hretry.
  { intros Hen. unfold Certificates.step. rewrite Hen. simpl.
    by rewrite runEffects_mount. }
  split_and!; [| | | done].
  - intros e He [Hne | Hreach]; [by apply Hkeep |].
    intros s' Hd Hf Hp. subst s'.
    destruct (Certificates.enabled Certificates.RetryClicked s) eqn:Hen.
    + assert (Certificates.currentPage s = 1) as Hone.
      { apply reachable_empty_page; [done |].
        pose proof (reachable_inv s Hreach) as Hinv.
        simpl in Hen.
        destruct (Certificates.shown s) eqn:Hshown; try discriminate Hen.
        by destruct (error_failed s Hinv Hshown). }
      destruct e; try (by apply Hkeep). by rewrite Hretry, Hone.
    + destruct e; try (by apply Hkeep).
      unfold Certificates.step. by rewrite Hen.
  - intros k Hen. unfold Certificates.step. rewrite Hen.
    rewrite runEffects_currentPage. simpl.
    by rewrite pageDepsChanged_false.
  - apply Hkeep; [intros k; discriminate | discriminate | | |];
      unfold Certificates.step;
      destruct (Certificates.enabled Certificates.SortToggled s);
      try done;
      destruct (runEffects_view s
                  (Certificates.handler Certificates.SortToggled s))
        as (_ & Hd & Hf & _ & Hp & _);
      first [exact Hd | exact Hf | exact Hp].
Qed.

Lemma page_index_moves_witness :
  Certificates.currentPage
    (@Certificates.step Demo.engine Demo.json_certs Demo.assets
       (Certificates.PageChanged 2) Demo.certs_loaded) = 2
  ∧ Certificates.currentPage
      (@Certificates.step Demo.engine Demo.json_certs Demo.assets
         Certificates.RetryClicked Demo.certs_broken_cache) = 1
  ∧ Certificates.currentPage
      (@Certificates.step Demo.engine Demo.json_certs Demo.assets
         Certificates.RetryClicked Demo.certs_broken_cache)
    = Certificates.currentPage Demo.certs_broken_cache
  ∧ Certificates.currentPage
      (@Certificates.step Demo.engine Demo.json_certs Demo.assets
         Certificates.SaveClicked Demo.certs_named_edit)
    = Certificates.currentPage Demo.certs_named_edit.
Proof.
  split_and!.
  - apply (proj1 (proj2 (@page_index_moves Demo.engine Demo.json_certs
                           Demo.assets Demo.certs_loaded))).
    vm_compute. reflexivity.
  - apply (proj2 (proj2 (proj2 (@page_index_moves Demo.engine Demo.json_certs
                                   Demo.assets Demo.certs_broken_cache)))).
    vm_compute. reflexivity.
  - apply (proj1 (@page_index_moves Demo.engine Demo.json_certs
                    Demo.assets Demo.certs_broken_cache)
             Certificates.RetryClicked).
    + intros k. discriminate.
    + right. apply reachable_run. constructor.
    + vm_compute. reflexivity.
    + vm_compute. reflexivity.
    + vm_compute. reflexivity.
  - apply (proj1 (@page_index_moves Demo.engine Demo.json_certs
                    Demo.assets Demo.certs_named_edit)
             Certificates.SaveClicked).
    + intros k. discriminate.
    + left. discriminate.
    + vm_compute. reflexivity.
    + vm_compute. reflexivity.
    + vm_compute. reflexivity.
Defined.

(** Why Try Again is taken from a state the page can reach: in a state
    made up of an error on page 3, which no session reaches, the reload
    would move the page index. *)
Example retry_moves_unreachable_page :
  let s := Certificates.set_pending None
             (Certificates.set_currentPage 3
                (Certificates.set_error (Some "e") (Certificates.mount ∅))) in
  Certificates.currentPage s = 3
  ∧ Certificates.currentPage
      (@Certificates.step Demo.engine Demo.json_certs Demo.assets
         Certificates.RetryClicked s) = 1.
Proof. split; vm_compute; reflexivity. Qed.

(** X17.  A failed load of the certificates page stays failed.  In the
    error state the page takes two events only, the debounce timer and
    Try Again; Try Again loads the page anew over the storage as it is,
    which shows the loading state, and that load ends in the error state
    again; along every run of events from the error state the collection
    stays empty, the storage is not written, and the page is never ready;
    and a run without Try Again stays in the error state. *)
Theorem error_state_final `{Engine} `{JSON (list Certificate.t)} `{Assets}
    (s : Certificates.State) (es : list Certificates.Event) :
  Certificates.reachable s →
  Certificates.shown s = Error →
  (∀ e, Certificates.enabled e s = true →
        e = Certificates.DebounceSettles ∨ e = Certificates.RetryClicked)
  ∧ Certificates.step Certificates.RetryClicked s
    = Certificates.mount (Certificates.localStorage s)
  ∧ Certificates.shown (Certificates.step Certificates.RetryClicked s)
    = Loading
  ∧ Certificates.shown
      (Certificates.run
         [Certificates.RetryClicked; Certificates.LoadResumes] s) = Error
  ∧ (let s' := Certificates.run es s in
     Certificates.certificates s' = []
     ∧ Certificates.localStorage s' = Certificates.localStorage s
     ∧ Certificates.shown s' ≠ Ready
     ∧ Certificates.shown s' ≠ Crashed
     ∧ (Forall (λ e, e ≠ Certificates.RetryClicked) es →
        Certificates.shown s' = Error)).
Proof.
  intros Hreach Hshown.
  pose proof (error_failed s (reachable_inv s Hreach) Hshown) as Hfailed.
  assert (Certificates.pending s = None) as Hp.
  { destruct Hfailed as (_ & Hcr & _ & _ & [[Hp _] | (_ & He & Hld)]);
      [done |].
    unfold Certificates.shown, surface in Hshown.
    by rewrite Hcr, He, Hld in Hshown. }
  assert (Certificates.step Certificates.RetryClicked s
          = Certificates.mount (Certificates.localStorage s)) as Hretry.
  { unfold Certificates.step. simpl. rewrite Hshown.
    apply runEffects_mount. }
  split_and!.
  - intros e Hen.
    destruct e; simpl in Hen;
      unfold Certificates.pageShown, Certificates.rowsShown in Hen;
      rewrite ?Hshown, ?Hp in Hen; try discriminate Hen; auto.
  - done.
  - by rewrite Hretry.
  - change (Certificates.run
              [Certificates.RetryClicked; Certificates.LoadResumes] s)
      with (Certificates.step Certificates.LoadResumes
              (Certificates.step Certificates.RetryClicked s)).
    rewrite Hretry.
    destruct Hfailed as (_ & _ & _ & (text & Hslot & Htext & Hparse) & _).
    apply truthy_true in Htext.
    by destruct (cert_load_broken _ text Hslot Htext Hparse) as (-> & _).
  - destruct (failed_run es s Hfailed) as [Hfailed' Hls].
    destruct (failed_shown _ Hfailed') as (_ & Hready & Hcrashed).
    split_and!; [by destruct Hfailed' | done | done | done |].
    intros Hes. by apply failed_run_error.
Qed.

Lemma error_state_final_witness :
  Certificates.shown
    (@Certificates.run Demo.engine Demo.json_certs Demo.assets
       [Certificates.RetryClicked; Certificates.LoadResumes]
       Demo.certs_broken_cache)
  = Error.
Proof.
  refine (proj1 (proj2 (proj2 (proj2
            (@error_state_final Demo.engine Demo.json_certs Demo.assets
               Demo.certs_broken_cache [] _ _))))).
  - apply reachable_run. constructor.
  - vm_compute. reflexivity.
Defined.

(** ** Collections that are read-only once loaded *)

Section ReadOnly.
Context `{Engine} `{JSON (list AuditLog.t)} `{Assets}.
Context `{JSON (list CodeSigningKey.t)} `{CodeSigningAssets}.

Lemma logs_step_read_only e s :
  AuditLogs.pending s = None →
  AuditLogs.pending (AuditLogs.step e s) = None
  ∧ AuditLogs.logs (AuditLogs.step e s) = AuditLogs.logs s
  ∧ AuditLogs.localStorage (AuditLogs.step e s) = AuditLogs.localStorage s.
Proof.
  intros Hp. unfold AuditLogs.step.
  destruct (AuditLogs.enabled e s) eqn:Hen; [| done].
  destruct (runEffects_logs_view s (AuditLogs.handler e s))
    as (-> & _ & _ & -> & _ & _ & -> & _).
  destruct e; simpl in *; try done.
  - by rewrite Hp in Hen.
  - unfold AuditLogs.handleObserver. by destruct (_ && _).
Qed.

Lemma cskeys_step_read_only e s :
  CodeSigning.pending s = None →
  CodeSigning.pending (CodeSigning.step e s) = None
  ∧ CodeSigning.keys (CodeSigning.step e s) = CodeSigning.keys s
  ∧ CodeSigning.localStorage (CodeSigning.step e s) !! CodeSigning.CACHE_KEY
    = CodeSigning.localStorage s !! CodeSigning.CACHE_KEY.
Proof.
  intros Hp. unfold CodeSigning.step.
  destruct (CodeSigning.enabled e s) eqn:Hen; [| done].
  destruct (render_view (CodeSigning.handler e s))
    as (-> & _ & -> & -> & _).
  destruct e; simpl in *; try done.
  - by rewrite Hp in Hen.
  - split_and!; [done | done |]. unfold setItem. by rewrite lookup_insert_ne.
Qed.

End ReadOnly.

(** X18.  Audit logs and code-signing keys are read-only once loaded:
    after [loadData] has resumed, no run of events changes the logs or
    writes anything to the storage of the audit-log page, and no run of
    events changes the code-signing keys or their cache slot. *)
Theorem read_only_after_load `{Engine} `{JSON (list AuditLog.t)} `{Assets}
    `{JSON (list CodeSigningKey.t)} `{CodeSigningAssets} :
  (∀ es s,
     AuditLogs.pending s = None →
     AuditLogs.logs (AuditLogs.run es s) = AuditLogs.logs s
     ∧ AuditLogs.localStorage (AuditLogs.run es s) = AuditLogs.localStorage s)
  ∧ (∀ es s,
     CodeSigning.pending s = None →
     CodeSigning.keys (CodeSigning.run es s) = CodeSigning.keys s
     ∧ CodeSigning.localStorage (CodeSigning.run es s)
         !! CodeSigning.CACHE_KEY
       = CodeSigning.localStorage s !! CodeSigning.CACHE_KEY).
Proof.
  split.
  - induction es as [|e es IH]; intros s Hp; [done |].
    destruct (logs_step_read_only e s Hp) as (Hp' & Hl & Hs).
    change (AuditLogs.run (e :: es) s)
      with (AuditLogs.run es (AuditLogs.step e s)).
    destruct (IH _ Hp') as [? ?]. split; congruence.
  - induction es as [|e es IH]; intros s Hp; [done |].
    destruct (cskeys_step_read_only e s Hp) as (Hp' & Hl & Hs).
    change (CodeSigning.run (e :: es) s)
      with (CodeSigning.run es (CodeSigning.step e s)).
    destruct (IH _ Hp') as [? ?]. split; congruence.
Qed.

Lemma read_only_after_load_witness :
  CodeSigning.keys
    (@CodeSigning.run Demo.json_cskeys Demo.cs_assets
       [CodeSigning.ViewModeClicked grid; CodeSigning.SearchInput "rsa";
        CodeSigning.DebounceSettles]
       Demo.cs_loaded)
  = CodeSigning.keys Demo.cs_loaded.
Proof.
  apply (proj2 (@read_only_after_load Demo.engine Demo.json_logs Demo.assets
                  Demo.json_cskeys Demo.cs_assets)).
  vm_compute. reflexivity.
Defined.
